(** * ringbuffer: a byte ring buffer shared between threads

    A shallow embedding of the two C translation units of the repository
    that implement the ring buffer, and the properties of their
    operations.

    - [UsedTail] embeds the implementation that stores the occupancy
      [used] and the read cursor [tail] (API [rb_write_block],
      [rb_write_nonblock], [rb_read_block], [rb_read_nonblock],
      [rb_loose], ...).
    - [HeadTail] embeds [src/ringbuffer.c], which stores a write cursor
      [head] and a read cursor [tail] (API [rb_write_asy], [rb_read_asy],
      [rb_loose_data], ...).

    Conventions shared by both embeddings:
    - a [size_t] is a [Z] in [0, 2^64); every [size_t] operation of the
      source is followed by [size_t], its reduction modulo [2^64];
    - an [int] is a [Z] in [-2^31, 2^31); [to_int] is the conversion the
      source performs when it assigns a [size_t] to an [int];
    - memory is a [list byte]; [memcpy] outside the bounds of the source or
      of the destination block is a [Crash OutOfBounds]; a modulus by zero
      is a [Crash DivByZero];
    - a handle ([struct ringbuffer], field [_rb]) is an [option]:
      [None] is the null pointer;
    - the pthread primitives carry no data.  A call that reaches
      [_cond_wait] asks the environment ([wake]) for the state of the
      buffer at the moment the thread is woken; [None] means that nobody
      ever signals, which is what happens in a single-threaded run, and the
      call is then [Blocked].  The loops of [rb_write_syn] and
      [rb_read_syn], which can go round without waiting, also ask the
      environment ([yield]) for the state of the buffer at the start of
      the next pass. *)

From Stdlib Require Import ZArith List Bool Lia.
Import ListNotations.
Local Open Scope Z_scope.

(** ** Machine integers, faults and results *)

Definition size_t (z : Z) : Z := z mod 2 ^ 64.

Definition to_int (z : Z) : Z := (z + 2 ^ 31) mod 2 ^ 32 - 2 ^ 31.

Definition INT_MAX : Z := 2 ^ 31 - 1.

(** The values of <errno.h> on Linux. *)
Definition E2BIG : Z := 7.
Definition EAGAIN : Z := 11.
Definition ENOMEM : Z := 12.
Definition EFAULT : Z := 14.

Inductive fault : Type :=
| OutOfBounds
| DivByZero
| NullDeref
| AssertFailed.

Inductive result (A : Type) : Type :=
| Ok (a : A)
| Crash (f : fault).

Arguments Ok {A} a.
Arguments Crash {A} f.

Definition bind {A B : Type} (r : result A) (k : A -> result B) : result B :=
  match r with
  | Ok a => k a
  | Crash f => Crash f
  end.

Notation "x <- r ;; k" := (bind r (fun x => k))
  (at level 61, r at next level, right associativity).

(** What a call of the API does: it returns, it is parked in [_cond_wait]
    for ever (with the buffer in state [s]), it crashes, or the model ran
    out of [fuel] before the loop of the source ended. *)
Inductive outcome (St A : Type) : Type :=
| Returned (a : A)
| Blocked (s : St)
| Crashed (f : fault)
| OutOfFuel.

Arguments Returned {St A} a.
Arguments Blocked {St A} s.
Arguments Crashed {St A} f.
Arguments OutOfFuel {St A}.

(** ** Memory blocks *)

Definition len {A : Type} (l : list A) : Z := Z.of_nat (length l).

Definition slice (l : list Byte.byte) (off n : Z) : list Byte.byte :=
  firstn (Z.to_nat n) (skipn (Z.to_nat off) l).

(** [n] bytes read at offset [off] of the block [src]. *)
Definition load (src : list Byte.byte) (off n : Z) : result (list Byte.byte) :=
  if (0 <=? off) && (0 <=? n) && (off + n <=? len src)
  then Ok (slice src off n)
  else Crash OutOfBounds.

(** The block [dst] after [bytes] were stored at offset [off]. *)
Definition store (dst : list Byte.byte) (off : Z) (bytes : list Byte.byte)
  : result (list Byte.byte) :=
  if (0 <=? off) && (off + len bytes <=? len dst)
  then Ok (firstn (Z.to_nat off) dst ++ bytes
           ++ skipn (Z.to_nat (off + len bytes)) dst)
  else Crash OutOfBounds.

(** [memcpy(&dst[doff], &src[soff], n)]. *)
Definition memcpy (dst : list Byte.byte) (doff : Z)
                  (src : list Byte.byte) (soff n : Z) : result (list Byte.byte) :=
  bytes <- load src soff n ;;
  store dst doff bytes.

(** ** Resources acquired by [rb_init] and released by [rb_destroy] *)

Inductive prim : Type :=
| spinlock
| rd_mutex
| rd_cond_lock
| rd_cond
| wr_mutex
| wr_cond_lock
| wr_cond.

Inductive event : Type :=
| EvMalloc (n : Z)
| EvFree
| EvInit (p : prim)
| EvDestroy (p : prim).

(** The part of the environment [rb_init] depends on: whether [malloc]
    fails, the return code of the initialisation of each primitive, and
    what the fresh block contains ([junk] in every [size_t] field,
    [junk_byte] in every byte of the arena). *)
Record env : Type := mkEnv {
  malloc_fails : bool;
  init_erc : prim -> Z;
  junk : Z;
  junk_byte : Byte.byte
}.

(** The order in which [rb_init] initialises the primitives. *)
Definition init_order : list prim :=
  [spinlock; rd_mutex; rd_cond_lock; rd_cond; wr_mutex; wr_cond_lock; wr_cond].

(** The chain of initialisations of [rb_init] with its [goto undo_...]
    labels: [done] lists the primitives already initialised, most recent
    first, which is the order in which the labels destroy them.  Returns
    the error code (0 on success) and the events. *)
Fixpoint init_prims (e : env) (todo done : list prim) : Z * list event :=
  match todo with
  | [] => (0, [])
  | p :: todo' =>
      let erc := init_erc e p in
      if erc =? 0
      then let '(r, evs) := init_prims e todo' (p :: done) in
           (r, EvInit p :: evs)
      else (erc, map EvDestroy done)
  end.

(** The calls of [rb_destroy], in order. *)
Definition destroy_events : list event :=
  [EvDestroy wr_cond; EvDestroy wr_cond_lock; EvDestroy wr_mutex;
   EvDestroy rd_cond; EvDestroy rd_cond_lock; EvDestroy rd_mutex;
   EvDestroy spinlock; EvFree].

(** ** The implementation with [used] and [tail] *)

Module UsedTail.

(** [struct _ringbuffer]: the four [size_t] fields and the arena [data]. *)
Record ringbuffer : Type := mkRb {
  size : Z;
  used : Z;
  tail : Z;
  lost : Z;
  data : list Byte.byte
}.

Definition set_used (rb : ringbuffer) (v : Z) : ringbuffer :=
  mkRb (size rb) v (tail rb) (lost rb) (data rb).

Definition set_tail (rb : ringbuffer) (v : Z) : ringbuffer :=
  mkRb (size rb) (used rb) v (lost rb) (data rb).

Definition set_lost (rb : ringbuffer) (v : Z) : ringbuffer :=
  mkRb (size rb) (used rb) (tail rb) v (data rb).

Definition set_data (rb : ringbuffer) (d : list Byte.byte) : ringbuffer :=
  mkRb (size rb) (used rb) (tail rb) (lost rb) d.

(** [ringbuffer_t]: the pointer [_rb]. *)
Definition handle : Type := option ringbuffer.

Definition _free (rb : ringbuffer) : Z := size_t (size rb - used rb).

Definition _used (rb : ringbuffer) : Z := used rb.

(** [_put(_rb, po, co)], where the source pointer [po] is the block [src]
    at offset [off].  Returns the number of bytes taken. *)
Definition _put (rb : ringbuffer) (src : list Byte.byte) (off co : Z)
  : result (Z * ringbuffer) :=
  let __free := size_t (size rb - used rb) in
  if size rb =? 0 then Crash DivByZero else
  let __head := size_t (tail rb + used rb) mod size rb in
  let co := if co >? __free then __free else co in
  let new_head := size_t (__head + co) mod size rb in
  if new_head <=? size rb then
    d <- memcpy (data rb) __head src off co ;;
    Ok (co, set_used (set_data rb d) (size_t (used rb + co)))
  else
    let i := size_t (size rb - __head) in
    d1 <- memcpy (data rb) __head src off i ;;
    let new_head := size_t (new_head - size rb) in
    d2 <- memcpy d1 0 src (off + i) new_head ;;
    Ok (co, set_used (set_data rb d2) (size_t (used rb + co))).

(** [_get(_rb, po, co)]: the number of bytes copied, the bytes, the buffer. *)
Definition _get (rb : ringbuffer) (co : Z)
  : result (Z * list Byte.byte * ringbuffer) :=
  let co := if co >? used rb then used rb else co in
  if co =? 0 then Ok (0, [], rb) else
  if size rb =? 0 then Crash DivByZero else
  let new_tail := size_t (tail rb + co) mod size rb in
  if new_tail >? tail rb then
    bytes <- load (data rb) (tail rb) co ;;
    Ok (co, bytes, set_used (set_tail rb new_tail) (size_t (used rb - co)))
  else
    let co := size_t (size rb - tail rb) in
    bytes <- load (data rb) (tail rb) co ;;
    Ok (co, bytes, set_used (set_tail rb 0) (size_t (used rb - co))).

(** [rb_init]: no test of [rb->_rb]; on a failed initialisation of a
    primitive the block is neither freed nor is the pointer reset. *)
Definition rb_init (e : env) (rb : handle) (sz : Z) : Z * handle * list event :=
  if malloc_fails e then (ENOMEM, None, [EvMalloc sz])
  else
    let block := mkRb (junk e) (junk e) (junk e) (junk e)
                      (repeat (junk_byte e) (Z.to_nat sz)) in
    let '(erc, evs) := init_prims e init_order [] in
    if erc =? 0
    then (0, Some (mkRb sz 0 0 0 (data block)), EvMalloc sz :: evs)
    else (erc, Some block, EvMalloc sz :: evs).

Definition rb_destroy (rb : handle) : Z * handle * list event :=
  match rb with
  | None => (EFAULT, None, [])
  | Some _ => (0, None, destroy_events)
  end.

Section Blocking.

(** The environment at [_cond_wait]. *)
Variable wake : ringbuffer -> option ringbuffer.

(** The loop of [rb_write_block]. *)
Fixpoint write_block_loop (fuel : nat) (rb : ringbuffer)
    (src : list Byte.byte) (off co written : Z)
  : outcome ringbuffer (Z * ringbuffer) :=
  if co >? 0 then
    match fuel with
    | O => OutOfFuel
    | S fuel' =>
        match _put rb src off co with
        | Crash f => Crashed f
        | Ok (n, rb1) =>
            let res := to_int n in
            let off := off + res in
            let co := size_t (co - res) in
            let written := to_int (written + res) in
            if co >? 0 then
              match wake rb1 with
              | None => Blocked rb1
              | Some rb2 => write_block_loop fuel' rb2 src off co written
              end
            else write_block_loop fuel' rb1 src off co written
        end
    end
  else Returned (written, rb).

Definition rb_write_block (fuel : nat) (rb : handle)
    (po : list Byte.byte) (co : Z) : outcome ringbuffer (Z * handle) :=
  match rb with
  | None => Returned (- EFAULT, None)
  | Some _rb =>
      if co =? 0 then Returned (0, rb) else
      match write_block_loop fuel _rb po 0 co 0 with
      | Returned (written, rb') => Returned (written, Some rb')
      | Blocked s => Blocked s
      | Crashed f => Crashed f
      | OutOfFuel => OutOfFuel
      end
  end.

(** The loop of [rb_read_block]; [out] is what the caller's buffer holds
    below [po]. *)
Fixpoint read_block_loop (fuel : nat) (rb : ringbuffer)
    (co got : Z) (out : list Byte.byte)
  : outcome ringbuffer (Z * list Byte.byte * ringbuffer) :=
  if co >? 0 then
    match fuel with
    | O => OutOfFuel
    | S fuel' =>
        match _get rb co with
        | Crash f => Crashed f
        | Ok (n, bytes, rb1) =>
            let res := to_int n in
            if res =? 0 then
              if got =? 0 then
                match wake rb1 with
                | None => Blocked rb1
                | Some rb2 => read_block_loop fuel' rb2 co got out
                end
              else Returned (got, out, rb1)
            else
              read_block_loop fuel' rb1 (size_t (co - res))
                              (to_int (got + res)) (out ++ bytes)
        end
    end
  else Returned (got, out, rb).

Definition rb_read_block (fuel : nat) (rb : handle) (co : Z)
  : outcome ringbuffer (Z * list Byte.byte * handle) :=
  match rb with
  | None => Returned (- EFAULT, [], None)
  | Some _rb =>
      match read_block_loop fuel _rb co 0 [] with
      | Returned (got, out, rb') => Returned (got, out, Some rb')
      | Blocked s => Blocked s
      | Crashed f => Crashed f
      | OutOfFuel => OutOfFuel
      end
  end.

End Blocking.

(** The loop of [rb_write_nonblock]; [written] is a [size_t] here. *)
Fixpoint write_nonblock_loop (fuel : nat) (rb : ringbuffer)
    (src : list Byte.byte) (off co written : Z)
  : outcome ringbuffer (Z * ringbuffer) :=
  if co >? 0 then
    match fuel with
    | O => OutOfFuel
    | S fuel' =>
        match _put rb src off co with
        | Crash f => Crashed f
        | Ok (n, rb1) =>
            let res := to_int n in
            write_nonblock_loop fuel' rb1 src (off + res)
                                (size_t (co - res)) (size_t (written + res))
        end
    end
  else Returned (written, rb).

Definition rb_write_nonblock (fuel : nat) (rb : handle)
    (po : list Byte.byte) (co : Z) : outcome ringbuffer (Z * handle) :=
  match rb with
  | None => Returned (- EFAULT, None)
  | Some _rb =>
      if co >? size _rb then Returned (- E2BIG, rb) else
      if co <=? _free _rb then
        match write_nonblock_loop fuel _rb po 0 co 0 with
        | Returned (written, rb') => Returned (to_int written, Some rb')
        | Blocked s => Blocked s
        | Crashed f => Crashed f
        | OutOfFuel => OutOfFuel
        end
      else Returned (- ENOMEM, rb)
  end.

(** The loop of [rb_read_nonblock]. *)
Fixpoint read_nonblock_loop (fuel : nat) (rb : ringbuffer)
    (co got : Z) (out : list Byte.byte)
  : outcome ringbuffer (Z * list Byte.byte * ringbuffer) :=
  if co >? 0 then
    match fuel with
    | O => OutOfFuel
    | S fuel' =>
        match _get rb co with
        | Crash f => Crashed f
        | Ok (n, bytes, rb1) =>
            let res := to_int n in
            read_nonblock_loop fuel' rb1 (size_t (co - res))
                               (size_t (got + res)) (out ++ bytes)
        end
    end
  else Returned (got, out, rb).

Definition rb_read_nonblock (fuel : nat) (rb : handle) (co : Z)
  : outcome ringbuffer (Z * list Byte.byte * handle) :=
  match rb with
  | None => Returned (- EFAULT, [], None)
  | Some _rb =>
      if co >? size _rb then Returned (- E2BIG, [], rb) else
      if co <=? _used _rb then
        match read_nonblock_loop fuel _rb co 0 [] with
        | Returned (got, out, rb') => Returned (to_int got, out, Some rb')
        | Blocked s => Blocked s
        | Crashed f => Crashed f
        | OutOfFuel => OutOfFuel
        end
      else Returned (- EAGAIN, [], rb)
  end.

(** [rb_clear], [rb_get_size], [rb_get_used], [rb_get_free] assert that the
    pointer is set. *)
Definition rb_clear (rb : handle) : result handle :=
  match rb with
  | None => Crash AssertFailed
  | Some _rb => Ok (Some (set_lost (set_tail (set_used _rb 0) 0) 0))
  end.

Definition rb_get_size (rb : handle) : result Z :=
  match rb with
  | None => Crash AssertFailed
  | Some _rb => Ok (size _rb)
  end.

Definition rb_get_used (rb : handle) : result Z :=
  match rb with
  | None => Crash AssertFailed
  | Some _rb => Ok (_used _rb)
  end.

Definition rb_get_free (rb : handle) : result Z :=
  match rb with
  | None => Crash AssertFailed
  | Some _rb => Ok (_free _rb)
  end.

Definition rb_get_lost (rb : handle) : Z :=
  match rb with
  | None => EFAULT
  | Some _rb => lost _rb
  end.

Definition rb_clear_lost (rb : handle) : Z * handle :=
  match rb with
  | None => (EFAULT, None)
  | Some _rb => (lost _rb, Some (set_lost _rb 0))
  end.

Definition rb_loose (rb : handle) (loose : Z) : Z * handle :=
  match rb with
  | None => (EFAULT, None)
  | Some _rb =>
      let _rb' := set_lost _rb (size_t (lost _rb + loose)) in
      (lost _rb', Some _rb')
  end.

End UsedTail.

(** ** The implementation with [head] and [tail]: src/ringbuffer.c *)

Module HeadTail.

(** [struct _ringbuffer]. *)
Record ringbuffer : Type := mkRb {
  size : Z;
  head : Z;
  tail : Z;
  lost : Z;
  data : list Byte.byte
}.

Definition set_head (rb : ringbuffer) (v : Z) : ringbuffer :=
  mkRb (size rb) v (tail rb) (lost rb) (data rb).

Definition set_tail (rb : ringbuffer) (v : Z) : ringbuffer :=
  mkRb (size rb) (head rb) v (lost rb) (data rb).

Definition set_data (rb : ringbuffer) (d : list Byte.byte) : ringbuffer :=
  mkRb (size rb) (head rb) (tail rb) (lost rb) d.

(** [struct ringbuffer]: the pointer [_rb]. *)
Definition handle : Type := option ringbuffer.

Definition _avail (rb : ringbuffer) : Z :=
  if tail rb <=? head rb
  then size_t (size rb - size_t (head rb - tail rb))
  else size_t (tail rb - head rb).

Definition _length (rb : ringbuffer) : Z :=
  if tail rb <=? head rb
  then size_t (head rb - tail rb)
  else size_t (size rb - size_t (tail rb - head rb)).

Definition _put (rb : ringbuffer) (src : list Byte.byte) (off co : Z)
  : result ringbuffer :=
  let new_head := size_t (head rb + co) in
  if new_head <? size rb then
    d <- memcpy (data rb) (head rb) src off co ;;
    Ok (set_head (set_data rb d) new_head)
  else
    let i := size_t (size rb - head rb) in
    d1 <- memcpy (data rb) (head rb) src off i ;;
    let new_head := size_t (new_head - size rb) in
    d2 <- memcpy d1 0 src (off + i) new_head ;;
    Ok (set_head (set_data rb d2) new_head).

Definition _get (rb : ringbuffer) (co : Z)
  : result (Z * list Byte.byte * ringbuffer) :=
  if tail rb <=? head rb then
    let avail := size_t (head rb - tail rb) in
    let co := if co >? avail then avail else co in
    bytes <- load (data rb) (tail rb) co ;;
    Ok (co, bytes, set_tail rb (size_t (tail rb + co)))
  else
    let avail := head rb in
    let co := if co >? avail then avail else co in
    bytes <- load (data rb) 0 co ;;
    Ok (co, bytes, set_tail rb co).

(** [rb_init] never assigns [_rb->size]: the field keeps what [malloc]
    left there. *)
Definition rb_init (e : env) (rb : handle) (sz : Z) : Z * handle * list event :=
  match rb with
  | Some _ => (EFAULT, rb, [])
  | None =>
      if malloc_fails e then (ENOMEM, None, [EvMalloc sz])
      else
        let '(erc, evs) := init_prims e init_order [] in
        if erc =? 0
        then (0, Some (mkRb (junk e) 0 0 0
                            (repeat (junk_byte e) (Z.to_nat sz))),
              EvMalloc sz :: evs)
        else (erc, None, EvMalloc sz :: evs ++ [EvFree])
  end.

(** [rb_destroy] returns [EFAULT] when the pointer IS set; with a null
    pointer it goes on to [pthread_cond_destroy(&_rb->wr_cond)]. *)
Definition rb_destroy (rb : handle) : result (Z * handle * list event) :=
  match rb with
  | Some _ => Ok (EFAULT, rb, [])
  | None => Crash NullDeref
  end.

Definition _rb_write (rb : ringbuffer) (src : list Byte.byte) (off co : Z)
  : result (Z * ringbuffer) :=
  let avail := _avail rb in
  let co := if co >? avail then avail else co in
  if co >? 0 then
    rb' <- _put rb src off co ;;
    Ok (to_int co, rb')
  else Ok (to_int co, rb).

(** The loop of [_rb_read]. *)
Fixpoint rb_read_loop (fuel : nat) (rb : ringbuffer) (co : Z)
    (out : list Byte.byte) : outcome ringbuffer (list Byte.byte * ringbuffer) :=
  if co >? 0 then
    match fuel with
    | O => OutOfFuel
    | S fuel' =>
        match _get rb co with
        | Crash f => Crashed f
        | Ok (cr, bytes, rb1) =>
            rb_read_loop fuel' rb1 (size_t (co - cr)) (out ++ bytes)
        end
    end
  else Returned (out, rb).

(** [_rb_read] returns [length], not the number of bytes it copied. *)
Definition _rb_read (fuel : nat) (rb : ringbuffer) (co : Z)
  : outcome ringbuffer (Z * list Byte.byte * ringbuffer) :=
  let length := _length rb in
  let co := if co >? length then length else co in
  match rb_read_loop fuel rb co [] with
  | Returned (out, rb') => Returned (to_int length, out, rb')
  | Blocked s => Blocked s
  | Crashed f => Crashed f
  | OutOfFuel => OutOfFuel
  end.

Definition rb_write_asy (rb : handle) (po : list Byte.byte) (co : Z)
  : result (Z * handle) :=
  match rb with
  | None => Ok (- EFAULT, None)
  | Some _rb =>
      r <- _rb_write _rb po 0 co ;;
      Ok (fst r, Some (snd r))
  end.

Definition rb_read_asy (fuel : nat) (rb : handle) (co : Z)
  : outcome ringbuffer (Z * list Byte.byte * handle) :=
  match rb with
  | None => Returned (- EFAULT, [], None)
  | Some _rb =>
      match _rb_read fuel _rb co with
      | Returned (res, out, rb') => Returned (res, out, Some rb')
      | Blocked s => Blocked s
      | Crashed f => Crashed f
      | OutOfFuel => OutOfFuel
      end
  end.

Definition rb_clear (rb : handle) : result handle :=
  match rb with
  | None => Crash AssertFailed
  | Some _rb => Ok (Some (mkRb (size _rb) 0 0 0 (data _rb)))
  end.

Definition rb_get_size (rb : handle) : result Z :=
  match rb with
  | None => Crash AssertFailed
  | Some _rb => Ok (size _rb)
  end.

Definition rb_get_lost (rb : handle) : Z :=
  match rb with
  | None => EFAULT
  | Some _rb => lost _rb
  end.

Definition rb_clear_lost (rb : handle) : Z * handle :=
  match rb with
  | None => (EFAULT, None)
  | Some _rb =>
      (lost _rb, Some (mkRb (size _rb) (head _rb) (tail _rb) 0 (data _rb)))
  end.

(** [rb_loose_data] computes the sum in a local and stores nothing. *)
Definition rb_loose_data (rb : handle) (loose : Z) : Z * handle :=
  match rb with
  | None => (EFAULT, None)
  | Some _rb => (size_t (lost _rb + loose), rb)
  end.

Section Blocking.

(** The environment at [_cond_wait]. *)
Variable wake : ringbuffer -> option ringbuffer.

(** The environment between two passes of a loop that goes round without
    waiting: the spinlock is released after every pass, and [yield rb] is
    what the other threads have made of the buffer [rb] when the next pass
    takes the spinlock again. *)
Variable yield : ringbuffer -> ringbuffer.

(** The loop of [rb_write_syn]; [res] and [_co] are [int]s, and [_co] is
    converted to [size_t] when it is passed to [_rb_write]. *)
Fixpoint write_syn_loop (fuel : nat) (rb : ringbuffer)
    (src : list Byte.byte) (off res _co : Z)
  : outcome ringbuffer (Z * ringbuffer) :=
  if (res >=? 0) && (_co >? 0) then
    match fuel with
    | O => OutOfFuel
    | S fuel' =>
        match _rb_write rb src off (size_t _co) with
        | Crash f => Crashed f
        | Ok (res, rb1) =>
            if res >? 0 then
              let off := off + res in
              let _co := to_int (_co - res) in
              if _co >? 0 then
                match wake rb1 with
                | None => Blocked rb1
                | Some rb2 => write_syn_loop fuel' rb2 src off res _co
                end
              else write_syn_loop fuel' rb1 src off res _co
            else if res =? 0
            then write_syn_loop fuel' (yield rb1) src off res _co
            else write_syn_loop fuel' rb1 src off res _co
        end
    end
  else Returned (res, rb).

Definition rb_write_syn (fuel : nat) (rb : handle)
    (po : list Byte.byte) (co : Z) : outcome ringbuffer (Z * handle) :=
  match rb with
  | None => Returned (- EFAULT, None)
  | Some _rb =>
      match write_syn_loop fuel _rb po 0 0 (to_int co) with
      | Returned (res, rb') =>
          Returned (if res >=? 0 then to_int co else res, Some rb')
      | Blocked s => Blocked s
      | Crashed f => Crashed f
      | OutOfFuel => OutOfFuel
      end
  end.

(** The loop of [rb_read_syn]; [out] is what the caller's buffer holds
    below [_po].  The inner loop of [_rb_read] runs on the fuel of the
    pass.  A pass that read nothing ([res = 0]) is followed by the next
    pass without a wait. *)
Fixpoint read_syn_loop (fuel : nat) (rb : ringbuffer)
    (res _co : Z) (out : list Byte.byte)
  : outcome ringbuffer (Z * list Byte.byte * ringbuffer) :=
  if (res >=? 0) && (_co >? 0) then
    match fuel with
    | O => OutOfFuel
    | S fuel' =>
        match _rb_read fuel rb (size_t _co) with
        | Crashed f => Crashed f
        | OutOfFuel => OutOfFuel
        | Blocked s => Blocked s
        | Returned (res, bytes, rb1) =>
            if res >? 0 then
              let _co := to_int (_co - res) in
              if _co >? 0 then
                match wake rb1 with
                | None => Blocked rb1
                | Some rb2 => read_syn_loop fuel' rb2 res _co (out ++ bytes)
                end
              else read_syn_loop fuel' rb1 res _co (out ++ bytes)
            else if res =? 0
            then read_syn_loop fuel' (yield rb1) res _co out
            else read_syn_loop fuel' rb1 res _co out
        end
    end
  else Returned (res, out, rb).

Definition rb_read_syn (fuel : nat) (rb : handle) (co : Z)
  : outcome ringbuffer (Z * list Byte.byte * handle) :=
  match rb with
  | None => Returned (- EFAULT, [], None)
  | Some _rb =>
      match read_syn_loop fuel _rb 0 (to_int co) [] with
      | Returned (res, out, rb') =>
          Returned (if res >=? 0 then to_int co else res, out, Some rb')
      | Blocked s => Blocked s
      | Crashed f => Crashed f
      | OutOfFuel => OutOfFuel
      end
  end.

End Blocking.

End HeadTail.

(** ** The test program: src/ringbuffer_test.c *)

Module Test.

Definition EXIT_SUCCESS : Z := 0.

(** [main]: [rb0] is what the automatic variable [rb] holds when [main]
    starts; each [assert] that fails aborts the program. *)
Definition main (e : env) (rb0 : HeadTail.handle) : result Z :=
  let '(erc, rb, _) := HeadTail.rb_init e rb0 1024 in
  if erc =? 0 then
    r <- HeadTail.rb_destroy rb ;;
    if fst (fst r) =? 0 then Ok EXIT_SUCCESS else Crash AssertFailed
  else Crash AssertFailed.

End Test.

(** ** Vocabulary of the properties *)

(** No other thread: nobody signals a waiting caller. *)
Definition single_threaded {St : Type} : St -> option St := fun _ => None.

(** An environment that wakes every waiting caller with the buffer [s]. *)
Definition wake_with (s : UsedTail.ringbuffer)
  : UsedTail.ringbuffer -> option UsedTail.ringbuffer :=
  fun _ => Some s.

(** An environment in which [malloc] and every initialisation succeed. *)
Definition env_ok : env := mkEnv false (fun _ => 0) 0 Byte.x00.

(** An environment whose fresh block happens to hold 4 in its [size_t]
    fields, so that the [size] field [HeadTail.rb_init] leaves unset equals
    the capacity asked for. *)
Definition env_junk4 : env := mkEnv false (fun _ => 0) 4 Byte.x00.

(** The number of calls of [free] among the events. *)
Definition frees (evs : list event) : nat :=
  length (filter (fun ev => match ev with EvFree => true | _ => false end) evs).

(** The invariants of the buffer of [UsedTail]; [tail] is 0 in a buffer
    of capacity 0. *)
Definition rb_inv (s : UsedTail.ringbuffer) : Prop :=
  0 <= UsedTail.size s < 2 ^ 64
  /\ 0 <= UsedTail.used s <= UsedTail.size s
  /\ (0 <= UsedTail.tail s < UsedTail.size s
      \/ (UsedTail.size s = 0 /\ UsedTail.tail s = 0)).

(** A live handle whose buffer satisfies the invariants. *)
Definition live_inv (h : UsedTail.handle) : Prop :=
  exists s : UsedTail.ringbuffer, h = Some s /\ rb_inv s.

(** A buffer whose arena has [size] bytes and whose capacity fits the
    [int] the transfer functions return. *)
Definition well_formed (s : UsedTail.ringbuffer) : Prop :=
  UsedTail.size s <= INT_MAX
  /\ len (UsedTail.data s) = UsedTail.size s
  /\ 0 <= UsedTail.used s <= UsedTail.size s
  /\ (0 <= UsedTail.tail s < UsedTail.size s
      \/ (UsedTail.size s = 0 /\ UsedTail.tail s = 0)).

(** The arena read circularly from [tail]. *)
Definition rotated (s : UsedTail.ringbuffer) : list Byte.byte :=
  skipn (Z.to_nat (UsedTail.tail s)) (UsedTail.data s)
  ++ firstn (Z.to_nat (UsedTail.tail s)) (UsedTail.data s).

(** The unread bytes, oldest first. *)
Definition contents (s : UsedTail.ringbuffer) : list Byte.byte :=
  firstn (Z.to_nat (UsedTail.used s)) (rotated s).

(** The write position, [(tail + used) mod size]. *)
Definition head_of (s : UsedTail.ringbuffer) : Z :=
  (UsedTail.tail s + UsedTail.used s) mod UsedTail.size s.

(** The buffer after its [n] oldest bytes were read. *)
Definition after_read (s : UsedTail.ringbuffer) (n : Z) : UsedTail.ringbuffer :=
  UsedTail.set_used
    (UsedTail.set_tail s ((UsedTail.tail s + n) mod UsedTail.size s))
    (UsedTail.used s - n).

(** The buffer after [bytes] were stored at the write position. *)
Definition after_write (s : UsedTail.ringbuffer) (bytes : list Byte.byte)
  : UsedTail.ringbuffer :=
  UsedTail.set_used
    (UsedTail.set_data s
       (firstn (Z.to_nat (head_of s)) (UsedTail.data s) ++ bytes
        ++ skipn (Z.to_nat (head_of s + len bytes)) (UsedTail.data s)))
    (UsedTail.used s + len bytes).

(** The calls of the API of [UsedTail] on a live handle; an argument is
    converted to [size_t] as the call does. *)
Inductive op : Type :=
| WriteBlock (fuel : nat) (po : list Byte.byte) (co : Z)
| WriteNonblock (fuel : nat) (po : list Byte.byte) (co : Z)
| ReadBlock (fuel : nat) (co : Z)
| ReadNonblock (fuel : nat) (co : Z)
| Clear
| GetSize
| GetUsed
| GetFree
| GetLost
| ClearLost
| Loose (n : Z).

Definition handle_of {A : Type}
    (o : outcome UsedTail.ringbuffer (A * UsedTail.handle))
  : option UsedTail.handle :=
  match o with
  | Returned (_, rb) => Some rb
  | _ => None
  end.

(** The handle after the call returned; [None] when it did not return. *)
Definition exec (wake : UsedTail.ringbuffer -> option UsedTail.ringbuffer)
    (o : op) (rb : UsedTail.handle) : option UsedTail.handle :=
  match o with
  | WriteBlock fuel po co =>
      handle_of (UsedTail.rb_write_block wake fuel rb po (size_t co))
  | WriteNonblock fuel po co =>
      handle_of (UsedTail.rb_write_nonblock fuel rb po (size_t co))
  | ReadBlock fuel co =>
      handle_of (UsedTail.rb_read_block wake fuel rb (size_t co))
  | ReadNonblock fuel co =>
      handle_of (UsedTail.rb_read_nonblock fuel rb (size_t co))
  | Clear =>
      match UsedTail.rb_clear rb with Ok rb' => Some rb' | Crash _ => None end
  | GetSize =>
      match UsedTail.rb_get_size rb with Ok _ => Some rb | Crash _ => None end
  | GetUsed =>
      match UsedTail.rb_get_used rb with Ok _ => Some rb | Crash _ => None end
  | GetFree =>
      match UsedTail.rb_get_free rb with Ok _ => Some rb | Crash _ => None end
  | GetLost => Some rb
  | ClearLost => Some (snd (UsedTail.rb_clear_lost rb))
  | Loose n => Some (snd (UsedTail.rb_loose rb (size_t n)))
  end.

Fixpoint run (wake : UsedTail.ringbuffer -> option UsedTail.ringbuffer)
    (ops : list op) (rb : UsedTail.handle) : option UsedTail.handle :=
  match ops with
  | [] => Some rb
  | o :: ops' =>
      match exec wake o rb with
      | Some rb' => run wake ops' rb'
      | None => None
      end
  end.

(** A buffer of [HeadTail] whose [size] field is the length of its arena
    and whose cursors are inside it. *)
Definition ht_well_formed (s : HeadTail.ringbuffer) : Prop :=
  HeadTail.size s <= INT_MAX
  /\ len (HeadTail.data s) = HeadTail.size s
  /\ 0 <= HeadTail.head s < HeadTail.size s
  /\ 0 <= HeadTail.tail s < HeadTail.size s.

(** Concrete requests and buffers used in the examples. *)
Definition bytes12 : list Byte.byte := [Byte.x01; Byte.x02].
Definition bytes345 : list Byte.byte := [Byte.x03; Byte.x04; Byte.x05].
Definition bytes1234 : list Byte.byte := [Byte.x01; Byte.x02; Byte.x03; Byte.x04].

(** The buffer a successful [UsedTail.rb_init] creates in [env_ok]. *)
Definition fresh (cap : Z) : UsedTail.ringbuffer :=
  UsedTail.mkRb cap 0 0 0 (repeat Byte.x00 (Z.to_nat cap)).

(** A buffer of capacity 10 that holds the four bytes of [bytes1234]. *)
Definition s10 : UsedTail.ringbuffer := after_write (fresh 10) bytes1234.

(** An empty buffer of capacity 4 with [tail = 2], in a block that extends
    four bytes beyond the arena: what lies behind the arena in the heap
    belongs to the process too. *)
Definition s4_slack : UsedTail.ringbuffer :=
  UsedTail.mkRb 4 0 2 0
    ([Byte.x01; Byte.x02; Byte.x00; Byte.x00]
     ++ [Byte.xff; Byte.xff; Byte.xff; Byte.xff]).

(** A buffer of [HeadTail] of capacity 4 that holds two bytes. *)
Definition ht4 : HeadTail.ringbuffer :=
  HeadTail.mkRb 4 2 0 0 [Byte.x01; Byte.x02; Byte.x00; Byte.x00].

(** A sequence of calls that all return on a buffer of capacity 4. *)
Definition sample_ops : list op :=
  [WriteBlock 1 bytes12 2; ReadBlock 1 2; WriteNonblock 1 bytes12 2; Loose 5;
   ReadNonblock 2 2; Clear; WriteBlock 1 bytes1234 4].

(** A consumer that, whenever a writer waits, drains the whole buffer. *)
Definition wake_drain (s : UsedTail.ringbuffer) : option UsedTail.ringbuffer :=
  Some (after_read s (UsedTail.used s)).

(** The calls that move bytes or only look at the buffer. *)
Definition is_transfer (o : op) : bool :=
  match o with
  | Clear | ClearLost | Loose _ => false
  | _ => true
  end.

(** The unread bytes of a buffer of [HeadTail] whose bytes lie between
    [tail] and [head]. *)
Definition ht_contents (s : HeadTail.ringbuffer) : list Byte.byte :=
  slice (HeadTail.data s) (HeadTail.tail s) (HeadTail.head s - HeadTail.tail s).

(** The buffer of [HeadTail] after [bytes] were stored at [head], when they
    fit before the end of the arena. *)
Definition ht_after_write (s : HeadTail.ringbuffer) (bytes : list Byte.byte)
  : HeadTail.ringbuffer :=
  HeadTail.set_head
    (HeadTail.set_data s
       (firstn (Z.to_nat (HeadTail.head s)) (HeadTail.data s) ++ bytes
        ++ skipn (Z.to_nat (HeadTail.head s + len bytes)) (HeadTail.data s)))
    (HeadTail.head s + len bytes).

(** An empty buffer of [HeadTail] of capacity 8 with both cursors at 2. *)
Definition ht8 : HeadTail.ringbuffer :=
  HeadTail.mkRb 8 2 2 0 (repeat Byte.x00 8).

(** A buffer of [HeadTail] of capacity 4 whose bytes wrap: [tail = 3],
    [head = 1]. *)
Definition ht4_wrapped : HeadTail.ringbuffer :=
  HeadTail.mkRb 4 1 3 0 [Byte.x05; Byte.x02; Byte.x03; Byte.x04].

(** A buffer of [HeadTail] of capacity 4 with [tail = 3] and [head = 0]. *)
Definition ht4_head0 : HeadTail.ringbuffer :=
  HeadTail.mkRb 4 0 3 0 [Byte.x01; Byte.x02; Byte.x03; Byte.x04].

(** An environment in which the initialisation of [rd_cond] fails with
    [EAGAIN]. *)
Definition env_rd_cond_fails : env :=
  mkEnv false
        (fun p => match p with rd_cond => EAGAIN | _ => 0 end)
        7 Byte.x00.

(** The arena [d] read circularly from the cell [h]. *)
Definition ring_from (d : list Byte.byte) (h : Z) : list Byte.byte :=
  skipn (Z.to_nat h) d ++ firstn (Z.to_nat h) d.

(** No other thread touches the buffer between two passes. *)
Definition alone {St : Type} : St -> St := fun s => s.

(** Other threads that, between two passes, store [bytes345] when they
    find the buffer empty with both cursors at 2, as [ht8] is, and leave
    every other buffer alone. *)
Definition yield_writer (s : HeadTail.ringbuffer) : HeadTail.ringbuffer :=
  if (HeadTail.head s =? 2) && (HeadTail.tail s =? 2)
  then ht_after_write ht8 bytes345
  else s.

(** ** Machine integers *)

Lemma size_t_small (z : Z) : 0 <= z < 2 ^ 64 -> size_t z = z.
Proof. intros H. unfold size_t. now apply Z.mod_small. Qed.

Lemma size_t_range (z : Z) : 0 <= size_t z < 2 ^ 64.
Proof. unfold size_t. apply Z.mod_pos_bound. lia. Qed.

Lemma size_t_le (z : Z) : 0 <= z -> size_t z <= z.
Proof. intros H. unfold size_t. apply Z.mod_le; lia. Qed.

Lemma to_int_small (z : Z) : - 2 ^ 31 <= z < 2 ^ 31 -> to_int z = z.
Proof.
  intros H. unfold to_int.
  rewrite Z.mod_small by lia. lia.
Qed.

(** ** The lost counter *)

(** [rb_loose] of [UsedTail] accumulates: 5 then 3 give 8, [rb_clear_lost]
    returns the 8 and resets the counter, and [used], [tail] and the arena
    stay as they were. *)
Theorem UsedTail_rb_loose_accumulates (s : UsedTail.ringbuffer) :
  let h0 := Some (UsedTail.set_lost s 0) in
  let h1 := snd (UsedTail.rb_loose h0 5) in
  let h2 := snd (UsedTail.rb_loose h1 3) in
  fst (UsedTail.rb_loose h0 5) = 5
  /\ fst (UsedTail.rb_loose h1 3) = 8
  /\ UsedTail.rb_get_lost h2 = 8
  /\ UsedTail.rb_clear_lost h2 = (8, h0)
  /\ UsedTail.rb_get_lost (snd (UsedTail.rb_clear_lost h2)) = 0
  /\ h2 = Some (UsedTail.set_lost s 8).
Proof. cbn. repeat split. Qed.

(** [rb_loose] adds modulo [2^64] and touches only [lost]. *)
Lemma UsedTail_rb_loose_spec (s : UsedTail.ringbuffer) (n : Z) :
  UsedTail.rb_loose (Some s) n
  = (size_t (UsedTail.lost s + n),
     Some (UsedTail.set_lost s (size_t (UsedTail.lost s + n)))).
Proof. reflexivity. Qed.

(** C5 (the code departs from it): [rb_loose_data] of src/ringbuffer.c
    returns the sum of the counter and its argument but never stores it.
    After reporting 5 and then 3 lost bytes the second call returns 3, the
    counter read by [rb_get_lost] is still 0 and [rb_clear_lost] returns 0,
    where the property asks for 8. *)
Theorem C5_rb_loose_data_stores_nothing :
  let h0 := snd (fst (HeadTail.rb_init env_ok None 16)) in
  let h1 := snd (HeadTail.rb_loose_data h0 5) in
  let h2 := snd (HeadTail.rb_loose_data h1 3) in
  fst (HeadTail.rb_loose_data h0 5) = 5
  /\ fst (HeadTail.rb_loose_data h1 3) = 3
  /\ HeadTail.rb_get_lost h2 = 0
  /\ fst (HeadTail.rb_clear_lost h2) = 0
  /\ (forall (s : HeadTail.ringbuffer) (n : Z),
         snd (HeadTail.rb_loose_data (Some s) n) = Some s).
Proof. cbn. repeat split. Qed.

(** C10: with the pointer unset, [rb_get_lost], [rb_clear_lost] and
    [rb_loose] (and [rb_get_lost] of src/ringbuffer.c) return [EFAULT], a
    positive [size_t]; a live buffer whose counter is [EFAULT] makes the
    same calls return the same value, and such a buffer is reached by
    reporting [EFAULT] lost bytes on a fresh one. *)
Theorem C10_unset_handle_returns_EFAULT_as_count :
  UsedTail.rb_get_lost None = EFAULT
  /\ UsedTail.rb_clear_lost None = (EFAULT, None)
  /\ (forall n : Z, UsedTail.rb_loose None n = (EFAULT, None))
  /\ HeadTail.rb_get_lost None = EFAULT
  /\ 0 < EFAULT < 2 ^ 64
  /\ (forall s : UsedTail.ringbuffer,
         UsedTail.rb_get_lost (Some (UsedTail.set_lost s EFAULT))
         = UsedTail.rb_get_lost None)
  /\ (forall s : UsedTail.ringbuffer,
         fst (UsedTail.rb_clear_lost (Some (UsedTail.set_lost s EFAULT)))
         = fst (UsedTail.rb_clear_lost None))
  /\ (forall s : UsedTail.ringbuffer,
         fst (UsedTail.rb_loose (Some (UsedTail.set_lost s 0)) EFAULT)
         = fst (UsedTail.rb_loose None EFAULT))
  /\ (forall s : HeadTail.ringbuffer,
         HeadTail.rb_get_lost
           (Some (HeadTail.mkRb (HeadTail.size s) (HeadTail.head s)
                                (HeadTail.tail s) EFAULT (HeadTail.data s)))
         = HeadTail.rb_get_lost None)
  /\ UsedTail.rb_get_lost
       (snd (UsedTail.rb_loose (snd (fst (UsedTail.rb_init env_ok None 16)))
                               EFAULT))
     = UsedTail.rb_get_lost None.
Proof.
  repeat split; try reflexivity; unfold EFAULT; lia.
Qed.

(** ** Creation and destruction *)

(** [rb_destroy] of [UsedTail]: the first call on a live handle releases
    the primitives and the block once and unsets the pointer; the second
    call, like a call on a handle that was never set, returns [EFAULT] and
    releases nothing. *)
Theorem UsedTail_rb_destroy_twice (s : UsedTail.ringbuffer) :
  UsedTail.rb_destroy (Some s) = (0, None, destroy_events)
  /\ UsedTail.rb_destroy (snd (fst (UsedTail.rb_destroy (Some s))))
     = (EFAULT, None, [])
  /\ UsedTail.rb_destroy None = (EFAULT, None, []).
Proof. repeat split. Qed.

(** C7 (the code departs from it): the guard of [rb_destroy] in
    src/ringbuffer.c is inverted.  On the live handle that [rb_init] just
    produced it returns [EFAULT], releases nothing and leaves the pointer
    set (the test of the repository asserts 0 there); on a handle whose
    pointer is unset it does not return [EFAULT] but goes on to destroy
    the primitives behind the null pointer. *)
Theorem C7_src_rb_destroy_guard_inverted :
  (exists s : HeadTail.ringbuffer,
      HeadTail.rb_init env_ok None 1024
      = (0, Some s, EvMalloc 1024 :: map EvInit init_order)
      /\ HeadTail.rb_destroy (Some s) = Ok (EFAULT, Some s, []))
  /\ (forall s : HeadTail.ringbuffer,
         HeadTail.rb_destroy (Some s) = Ok (EFAULT, Some s, []))
  /\ HeadTail.rb_destroy None = Crash NullDeref.
Proof.
  split; [eexists; split; reflexivity | split; reflexivity].
Qed.

(** [rb_init] of src/ringbuffer.c refuses a handle whose pointer is set:
    it returns [EFAULT], allocates nothing and leaves the buffer as it
    is. *)
Theorem HeadTail_rb_init_refuses_live_handle
    (e : env) (s : HeadTail.ringbuffer) (sz : Z) :
  HeadTail.rb_init e (Some s) sz = (EFAULT, Some s, []).
Proof. reflexivity. Qed.

(** C8 (the code departs from it): [rb_init] of [UsedTail] does not look
    at the pointer it is given.  Called on a live handle it returns 0,
    allocates a second block, initialises the primitives again and
    replaces the buffer by an empty one; the first block is never
    freed. *)
Theorem C8_rb_init_overwrites_live_handle :
  forall (s : UsedTail.ringbuffer) (sz : Z),
    UsedTail.rb_init env_ok (Some s) sz
    = (0, Some (fresh sz), EvMalloc sz :: map EvInit init_order)
    /\ frees (snd (UsedTail.rb_init env_ok (Some s) sz)) = 0%nat
    /\ (exists h1 : UsedTail.handle,
           UsedTail.rb_write_block single_threaded 1
             (snd (fst (UsedTail.rb_init env_ok None 4))) bytes12 2
           = Returned (2, h1)
           /\ h1 <> snd (fst (UsedTail.rb_init env_ok None 4))
           /\ UsedTail.rb_init env_ok h1 4
              = (0, Some (fresh 4), EvMalloc 4 :: map EvInit init_order)).
Proof.
  intros s sz. split; [reflexivity | split; [reflexivity |]].
  eexists. split; [reflexivity | split; [discriminate | reflexivity]].
Qed.

(** ** Capacity 0 *)

(** C9 (the code departs from it): [rb_init] accepts the capacity 0.  On
    the buffer it creates the non-blocking calls report [E2BIG] for every
    request of at least one byte, but [rb_write_block] of one byte takes
    [(tail + used) % size] with [size = 0] in [_put], and [rb_read_block]
    reports nothing: it waits. *)
Theorem C9_zero_capacity_modulus_by_zero :
  let h0 := snd (fst (UsedTail.rb_init env_ok None 0)) in
  UsedTail.rb_init env_ok None 0
  = (0, Some (fresh 0), EvMalloc 0 :: map EvInit init_order)
  /\ (forall fuel : nat,
         UsedTail.rb_write_block single_threaded (S fuel) h0 [Byte.x01] 1
         = Crashed DivByZero)
  /\ (forall (src : list Byte.byte) (off co : Z),
         UsedTail._put (fresh 0) src off co = Crash DivByZero)
  /\ (forall fuel : nat,
         UsedTail.rb_read_block single_threaded (S fuel) h0 1
         = Blocked (fresh 0))
  /\ (forall (fuel : nat) (po : list Byte.byte) (co : positive),
         UsedTail.rb_write_nonblock fuel h0 po (Z.pos co)
         = Returned (- E2BIG, h0))
  /\ (forall (fuel : nat) (co : positive),
         UsedTail.rb_read_nonblock fuel h0 (Z.pos co)
         = Returned (- E2BIG, [], h0)).
Proof.
  cbn. repeat split.
Qed.

(** ** Round trip *)

(** C1 (the code departs from it): on a buffer of capacity 4, write two
    bytes and read them back: the buffer is empty with [tail = 2].  A
    blocking write of three bytes, which has to wrap, makes [_put] copy all
    three bytes to [data + 2], one byte beyond the arena: the branch of
    [_put] that splits the copy is guarded by [new_head <= size] on a
    [new_head] already reduced modulo [size], and is never taken.  Where
    the memory behind the arena can be written ([s4_slack]), the write
    returns 3, the third byte lies outside the arena, and the read returns
    the first two bytes followed by the old content of [data[0]]. *)
Theorem C1_wrapping_write_overruns_arena :
  let h0 := snd (fst (UsedTail.rb_init env_ok None 4)) in
  exists s1 s2 s3 s4 : UsedTail.ringbuffer,
    UsedTail.rb_write_block single_threaded 1 h0 bytes12 2
    = Returned (2, Some s1)
    /\ UsedTail.rb_read_block single_threaded 1 (Some s1) 2
       = Returned (2, bytes12, Some s2)
    /\ UsedTail.used s2 = 0
    /\ UsedTail.tail s2 = 2
    /\ len bytes345 <= UsedTail.size s2
    /\ (forall fuel : nat,
           UsedTail.rb_write_block single_threaded (S fuel) (Some s2) bytes345 3
           = Crashed OutOfBounds)
    /\ (forall fuel : nat,
           UsedTail.rb_write_nonblock (S fuel) (Some s2) bytes345 3
           = Crashed OutOfBounds)
    /\ UsedTail.rb_write_block single_threaded 1 (Some s4_slack) bytes345 3
       = Returned (3, Some s3)
    /\ UsedTail.rb_read_block single_threaded 3 (Some s3) 3
       = Returned (3, [Byte.x03; Byte.x04; Byte.x01], Some s4)
    /\ [Byte.x03; Byte.x04; Byte.x01] <> bytes345.
Proof.
  cbn. do 4 eexists.
  repeat (split; [reflexivity || (cbn; lia) |]). discriminate.
Qed.

(** ** The invariants *)

Lemma rb_inv_fresh (cap : Z) : 0 <= cap < 2 ^ 64 -> rb_inv (fresh cap).
Proof. intros H. unfold rb_inv, fresh; cbn. lia. Qed.

Lemma put_inv (s s' : UsedTail.ringbuffer) (src : list Byte.byte)
    (off co n : Z) :
  rb_inv s -> 0 <= co ->
  UsedTail._put s src off co = Ok (n, s') ->
  rb_inv s' /\ 0 <= n <= co.
Proof.
  intros (Hsz & Hu & Ht) Hco. unfold UsedTail._put.
  destruct (Z.eqb_spec (UsedTail.size s) 0) as [E | E]; [discriminate |].
  pose proof (size_t_le (UsedTail.size s - UsedTail.used s) ltac:(lia)) as Hf.
  pose proof (size_t_range (UsedTail.size s - UsedTail.used s)) as Hf'.
  set (fr := size_t (UsedTail.size s - UsedTail.used s)) in *.
  set (c := if co >? fr then fr else co).
  assert (Hc : 0 <= c <= fr /\ c <= co).
  { subst c. destruct (Z.gtb_spec co fr); lia. }
  assert (Hu' : size_t (UsedTail.used s + c) = UsedTail.used s + c)
    by (apply size_t_small; lia).
  destruct (_ <=? _).
  - destruct (memcpy _ _ _ _ _); cbn; [| discriminate].
    intros [= <- <-]. unfold rb_inv; cbn. rewrite Hu'. lia.
  - destruct (memcpy _ _ _ _ _); cbn; [| discriminate].
    destruct (memcpy _ _ _ _ _); cbn; [| discriminate].
    intros [= <- <-]. unfold rb_inv; cbn. rewrite Hu'. lia.
Qed.

Lemma get_inv (s s' : UsedTail.ringbuffer) (co n : Z) (b : list Byte.byte) :
  rb_inv s -> 0 <= co ->
  UsedTail._get s co = Ok (n, b, s') ->
  rb_inv s' /\ 0 <= n <= co.
Proof.
  intros (Hsz & Hu & Ht) Hco. unfold UsedTail._get.
  set (c := if co >? UsedTail.used s then UsedTail.used s else co).
  assert (Hc : 0 <= c <= UsedTail.used s /\ c <= co).
  { subst c. destruct (Z.gtb_spec co (UsedTail.used s)); lia. }
  destruct (Z.eqb_spec c 0) as [E0 | E0].
  { intros [= <- <- <-]. unfold rb_inv. lia. }
  destruct (Z.eqb_spec (UsedTail.size s) 0) as [E | E]; [discriminate |].
  pose proof (Z.mod_pos_bound (size_t (UsedTail.tail s + c)) (UsedTail.size s)
                ltac:(lia)) as Hm.
  destruct (Z.gtb_spec (size_t (UsedTail.tail s + c) mod UsedTail.size s)
                       (UsedTail.tail s)) as [Hgt | Hle].
  - destruct (load _ _ _); cbn; [| discriminate].
    intros [= <- <- <-]. unfold rb_inv; cbn.
    rewrite (size_t_small (UsedTail.used s - c)) by lia. lia.
  - assert (Hwrap : UsedTail.size s <= UsedTail.tail s + c).
    { destruct (Z_lt_le_dec (UsedTail.tail s + c) (UsedTail.size s)) as [L | L];
        [| exact L].
      rewrite size_t_small in Hle by lia.
      rewrite Z.mod_small in Hle by lia. lia. }
    rewrite (size_t_small (UsedTail.size s - UsedTail.tail s)) by lia.
    destruct (load _ _ _); cbn; [| discriminate].
    intros [= <- <- <-]. unfold rb_inv; cbn.
    rewrite size_t_small by lia. lia.
Qed.

Section Invariants.

Variable wake : UsedTail.ringbuffer -> option UsedTail.ringbuffer.

(** What the other threads do while the caller waits keeps the
    invariants. *)
Hypothesis wake_inv :
  forall s s' : UsedTail.ringbuffer, rb_inv s -> wake s = Some s' -> rb_inv s'.

Lemma write_block_loop_inv (fuel : nat) :
  forall (s : UsedTail.ringbuffer) (src : list Byte.byte) (off co written r : Z)
         (s' : UsedTail.ringbuffer),
    rb_inv s -> 0 <= co ->
    UsedTail.write_block_loop wake fuel s src off co written = Returned (r, s') ->
    rb_inv s'.
Proof.
  induction fuel as [| fuel IH]; intros s src off co written r s' Hs Hco; cbn.
  - destruct (co >? 0); [discriminate | now intros [= _ <-]].
  - destruct (co >? 0); [| now intros [= _ <-]].
    destruct (UsedTail._put s src off co) as [[n s1] |] eqn:Hput; [| discriminate].
    destruct (put_inv _ _ _ _ _ _ Hs Hco Hput) as [Hs1 _].
    pose proof (size_t_range (co - to_int n)) as Hr.
    destruct (_ >? 0).
    + destruct (wake s1) as [s2 |] eqn:Hw; [| discriminate].
      apply IH; [eapply wake_inv; eassumption | lia].
    + apply IH; [assumption | lia].
Qed.

Lemma read_block_loop_inv (fuel : nat) :
  forall (s : UsedTail.ringbuffer) (co got r : Z) (out out' : list Byte.byte)
         (s' : UsedTail.ringbuffer),
    rb_inv s -> 0 <= co ->
    UsedTail.read_block_loop wake fuel s co got out = Returned (r, out', s') ->
    rb_inv s'.
Proof.
  induction fuel as [| fuel IH]; intros s co got r out out' s' Hs Hco; cbn.
  - destruct (co >? 0); [discriminate | now intros [= _ _ <-]].
  - destruct (co >? 0); [| now intros [= _ _ <-]].
    destruct (UsedTail._get s co) as [[[n b] s1] |] eqn:Hget; [| discriminate].
    destruct (get_inv _ _ _ _ _ Hs Hco Hget) as [Hs1 _].
    pose proof (size_t_range (co - to_int n)) as Hr.
    destruct (to_int n =? 0).
    + destruct (got =? 0).
      * destruct (wake s1) as [s2 |] eqn:Hw; [| discriminate].
        apply IH; [eapply wake_inv; eassumption | assumption].
      * now intros [= _ _ <-].
    + apply IH; [assumption | lia].
Qed.

End Invariants.

Lemma write_nonblock_loop_inv (fuel : nat) :
  forall (s : UsedTail.ringbuffer) (src : list Byte.byte) (off co written r : Z)
         (s' : UsedTail.ringbuffer),
    rb_inv s -> 0 <= co ->
    UsedTail.write_nonblock_loop fuel s src off co written = Returned (r, s') ->
    rb_inv s'.
Proof.
  induction fuel as [| fuel IH]; intros s src off co written r s' Hs Hco; cbn.
  - destruct (co >? 0); [discriminate | now intros [= _ <-]].
  - destruct (co >? 0); [| now intros [= _ <-]].
    destruct (UsedTail._put s src off co) as [[n s1] |] eqn:Hput; [| discriminate].
    destruct (put_inv _ _ _ _ _ _ Hs Hco Hput) as [Hs1 _].
    pose proof (size_t_range (co - to_int n)) as Hr.
    apply IH; [assumption | lia].
Qed.

Lemma read_nonblock_loop_inv (fuel : nat) :
  forall (s : UsedTail.ringbuffer) (co got r : Z) (out out' : list Byte.byte)
         (s' : UsedTail.ringbuffer),
    rb_inv s -> 0 <= co ->
    UsedTail.read_nonblock_loop fuel s co got out = Returned (r, out', s') ->
    rb_inv s'.
Proof.
  induction fuel as [| fuel IH]; intros s co got r out out' s' Hs Hco; cbn.
  - destruct (co >? 0); [discriminate | now intros [= _ _ <-]].
  - destruct (co >? 0); [| now intros [= _ _ <-]].
    destruct (UsedTail._get s co) as [[[n b] s1] |] eqn:Hget; [| discriminate].
    destruct (get_inv _ _ _ _ _ Hs Hco Hget) as [Hs1 _].
    pose proof (size_t_range (co - to_int n)) as Hr.
    apply IH; [assumption | lia].
Qed.

Lemma exec_inv (wake : UsedTail.ringbuffer -> option UsedTail.ringbuffer)
    (o : op) (h h' : UsedTail.handle) :
  (forall s s', rb_inv s -> wake s = Some s' -> rb_inv s') ->
  live_inv h -> exec wake o h = Some h' -> live_inv h'.
Proof.
  intros Hw (s & -> & Hs).
  destruct o as [fuel po co | fuel po co | fuel co | fuel co | | | | | | | n];
    cbn; try (intros [= <-]; exists s; now split).
  - pose proof (size_t_range co) as Hr.
    destruct (size_t co =? 0); cbn; [intros [= <-]; exists s; now split |].
    destruct (UsedTail.write_block_loop _ _ _ _ _ _ _) as [[r s'] | | |] eqn:E;
      cbn; try discriminate.
    intros [= <-]. exists s'. split; [reflexivity |].
    eapply write_block_loop_inv; try eassumption. lia.
  - pose proof (size_t_range co) as Hr.
    destruct (_ >? _); cbn; [intros [= <-]; exists s; now split |].
    destruct (_ <=? _); cbn; [| intros [= <-]; exists s; now split].
    destruct (UsedTail.write_nonblock_loop _ _ _ _ _ _) as [[r s'] | | |] eqn:E;
      cbn; try discriminate.
    intros [= <-]. exists s'. split; [reflexivity |].
    eapply write_nonblock_loop_inv; try eassumption. lia.
  - pose proof (size_t_range co) as Hr.
    destruct (UsedTail.read_block_loop _ _ _ _ _ _) as [[[r out] s'] | | |] eqn:E;
      cbn; try discriminate.
    intros [= <-]. exists s'. split; [reflexivity |].
    eapply read_block_loop_inv; try eassumption. lia.
  - pose proof (size_t_range co) as Hr.
    destruct (_ >? _); cbn; [intros [= <-]; exists s; now split |].
    destruct (_ <=? _); cbn; [| intros [= <-]; exists s; now split].
    destruct (UsedTail.read_nonblock_loop _ _ _ _ _) as [[[r out] s'] | | |] eqn:E;
      cbn; try discriminate.
    intros [= <-]. exists s'. split; [reflexivity |].
    eapply read_nonblock_loop_inv; try eassumption. lia.
  - intros [= <-]. eexists. split; [reflexivity |].
    destruct Hs as (H1 & H2 & H3). unfold rb_inv; cbn. lia.
  - intros [= <-]. eexists. split; [reflexivity |]. exact Hs.
  - intros [= <-]. eexists. split; [reflexivity |]. exact Hs.
Qed.

Lemma run_inv (wake : UsedTail.ringbuffer -> option UsedTail.ringbuffer)
    (ops : list op) :
  (forall s s', rb_inv s -> wake s = Some s' -> rb_inv s') ->
  forall h h' : UsedTail.handle,
    live_inv h -> run wake ops h = Some h' -> live_inv h'.
Proof.
  intros Hw. induction ops as [| o ops IH]; intros h h' Hh; cbn.
  - now intros [= <-].
  - destruct (exec wake o h) as [h1 |] eqn:E; [| discriminate].
    apply IH. eapply exec_inv; eassumption.
Qed.

Lemma rb_init_success (e : env) (h0 : UsedTail.handle) (cap : Z) :
  fst (fst (UsedTail.rb_init e h0 cap)) = 0 ->
  exists s : UsedTail.ringbuffer,
    snd (fst (UsedTail.rb_init e h0 cap)) = Some s
    /\ UsedTail.size s = cap /\ UsedTail.used s = 0
    /\ UsedTail.tail s = 0 /\ UsedTail.lost s = 0.
Proof.
  unfold UsedTail.rb_init.
  destruct (malloc_fails e); [cbn; discriminate |].
  destruct (init_prims e init_order []) as [erc evs].
  destruct (Z.eqb_spec erc 0) as [E | E]; cbn.
  - intros _. eexists. split; [reflexivity |]. cbn. repeat split.
  - intros H. contradiction.
Qed.

(** C4 (as stated, it fails): [rb_init] accepts the capacity 0 and returns
    0; the buffer it creates has [tail = 0 = size], so [tail < capacity]
    does not hold after the call returned. *)
Lemma C4_counterexample_capacity_zero :
  exists s : UsedTail.ringbuffer,
    UsedTail.rb_init env_ok None 0
    = (0, Some s, EvMalloc 0 :: map EvInit init_order)
    /\ 0 <= UsedTail.used s <= UsedTail.size s
    /\ ~ (0 <= UsedTail.tail s < UsedTail.size s).
Proof.
  eexists. split; [reflexivity |]. cbn. lia.
Qed.

(** C4 (amended): after a successful [rb_init] with any capacity, and
    after every call of every sequence of calls that returns, also when
    callers were parked in [_cond_wait] and other threads, which keep the
    invariants, changed the buffer meanwhile: [0 <= used <= size], and
    [0 <= tail < size], or [tail = 0] when [size = 0]. *)
Theorem C4_invariants_after_every_call :
  forall (wake : UsedTail.ringbuffer -> option UsedTail.ringbuffer)
         (e : env) (h0 : UsedTail.handle) (cap : Z) (ops : list op)
         (h : UsedTail.handle),
    (forall s s', rb_inv s -> wake s = Some s' -> rb_inv s') ->
    0 <= cap < 2 ^ 64 ->
    fst (fst (UsedTail.rb_init e h0 cap)) = 0 ->
    run wake ops (snd (fst (UsedTail.rb_init e h0 cap))) = Some h ->
    exists s : UsedTail.ringbuffer,
      h = Some s
      /\ 0 <= UsedTail.used s <= UsedTail.size s
      /\ (0 <= UsedTail.tail s < UsedTail.size s
          \/ (UsedTail.size s = 0 /\ UsedTail.tail s = 0)).
Proof.
  intros wake e h0 cap ops h Hw Hcap Hok Hrun.
  destruct (rb_init_success e h0 cap Hok) as (s0 & E & Hsz & Hu & Ht & _).
  rewrite E in Hrun.
  assert (H0 : live_inv (Some s0)).
  { exists s0. split; [reflexivity |]. unfold rb_inv. lia. }
  destruct (run_inv wake ops Hw _ _ H0 Hrun) as (s & -> & _ & Hus & Hts).
  exists s. auto.
Qed.

(** The theorem of C4 on [sample_ops], run single-threaded on a buffer of
    capacity 4. *)
Lemma C4_invariants_after_every_call_witness :
  0 <= 4 < 2 ^ 64
  /\ fst (fst (UsedTail.rb_init env_ok None 4)) = 0
  /\ run single_threaded sample_ops (snd (fst (UsedTail.rb_init env_ok None 4)))
     = Some (Some (UsedTail.mkRb 4 4 0 0 bytes1234))
  /\ exists s : UsedTail.ringbuffer,
      Some (UsedTail.mkRb 4 4 0 0 bytes1234) = Some s
      /\ 0 <= UsedTail.used s <= UsedTail.size s
      /\ (0 <= UsedTail.tail s < UsedTail.size s
          \/ (UsedTail.size s = 0 /\ UsedTail.tail s = 0)).
Proof.
  split; [lia |]. split; [reflexivity |]. split; [reflexivity |].
  apply (C4_invariants_after_every_call single_threaded env_ok None 4
           sample_ops (Some (UsedTail.mkRb 4 4 0 0 bytes1234))).
  - intros s s' _ H. discriminate H.
  - lia.
  - reflexivity.
  - reflexivity.
Defined.

(** ** Lists and memory blocks *)

Lemma len_nonneg {A : Type} (l : list A) : 0 <= len l.
Proof. unfold len. lia. Qed.

Lemma firstn_prefix {A : Type} (n : nat) (a b : list A) :
  (n <= length a)%nat -> firstn n (a ++ b) = firstn n a.
Proof.
  intros H. rewrite firstn_app.
  replace (n - length a)%nat with O by lia.
  cbn. apply app_nil_r.
Qed.

Lemma firstn_add {A : Type} (a b : nat) (l : list A) :
  firstn (a + b) l = firstn a l ++ firstn b (skipn a l).
Proof.
  revert l. induction a as [| a IH]; intros l; cbn; [reflexivity |].
  destruct l as [| x l]; cbn.
  - now rewrite firstn_nil.
  - now rewrite IH.
Qed.

Lemma len_slice (l : list Byte.byte) (off n : Z) :
  0 <= off -> 0 <= n -> off + n <= len l -> len (slice l off n) = n.
Proof.
  unfold len, slice. intros H1 H2 H3.
  rewrite length_firstn, length_skipn. lia.
Qed.

Lemma load_ok (src : list Byte.byte) (off n : Z) :
  0 <= off -> 0 <= n -> off + n <= len src ->
  load src off n = Ok (slice src off n).
Proof.
  intros H1 H2 H3. unfold load.
  destruct (Z.leb_spec 0 off); [| lia].
  destruct (Z.leb_spec 0 n); [| lia].
  destruct (Z.leb_spec (off + n) (len src)); [reflexivity | lia].
Qed.

Lemma load_overrun (src : list Byte.byte) (off n : Z) :
  len src < off + n -> load src off n = Crash OutOfBounds.
Proof.
  intros H. unfold load.
  destruct (Z.leb_spec (off + n) (len src)); [lia |].
  now rewrite andb_false_r.
Qed.

Lemma store_ok (dst : list Byte.byte) (off : Z) (bytes : list Byte.byte) :
  0 <= off -> off + len bytes <= len dst ->
  store dst off bytes
  = Ok (firstn (Z.to_nat off) dst ++ bytes
        ++ skipn (Z.to_nat (off + len bytes)) dst).
Proof.
  intros H1 H2. unfold store.
  destruct (Z.leb_spec 0 off); [| lia].
  destruct (Z.leb_spec (off + len bytes) (len dst)); [reflexivity | lia].
Qed.

Lemma store_overrun (dst : list Byte.byte) (off : Z) (bytes : list Byte.byte) :
  len dst < off + len bytes -> store dst off bytes = Crash OutOfBounds.
Proof.
  intros H. unfold store.
  destruct (Z.leb_spec (off + len bytes) (len dst)); [lia |].
  now rewrite andb_false_r.
Qed.

Lemma clamp_min (co m : Z) : (if co >? m then m else co) = Z.min co m.
Proof. destruct (Z.gtb_spec co m); lia. Qed.

(** ** Reading from a well-formed buffer *)

Lemma after_read_zero (s : UsedTail.ringbuffer) :
  well_formed s -> after_read s 0 = s.
Proof.
  intros (_ & _ & _ & Ht). destruct s as [sz u t l d]; cbn in *.
  unfold after_read, UsedTail.set_used, UsedTail.set_tail; cbn.
  f_equal; try lia.
  rewrite Z.add_0_r.
  destruct Ht as [Ht | [-> ->]]; [now apply Z.mod_small | reflexivity].
Qed.

Lemma after_read_after_read (s : UsedTail.ringbuffer) (a b : Z) :
  UsedTail.size s <> 0 ->
  after_read (after_read s a) b = after_read s (a + b).
Proof.
  intros H. unfold after_read, UsedTail.set_used, UsedTail.set_tail; cbn.
  f_equal; try lia.
  rewrite Z.add_mod_idemp_l by exact H. f_equal. lia.
Qed.

Lemma after_read_well_formed (s : UsedTail.ringbuffer) (k : Z) :
  well_formed s -> 0 <= k <= UsedTail.used s -> well_formed (after_read s k).
Proof.
  intros (Hsz & Hlen & Hu & Ht) Hk. unfold well_formed, after_read; cbn.
  split; [exact Hsz |]. split; [exact Hlen |]. split; [lia |].
  destruct Ht as [Ht | [E Et]].
  - left. apply Z.mod_pos_bound. lia.
  - right. split; [exact E |]. rewrite E. rewrite Z.mod_0_r. lia.
Qed.

(** One call of [_get] on a buffer that holds bytes copies the bytes up
    to the end of the arena, or all that was asked for. *)
Lemma get_step (s : UsedTail.ringbuffer) (co : Z) :
  well_formed s -> 0 < Z.min co (UsedTail.used s) ->
  let k := Z.min (Z.min co (UsedTail.used s))
                 (UsedTail.size s - UsedTail.tail s) in
  UsedTail._get s co
  = Ok (k, slice (UsedTail.data s) (UsedTail.tail s) k, after_read s k).
Proof.
  intros (Hsz & Hlen & Hu & Ht) Hc k. unfold UsedTail._get.
  rewrite clamp_min. set (c := Z.min co (UsedTail.used s)) in *.
  unfold INT_MAX in Hsz.
  destruct (Z.eqb_spec c 0) as [E0 | _]; [lia |].
  destruct (Z.eqb_spec (UsedTail.size s) 0) as [E | E]; [lia |].
  destruct Ht as [Ht | Ht]; [| lia].
  rewrite (size_t_small (UsedTail.tail s + c)) by lia.
  destruct (Z_lt_le_dec (UsedTail.tail s + c) (UsedTail.size s)) as [L | L].
  - rewrite (Z.mod_small (UsedTail.tail s + c)) by lia.
    destruct (Z.gtb_spec (UsedTail.tail s + c) (UsedTail.tail s)); [| lia].
    assert (Ek : k = c) by (subst k; lia). rewrite Ek.
    rewrite load_ok by lia. cbn.
    rewrite size_t_small by lia.
    unfold after_read. rewrite (Z.mod_small (UsedTail.tail s + c)) by lia.
    reflexivity.
  - assert (Ek : k = UsedTail.size s - UsedTail.tail s) by (subst k; lia).
    assert (Em : (UsedTail.tail s + c) mod UsedTail.size s
                 = UsedTail.tail s + c - UsedTail.size s).
    { symmetry. apply (Z.mod_unique_pos _ _ 1); lia. }
    rewrite Em.
    destruct (Z.gtb_spec (UsedTail.tail s + c - UsedTail.size s)
                         (UsedTail.tail s)); [lia |].
    rewrite (size_t_small (UsedTail.size s - UsedTail.tail s)) by lia.
    rewrite Ek. rewrite load_ok by lia. cbn.
    rewrite size_t_small by lia.
    unfold after_read.
    replace (UsedTail.tail s + (UsedTail.size s - UsedTail.tail s))
      with (UsedTail.size s) by lia.
    rewrite Z_mod_same_full. reflexivity.
Qed.

(** With nothing to read, [_get] returns 0 and changes nothing. *)
Lemma get_nothing (s : UsedTail.ringbuffer) (co : Z) :
  Z.min co (UsedTail.used s) = 0 -> UsedTail._get s co = Ok (0, [], s).
Proof.
  intros H. unfold UsedTail._get. rewrite clamp_min, H. reflexivity.
Qed.

Lemma slices_contents (s : UsedTail.ringbuffer) (c k : Z) :
  well_formed s -> 0 <= c <= UsedTail.used s ->
  k = Z.min c (UsedTail.size s - UsedTail.tail s) ->
  slice (UsedTail.data s) (UsedTail.tail s) k
  ++ slice (UsedTail.data s) 0 (c - k)
  = firstn (Z.to_nat c) (contents s).
Proof.
  intros (Hsz & Hlen & Hu & Ht) Hc Hk.
  unfold contents, rotated, slice, len in *.
  rewrite firstn_firstn.
  replace (Nat.min (Z.to_nat c) (Z.to_nat (UsedTail.used s)))
    with (Z.to_nat c) by lia.
  set (d := UsedTail.data s) in *. set (t := UsedTail.tail s) in *.
  assert (Hls : length (skipn (Z.to_nat t) d)
                = (length d - Z.to_nat t)%nat) by apply length_skipn.
  destruct (Z_le_gt_dec c (UsedTail.size s - t)) as [L | L].
  - assert (E : k = c) by lia. rewrite E.
    replace (c - c) with 0 by lia. cbn [Z.to_nat firstn].
    rewrite app_nil_r. symmetry. apply firstn_prefix. lia.
  - assert (E : k = UsedTail.size s - t) by lia.
    rewrite firstn_app, Hls.
    rewrite (firstn_all2 (n := Z.to_nat k)) by lia.
    rewrite (firstn_all2 (n := Z.to_nat c) (skipn (Z.to_nat t) d)) by lia.
    f_equal. cbn [Z.to_nat skipn].
    rewrite firstn_firstn. f_equal. lia.
Qed.

Section ReadBlock.

Variable wake : UsedTail.ringbuffer -> option UsedTail.ringbuffer.

Lemma read_block_step (fuel : nat) (s : UsedTail.ringbuffer)
    (co got k : Z) (out : list Byte.byte) :
  well_formed s -> 0 < Z.min co (UsedTail.used s) -> co < 2 ^ 64 ->
  0 <= got -> got + UsedTail.used s <= INT_MAX ->
  k = Z.min (Z.min co (UsedTail.used s)) (UsedTail.size s - UsedTail.tail s) ->
  UsedTail.read_block_loop wake (S fuel) s co got out
  = UsedTail.read_block_loop wake fuel (after_read s k) (co - k) (got + k)
      (out ++ slice (UsedTail.data s) (UsedTail.tail s) k).
Proof.
  intros Hwf Hc Hco Hgot Hmax Hk.
  pose proof Hwf as (Hsz & Hlen & Hu & Ht). unfold INT_MAX in *.
  cbn [UsedTail.read_block_loop].
  destruct (Z.gtb_spec co 0); [| lia].
  rewrite get_step by assumption. cbv zeta. rewrite <- Hk.
  assert (Hk' : 0 < k <= UsedTail.used s) by lia.
  rewrite (to_int_small k) by lia.
  destruct (Z.eqb_spec k 0); [lia |].
  rewrite (size_t_small (co - k)) by lia.
  rewrite (to_int_small (got + k)) by lia.
  reflexivity.
Qed.

(** Once something was delivered, a call that finds nothing more returns
    at once: it does not consult the environment. *)
Lemma read_block_finish (fuel : nat) (s : UsedTail.ringbuffer)
    (co got : Z) (out : list Byte.byte) :
  0 <= co -> 0 <= UsedTail.used s -> Z.min co (UsedTail.used s) = 0 ->
  got <> 0 ->
  UsedTail.read_block_loop wake (S fuel) s co got out = Returned (got, out, s).
Proof.
  intros Hco Hu Hmin Hgot. cbn [UsedTail.read_block_loop].
  destruct (Z.gtb_spec co 0); [| reflexivity].
  rewrite get_nothing by assumption. cbn.
  destruct (Z.eqb_spec got 0); [contradiction | reflexivity].
Qed.

Lemma read_block_loop_delivers (fuel : nat) (s : UsedTail.ringbuffer)
    (co got : Z) (out : list Byte.byte) :
  well_formed s -> 0 < co < 2 ^ 64 ->
  0 <= got -> got + UsedTail.used s <= INT_MAX ->
  got <> 0 \/ 0 < UsedTail.used s ->
  UsedTail.read_block_loop wake (3 + fuel) s co got out
  = Returned (got + Z.min co (UsedTail.used s),
              out ++ firstn (Z.to_nat (Z.min co (UsedTail.used s))) (contents s),
              after_read s (Z.min co (UsedTail.used s))).
Proof.
  intros Hwf Hco Hgot Hmax Hsome.
  pose proof Hwf as (Hsz & Hlen & Hu & Ht).
  set (c := Z.min co (UsedTail.used s)).
  destruct (Z.eq_dec c 0) as [E0 | N0].
  { rewrite E0. change (3 + fuel)%nat with (S (2 + fuel)).
    rewrite read_block_finish by (fold c; lia).
    cbn [Z.to_nat firstn]. rewrite app_nil_r, Z.add_0_r.
    now rewrite after_read_zero. }
  set (k := Z.min c (UsedTail.size s - UsedTail.tail s)).
  assert (Hsize : UsedTail.size s <> 0) by lia.
  destruct Ht as [Ht | Ht]; [| lia].
  change (3 + fuel)%nat with (S (S (S fuel))).
  rewrite (read_block_step _ s co got k) by (fold c; lia || assumption).
  pose proof (after_read_well_formed s k Hwf ltac:(lia)) as Hwf1.
  rewrite <- (slices_contents s c k Hwf ltac:(lia) eq_refl).
  destruct (Z.eq_dec k c) as [Ek | Nk].
  - rewrite read_block_finish; cbn [after_read UsedTail.used UsedTail.set_used];
      try lia.
    rewrite Ek. replace (c - c) with 0 by lia.
    cbn [slice Z.to_nat firstn]. now rewrite app_nil_r.
  - assert (Ek : k = UsedTail.size s - UsedTail.tail s) by lia.
    assert (Et1 : UsedTail.tail (after_read s k) = 0).
    { cbn. rewrite Ek.
      replace (UsedTail.tail s + (UsedTail.size s - UsedTail.tail s))
        with (UsedTail.size s) by lia.
      apply Z_mod_same_full. }
    cbn in Et1.
    rewrite (read_block_step _ (after_read s k) (co - k) (got + k) (c - k));
      try assumption; cbn [after_read UsedTail.used UsedTail.set_used
                            UsedTail.size UsedTail.set_tail UsedTail.tail
                            UsedTail.data];
      try lia.
    rewrite read_block_finish;
      cbn [after_read UsedTail.used UsedTail.set_used
             UsedTail.size UsedTail.set_tail UsedTail.tail UsedTail.data];
      try lia.
    change (UsedTail.set_used
              (UsedTail.set_tail s ((UsedTail.tail s + k) mod UsedTail.size s))
              (UsedTail.used s - k)) with (after_read s k).
    rewrite after_read_after_read by assumption.
    rewrite Et1.
    replace (k + (c - k)) with c by lia.
    replace (got + k + (c - k)) with (got + c) by lia.
    now rewrite <- app_assoc.
Qed.

End ReadBlock.

Lemma read_nonblock_step (fuel : nat) (s : UsedTail.ringbuffer)
    (co got k : Z) (out : list Byte.byte) :
  well_formed s -> 0 < Z.min co (UsedTail.used s) -> co < 2 ^ 64 ->
  0 <= got -> got + UsedTail.used s <= INT_MAX ->
  k = Z.min (Z.min co (UsedTail.used s)) (UsedTail.size s - UsedTail.tail s) ->
  UsedTail.read_nonblock_loop (S fuel) s co got out
  = UsedTail.read_nonblock_loop fuel (after_read s k) (co - k) (got + k)
      (out ++ slice (UsedTail.data s) (UsedTail.tail s) k).
Proof.
  intros Hwf Hc Hco Hgot Hmax Hk.
  pose proof Hwf as (Hsz & Hlen & Hu & Ht). unfold INT_MAX in *.
  cbn [UsedTail.read_nonblock_loop].
  destruct (Z.gtb_spec co 0); [| lia].
  rewrite get_step by assumption. cbv zeta. rewrite <- Hk.
  assert (Hk' : 0 < k <= UsedTail.used s) by lia.
  rewrite (to_int_small k) by lia.
  rewrite (size_t_small (co - k)) by lia.
  rewrite (size_t_small (got + k)) by lia.
  reflexivity.
Qed.

Lemma read_nonblock_done (fuel : nat) (s : UsedTail.ringbuffer)
    (got : Z) (out : list Byte.byte) :
  UsedTail.read_nonblock_loop fuel s 0 got out = Returned (got, out, s).
Proof. destruct fuel; reflexivity. Qed.

Lemma read_nonblock_loop_delivers (fuel : nat) (s : UsedTail.ringbuffer)
    (co got : Z) (out : list Byte.byte) :
  well_formed s -> 0 <= co <= UsedTail.used s ->
  0 <= got -> got + UsedTail.used s <= INT_MAX ->
  UsedTail.read_nonblock_loop (2 + fuel) s co got out
  = Returned (got + co, out ++ firstn (Z.to_nat co) (contents s),
              after_read s co).
Proof.
  intros Hwf Hco Hgot Hmax.
  pose proof Hwf as (Hsz & Hlen & Hu & Ht). unfold INT_MAX in *.
  destruct (Z.eq_dec co 0) as [E0 | N0].
  { rewrite E0, read_nonblock_done.
    cbn [Z.to_nat firstn]. rewrite app_nil_r, Z.add_0_r.
    now rewrite after_read_zero. }
  assert (Hc : Z.min co (UsedTail.used s) = co) by lia.
  set (k := Z.min co (UsedTail.size s - UsedTail.tail s)).
  assert (Hsize : UsedTail.size s <> 0) by lia.
  destruct Ht as [Ht | Ht]; [| lia].
  change (2 + fuel)%nat with (S (S fuel)).
  rewrite (read_nonblock_step _ s co got k)
    by (rewrite ?Hc; unfold INT_MAX; lia || assumption).
  pose proof (after_read_well_formed s k Hwf ltac:(lia)) as Hwf1.
  rewrite <- (slices_contents s co k Hwf ltac:(lia) eq_refl).
  destruct (Z.eq_dec k co) as [Ek | Nk].
  - rewrite Ek. replace (co - co) with 0 by lia.
    rewrite read_nonblock_done.
    cbn [slice Z.to_nat firstn]. now rewrite app_nil_r.
  - assert (Ek : k = UsedTail.size s - UsedTail.tail s) by lia.
    assert (Et1 : (UsedTail.tail s + k) mod UsedTail.size s = 0).
    { rewrite Ek.
      replace (UsedTail.tail s + (UsedTail.size s - UsedTail.tail s))
        with (UsedTail.size s) by lia.
      apply Z_mod_same_full. }
    rewrite (read_nonblock_step _ (after_read s k) (co - k) (got + k) (co - k));
      try assumption; unfold INT_MAX;
      cbn [after_read UsedTail.used UsedTail.set_used
             UsedTail.size UsedTail.set_tail UsedTail.tail UsedTail.data];
      try lia.
    replace (co - k - (co - k)) with 0 by lia.
    rewrite read_nonblock_done.
    change (UsedTail.set_used
              (UsedTail.set_tail s ((UsedTail.tail s + k) mod UsedTail.size s))
              (UsedTail.used s - k)) with (after_read s k).
    rewrite after_read_after_read by assumption.
    rewrite Et1.
    replace (k + (co - k)) with co by lia.
    replace (got + k + (co - k)) with (got + co) by lia.
    now rewrite <- app_assoc.
Qed.

(** [rb_read_nonblock] on a well-formed buffer. *)
Lemma rb_read_nonblock_spec (fuel : nat) (s : UsedTail.ringbuffer) (co : Z) :
  well_formed s -> 0 <= co ->
  (UsedTail.size s < co ->
   UsedTail.rb_read_nonblock fuel (Some s) co
   = Returned (- E2BIG, [], Some s))
  /\ (UsedTail.used s < co <= UsedTail.size s ->
      UsedTail.rb_read_nonblock fuel (Some s) co
      = Returned (- EAGAIN, [], Some s))
  /\ (co <= UsedTail.used s ->
      UsedTail.rb_read_nonblock (2 + fuel) (Some s) co
      = Returned (co, firstn (Z.to_nat co) (contents s),
                  Some (after_read s co))).
Proof.
  intros Hwf Hco. pose proof Hwf as (Hsz & Hlen & Hu & Ht).
  unfold UsedTail.rb_read_nonblock, UsedTail._used.
  split; [| split]; intros H.
  - destruct (Z.gtb_spec co (UsedTail.size s)); [reflexivity | lia].
  - destruct (Z.gtb_spec co (UsedTail.size s)); [lia |].
    destruct (Z.leb_spec co (UsedTail.used s)); [lia | reflexivity].
  - destruct (Z.gtb_spec co (UsedTail.size s)); [lia |].
    destruct (Z.leb_spec co (UsedTail.used s)); [| lia].
    rewrite read_nonblock_loop_delivers by (assumption || lia).
    unfold INT_MAX in Hsz. rewrite Z.add_0_l, to_int_small by lia.
    reflexivity.
Qed.

(** [rb_read_block] on a well-formed buffer that holds bytes: it returns
    what is there, up to [co] bytes, whatever the environment. *)
Lemma rb_read_block_spec
    (wake : UsedTail.ringbuffer -> option UsedTail.ringbuffer)
    (fuel : nat) (s : UsedTail.ringbuffer) (co : Z) :
  well_formed s -> 0 < UsedTail.used s -> 0 < co < 2 ^ 64 ->
  UsedTail.rb_read_block wake (3 + fuel) (Some s) co
  = Returned (Z.min co (UsedTail.used s),
              firstn (Z.to_nat (Z.min co (UsedTail.used s))) (contents s),
              Some (after_read s (Z.min co (UsedTail.used s)))).
Proof.
  intros Hwf Hu Hco. pose proof Hwf as (Hsz & _ & Hu' & _).
  unfold UsedTail.rb_read_block.
  rewrite read_block_loop_delivers by (assumption || lia).
  reflexivity.
Qed.

(** On an empty buffer [rb_read_block] waits; woken with the buffer [s],
    it goes on as a call on [s]. *)
Lemma rb_read_block_woken
    (wake : UsedTail.ringbuffer -> option UsedTail.ringbuffer)
    (fuel : nat) (e s : UsedTail.ringbuffer) (co : Z) :
  UsedTail.used e = 0 -> 0 < co -> wake e = Some s ->
  UsedTail.rb_read_block wake (S fuel) (Some e) co
  = UsedTail.rb_read_block wake fuel (Some s) co.
Proof.
  intros He Hco Hw. unfold UsedTail.rb_read_block.
  cbn [UsedTail.read_block_loop].
  destruct (Z.gtb_spec co 0); [| lia].
  rewrite get_nothing by lia. cbn. rewrite Hw. reflexivity.
Qed.

Lemma rb_read_block_empty_blocks (fuel : nat) (e : UsedTail.ringbuffer) (co : Z) :
  UsedTail.used e = 0 -> 0 < co ->
  UsedTail.rb_read_block single_threaded (S fuel) (Some e) co = Blocked e.
Proof.
  intros He Hco. unfold UsedTail.rb_read_block.
  cbn [UsedTail.read_block_loop].
  destruct (Z.gtb_spec co 0); [| lia].
  rewrite get_nothing by lia. reflexivity.
Qed.

(** ** Writing to a well-formed buffer *)

Lemma firstn_exact {A : Type} (n : nat) (a b : list A) :
  length a = n -> firstn n (a ++ b) = a.
Proof.
  intros H. rewrite firstn_prefix by lia. apply firstn_all2. lia.
Qed.

(** Storing [b] at [h], the position [u] places after [t] in a ring of
    [length d] cells, appends [b] to the [u] cells read from [t]. *)
Lemma ring_append (d b : list Byte.byte) (t u h : nat) :
  (t < length d)%nat -> (u + length b <= length d)%nat ->
  (h + length b <= length d)%nat ->
  (h = t + u)%nat \/ (h + length d = t + u)%nat ->
  let d' := firstn h d ++ b ++ skipn (h + length b) d in
  firstn (u + length b) (skipn t d' ++ firstn t d')
  = firstn u (skipn t d ++ firstn t d) ++ b.
Proof.
  intros Ht Hu Hh [E | E] d'; subst d'.
  - assert (EA : skipn t (firstn h d) = firstn u (skipn t d)).
    { rewrite firstn_skipn_comm. now rewrite E. }
    rewrite skipn_app, length_firstn.
    replace (t - Nat.min h (length d))%nat with O by lia.
    cbn [skipn]. rewrite EA.
    rewrite (firstn_prefix u (skipn t d)) by (rewrite length_skipn; lia).
    rewrite <- !app_assoc. rewrite firstn_add.
    rewrite firstn_exact by (rewrite length_firstn, length_skipn; lia).
    f_equal.
    rewrite skipn_app. rewrite skipn_all2
      by (rewrite length_firstn, length_skipn; lia).
    rewrite length_firstn, length_skipn.
    replace (u - Nat.min u (length d - t))%nat with O by lia.
    cbn [skipn app]. now apply firstn_exact.
  - assert (E1 : skipn t (firstn h d ++ b ++ skipn (h + length b) d)
                 = skipn t d).
    { rewrite app_assoc, skipn_app.
      rewrite skipn_all2 by (rewrite length_app, length_firstn; lia).
      rewrite length_app, length_firstn, skipn_skipn. cbn [app].
      f_equal. lia. }
    rewrite E1.
    rewrite (firstn_app u), length_skipn.
    rewrite (firstn_all2 (n := u) (skipn t d)) by (rewrite length_skipn; lia).
    rewrite firstn_firstn.
    replace (Nat.min (u - (length d - t)) t) with h by lia.
    rewrite <- app_assoc.
    rewrite (firstn_app (u + length b)), length_skipn.
    rewrite (firstn_all2 (n := u + length b) (skipn t d))
      by (rewrite length_skipn; lia).
    f_equal.
    rewrite firstn_firstn.
    replace (Nat.min (u + length b - (length d - t)) t)
      with (h + length b)%nat by lia.
    rewrite app_assoc. apply firstn_exact.
    rewrite length_app, length_firstn. lia.
Qed.

Lemma head_of_cases (s : UsedTail.ringbuffer) :
  well_formed s -> 0 < UsedTail.size s ->
  0 <= head_of s < UsedTail.size s
  /\ (head_of s = UsedTail.tail s + UsedTail.used s
      \/ head_of s + UsedTail.size s = UsedTail.tail s + UsedTail.used s).
Proof.
  intros (Hsz & Hlen & Hu & Ht) Hpos. unfold head_of.
  destruct Ht as [Ht | Ht]; [| lia].
  destruct (Z_lt_le_dec (UsedTail.tail s + UsedTail.used s) (UsedTail.size s)).
  - rewrite Z.mod_small by lia. lia.
  - rewrite <- (Z.mod_unique_pos (UsedTail.tail s + UsedTail.used s)
                 (UsedTail.size s) 1
                 (UsedTail.tail s + UsedTail.used s - UsedTail.size s));
      lia.
Qed.

Lemma contents_after_write (s : UsedTail.ringbuffer) (b : list Byte.byte) :
  well_formed s -> 0 < UsedTail.size s ->
  len b <= UsedTail.size s - UsedTail.used s ->
  head_of s + len b <= UsedTail.size s ->
  contents (after_write s b) = contents s ++ b.
Proof.
  intros Hwf Hpos Hb Hh.
  destruct (head_of_cases s Hwf Hpos) as [Hr Hc].
  destruct Hwf as (Hsz & Hlen & Hu & Ht).
  destruct Ht as [Ht | Ht]; [| lia].
  unfold contents, rotated, after_write, len in *.
  cbn [UsedTail.used UsedTail.tail UsedTail.data UsedTail.set_used
       UsedTail.set_data].
  replace (Z.to_nat (UsedTail.used s + Z.of_nat (length b)))
    with (Z.to_nat (UsedTail.used s) + length b)%nat by lia.
  replace (Z.to_nat (head_of s + Z.of_nat (length b)))
    with (Z.to_nat (head_of s) + length b)%nat by lia.
  apply ring_append; lia.
Qed.

Lemma after_write_well_formed (s : UsedTail.ringbuffer) (b : list Byte.byte) :
  well_formed s -> 0 < UsedTail.size s ->
  len b <= UsedTail.size s - UsedTail.used s ->
  head_of s + len b <= UsedTail.size s ->
  well_formed (after_write s b).
Proof.
  intros Hwf Hpos Hb Hh.
  destruct (head_of_cases s Hwf Hpos) as [Hr _].
  destruct Hwf as (Hsz & Hlen & Hu & Ht).
  pose proof (len_nonneg b) as Hb0.
  unfold well_formed, after_write, len in *.
  cbn [UsedTail.used UsedTail.tail UsedTail.data UsedTail.set_used
       UsedTail.set_data UsedTail.size].
  split; [exact Hsz |]. split; [| split; [lia | exact Ht]].
  rewrite !length_app, length_firstn, length_skipn. lia.
Qed.

(** [_put] when the bytes it takes fit between the write position and the
    end of the arena. *)
Lemma put_fits (s : UsedTail.ringbuffer) (src : list Byte.byte) (off co : Z) :
  well_formed s -> 0 < UsedTail.size s -> 0 <= co ->
  let c := Z.min co (UsedTail.size s - UsedTail.used s) in
  head_of s + c <= UsedTail.size s ->
  0 <= off -> off + c <= len src ->
  UsedTail._put s src off co = Ok (c, after_write s (slice src off c)).
Proof.
  intros Hwf Hpos Hco c Hh Hoff Hsrc.
  destruct (head_of_cases s Hwf Hpos) as [Hr _].
  destruct Hwf as (Hsz & Hlen & Hu & Ht). unfold INT_MAX in Hsz.
  destruct Ht as [Ht | Ht]; [| lia].
  unfold UsedTail._put.
  destruct (Z.eqb_spec (UsedTail.size s) 0); [lia |].
  rewrite (size_t_small (UsedTail.size s - UsedTail.used s)) by lia.
  rewrite clamp_min. fold c.
  rewrite (size_t_small (UsedTail.tail s + UsedTail.used s)) by lia.
  fold (head_of s).
  assert (Hc : 0 <= c) by (subst c; lia).
  rewrite (size_t_small (head_of s + c)) by lia.
  pose proof (Z.mod_pos_bound (head_of s + c) (UsedTail.size s) Hpos) as Hm.
  destruct (Z.leb_spec ((head_of s + c) mod UsedTail.size s) (UsedTail.size s));
    [| lia].
  unfold memcpy. rewrite load_ok by lia. cbn [bind].
  pose proof (len_slice src off c Hoff Hc Hsrc) as Hl.
  rewrite store_ok by lia. cbn [bind].
  rewrite (size_t_small (UsedTail.used s + c)) by lia.
  unfold after_write. rewrite Hl. reflexivity.
Qed.

(** [_put] when the bytes it takes do not fit before the end of the arena:
    the single [memcpy] runs past the arena. *)
Lemma put_overrun (s : UsedTail.ringbuffer) (src : list Byte.byte) (off co : Z) :
  well_formed s -> 0 < UsedTail.size s -> 0 <= co ->
  let c := Z.min co (UsedTail.size s - UsedTail.used s) in
  UsedTail.size s < head_of s + c ->
  0 <= off -> off + c <= len src ->
  UsedTail._put s src off co = Crash OutOfBounds.
Proof.
  intros Hwf Hpos Hco c Hh Hoff Hsrc.
  destruct (head_of_cases s Hwf Hpos) as [Hr _].
  destruct Hwf as (Hsz & Hlen & Hu & Ht). unfold INT_MAX in Hsz.
  destruct Ht as [Ht | Ht]; [| lia].
  unfold UsedTail._put.
  destruct (Z.eqb_spec (UsedTail.size s) 0); [lia |].
  rewrite (size_t_small (UsedTail.size s - UsedTail.used s)) by lia.
  rewrite clamp_min. fold c.
  rewrite (size_t_small (UsedTail.tail s + UsedTail.used s)) by lia.
  fold (head_of s).
  assert (Hc : 0 <= c) by (subst c; lia).
  rewrite (size_t_small (head_of s + c)) by lia.
  pose proof (Z.mod_pos_bound (head_of s + c) (UsedTail.size s) Hpos) as Hm.
  destruct (Z.leb_spec ((head_of s + c) mod UsedTail.size s) (UsedTail.size s));
    [| lia].
  unfold memcpy. rewrite load_ok by lia. cbn [bind].
  pose proof (len_slice src off c Hoff Hc Hsrc) as Hl.
  rewrite store_overrun by lia. reflexivity.
Qed.

Lemma slice_all (l : list Byte.byte) : slice l 0 (len l) = l.
Proof.
  unfold slice, len. cbn [Z.to_nat skipn].
  rewrite Nat2Z.id. apply firstn_all.
Qed.

Lemma write_nonblock_done (fuel : nat) (s : UsedTail.ringbuffer)
    (src : list Byte.byte) (off written : Z) :
  UsedTail.write_nonblock_loop fuel s src off 0 written = Returned (written, s).
Proof. destruct fuel; reflexivity. Qed.

Lemma write_block_done
    (wake : UsedTail.ringbuffer -> option UsedTail.ringbuffer)
    (fuel : nat) (s : UsedTail.ringbuffer)
    (src : list Byte.byte) (off written : Z) :
  UsedTail.write_block_loop wake fuel s src off 0 written = Returned (written, s).
Proof. destruct fuel; reflexivity. Qed.

(** [rb_write_nonblock] on a well-formed buffer, for a request [po] of
    [co] bytes. *)
Lemma rb_write_nonblock_spec (fuel : nat) (s : UsedTail.ringbuffer)
    (po : list Byte.byte) (co : Z) :
  well_formed s -> co = len po ->
  (UsedTail.size s < co ->
   UsedTail.rb_write_nonblock fuel (Some s) po co = Returned (- E2BIG, Some s))
  /\ (UsedTail.size s - UsedTail.used s < co <= UsedTail.size s ->
      UsedTail.rb_write_nonblock fuel (Some s) po co
      = Returned (- ENOMEM, Some s))
  /\ (co = 0 ->
      UsedTail.rb_write_nonblock fuel (Some s) po co = Returned (0, Some s))
  /\ (0 < co <= UsedTail.size s - UsedTail.used s ->
      head_of s + co <= UsedTail.size s ->
      UsedTail.rb_write_nonblock (1 + fuel) (Some s) po co
      = Returned (co, Some (after_write s po)))
  /\ (0 < co <= UsedTail.size s - UsedTail.used s ->
      UsedTail.size s < head_of s + co ->
      UsedTail.rb_write_nonblock (1 + fuel) (Some s) po co
      = Crashed OutOfBounds).
Proof.
  intros Hwf Hlen. pose proof Hwf as (Hsz & Hd & Hu & Ht).
  pose proof (len_nonneg po) as Hpo. unfold INT_MAX in Hsz.
  unfold UsedTail.rb_write_nonblock, UsedTail._free.
  rewrite (size_t_small (UsedTail.size s - UsedTail.used s)) by lia.
  split; [| split; [| split; [| split]]].
  - intros H. destruct (Z.gtb_spec co (UsedTail.size s)); [reflexivity | lia].
  - intros H. destruct (Z.gtb_spec co (UsedTail.size s)); [lia |].
    destruct (Z.leb_spec co (UsedTail.size s - UsedTail.used s));
      [lia | reflexivity].
  - intros H. destruct (Z.gtb_spec co (UsedTail.size s)); [lia |].
    destruct (Z.leb_spec co (UsedTail.size s - UsedTail.used s)); [| lia].
    rewrite H, write_nonblock_done. reflexivity.
  - intros H Hh. destruct (Z.gtb_spec co (UsedTail.size s)); [lia |].
    destruct (Z.leb_spec co (UsedTail.size s - UsedTail.used s)); [| lia].
    cbn [Nat.add UsedTail.write_nonblock_loop].
    destruct (Z.gtb_spec co 0); [| lia].
    rewrite put_fits by (assumption || lia).
    replace (Z.min co (UsedTail.size s - UsedTail.used s)) with co by lia.
    rewrite (to_int_small co) by lia.
    replace (co - co) with 0 by lia.
    rewrite (size_t_small 0) by lia. rewrite write_nonblock_done.
    rewrite (size_t_small (0 + co)) by lia.
    rewrite Z.add_0_l, (to_int_small co) by lia.
    rewrite Hlen, slice_all. reflexivity.
  - intros H Hh. destruct (Z.gtb_spec co (UsedTail.size s)); [lia |].
    destruct (Z.leb_spec co (UsedTail.size s - UsedTail.used s)); [| lia].
    cbn [Nat.add UsedTail.write_nonblock_loop].
    destruct (Z.gtb_spec co 0); [| lia].
    rewrite put_overrun by (assumption || lia). reflexivity.
Qed.

Section WriteBlock.

Variable wake : UsedTail.ringbuffer -> option UsedTail.ringbuffer.

(** [rb_write_block] of a request that fits in the free space and before
    the end of the arena: one pass, no wait. *)
Lemma rb_write_block_fits (fuel : nat) (s : UsedTail.ringbuffer)
    (po : list Byte.byte) :
  well_formed s -> 0 < len po <= UsedTail.size s - UsedTail.used s ->
  head_of s + len po <= UsedTail.size s ->
  UsedTail.rb_write_block wake (1 + fuel) (Some s) po (len po)
  = Returned (len po, Some (after_write s po)).
Proof.
  intros Hwf Hco Hh. pose proof Hwf as (Hsz & Hd & Hu & Ht).
  unfold INT_MAX in Hsz. set (co := len po) in *.
  unfold UsedTail.rb_write_block.
  destruct (Z.eqb_spec co 0); [lia |].
  cbn [Nat.add UsedTail.write_block_loop].
  destruct (Z.gtb_spec co 0); [| lia].
  rewrite put_fits by (assumption || lia).
  replace (Z.min co (UsedTail.size s - UsedTail.used s)) with co by lia.
  rewrite (to_int_small co) by lia.
  replace (co - co) with 0 by lia.
  rewrite (size_t_small 0) by lia. cbn [Z.gtb Z.compare].
  rewrite write_block_done.
  rewrite Z.add_0_l, (to_int_small co) by lia.
  subst co. rewrite slice_all. reflexivity.
Qed.

(** [rb_write_block] of a request whose first pass has to wrap: [_put]
    runs past the arena. *)
Lemma rb_write_block_overrun (fuel : nat) (s : UsedTail.ringbuffer)
    (po : list Byte.byte) :
  well_formed s -> 0 < UsedTail.size s -> 0 < len po ->
  UsedTail.size s
  < head_of s + Z.min (len po) (UsedTail.size s - UsedTail.used s) ->
  UsedTail.rb_write_block wake (1 + fuel) (Some s) po (len po)
  = Crashed OutOfBounds.
Proof.
  intros Hwf Hpos Hco Hh.
  unfold UsedTail.rb_write_block.
  destruct (Z.eqb_spec (len po) 0); [lia |].
  cbn [Nat.add UsedTail.write_block_loop].
  destruct (Z.gtb_spec (len po) 0); [| lia].
  rewrite put_overrun by (assumption || lia). reflexivity.
Qed.

(** X22: round trip without wrapping: on an empty well-formed buffer, a
    blocking write of bytes that fit before the end of the arena followed
    by a blocking read of as many bytes returns them. *)
Theorem round_trip_without_wrap (fuel fuel' : nat) (s : UsedTail.ringbuffer)
    (B : list Byte.byte) :
  well_formed s -> UsedTail.used s = 0 ->
  0 < len B -> UsedTail.tail s + len B <= UsedTail.size s ->
  UsedTail.rb_write_block wake (1 + fuel) (Some s) B (len B)
  = Returned (len B, Some (after_write s B))
  /\ UsedTail.rb_read_block wake (3 + fuel') (Some (after_write s B)) (len B)
     = Returned (len B, B, Some (after_read (after_write s B) (len B))).
Proof.
  intros Hwf Hu HB Hfit. pose proof Hwf as (Hsz & Hd & _ & Ht).
  unfold INT_MAX in Hsz.
  assert (Hpos : 0 < UsedTail.size s) by lia.
  destruct (head_of_cases s Hwf Hpos) as [Hr Hc].
  assert (Hh : head_of s = UsedTail.tail s) by lia.
  assert (Hwf1 : well_formed (after_write s B))
    by (apply after_write_well_formed; assumption || lia).
  split.
  - apply rb_write_block_fits; assumption || lia.
  - rewrite rb_read_block_spec; try assumption;
      cbn [after_write UsedTail.used UsedTail.set_used]; try lia.
    replace (Z.min (len B) (UsedTail.used s + len B)) with (len B) by lia.
    change (UsedTail.set_used _ _) with (after_write s B).
    rewrite contents_after_write by (assumption || lia).
    unfold contents at 1. rewrite Hu. cbn [Z.to_nat firstn app].
    unfold len. rewrite Nat2Z.id, firstn_all. reflexivity.
Qed.

End WriteBlock.

(** ** The transfer functions of src/ringbuffer.c *)

Lemma len_store (dst bytes d : list Byte.byte) (off : Z) :
  store dst off bytes = Ok d -> len d = len dst.
Proof.
  unfold store.
  destruct (Z.leb_spec 0 off); cbn [andb]; [| discriminate].
  destruct (Z.leb_spec (off + len bytes) (len dst)); [| discriminate].
  intros [= <-]. pose proof (len_nonneg bytes). unfold len in *.
  rewrite !length_app, length_firstn, length_skipn. lia.
Qed.

Lemma ht_avail_range (s : HeadTail.ringbuffer) :
  ht_well_formed s -> 0 < HeadTail._avail s <= HeadTail.size s.
Proof.
  intros (Hsz & Hlen & Hh & Ht). unfold INT_MAX in Hsz.
  unfold HeadTail._avail.
  destruct (Z.leb_spec (HeadTail.tail s) (HeadTail.head s)).
  - rewrite (size_t_small (HeadTail.head s - HeadTail.tail s)) by lia.
    rewrite size_t_small by lia. lia.
  - rewrite size_t_small by lia. lia.
Qed.

(** [_put] of [HeadTail] splits the copy at the end of the arena. *)
Lemma ht_put_ok (s : HeadTail.ringbuffer) (src : list Byte.byte) (off c : Z) :
  ht_well_formed s -> 0 < c <= HeadTail.size s ->
  0 <= off -> off + c <= len src ->
  exists d : list Byte.byte,
    HeadTail._put s src off c
    = Ok (HeadTail.set_head (HeadTail.set_data s d)
            ((HeadTail.head s + c) mod HeadTail.size s))
    /\ len d = HeadTail.size s.
Proof.
  intros (Hsz & Hlen & Hh & Ht) Hc Hoff Hsrc. unfold INT_MAX in Hsz.
  unfold HeadTail._put.
  rewrite (size_t_small (HeadTail.head s + c)) by lia.
  destruct (Z.ltb_spec (HeadTail.head s + c) (HeadTail.size s)) as [L | L].
  - unfold memcpy. rewrite load_ok by lia. cbn [bind].
    pose proof (len_slice src off c Hoff ltac:(lia) Hsrc) as Hl.
    destruct (store (HeadTail.data s) (HeadTail.head s) (slice src off c))
      as [d |] eqn:E; [| rewrite store_ok in E by lia; discriminate].
    cbn [bind]. exists d. rewrite Z.mod_small by lia.
    split; [reflexivity |]. rewrite (len_store _ _ _ _ E). exact Hlen.
  - set (i := HeadTail.size s - HeadTail.head s).
    rewrite (size_t_small i) by (subst i; lia).
    rewrite (size_t_small (HeadTail.head s + c - HeadTail.size s)) by lia.
    unfold memcpy. rewrite load_ok by (subst i; lia). cbn [bind].
    pose proof (len_slice src off i Hoff ltac:(subst i; lia)
                  ltac:(subst i; lia)) as Hl.
    destruct (store (HeadTail.data s) (HeadTail.head s) (slice src off i))
      as [d1 |] eqn:E1;
      [| rewrite store_ok in E1 by (subst i; lia); discriminate].
    cbn [bind]. pose proof (len_store _ _ _ _ E1) as Hl1.
    rewrite load_ok by (subst i; lia). cbn [bind].
    pose proof (len_slice src (off + i)
                  (HeadTail.head s + c - HeadTail.size s)
                  ltac:(subst i; lia) ltac:(lia) ltac:(subst i; lia)) as Hl2.
    destruct (store d1 0 (slice src (off + i)
                            (HeadTail.head s + c - HeadTail.size s)))
      as [d2 |] eqn:E2; [| rewrite store_ok in E2 by lia; discriminate].
    cbn [bind]. exists d2.
    rewrite <- (Z.mod_unique_pos (HeadTail.head s + c) (HeadTail.size s) 1
                  (HeadTail.head s + c - HeadTail.size s)) by lia.
    split; [reflexivity |]. rewrite (len_store _ _ _ _ E2). lia.
Qed.

(** [rb_write_asy] never refuses a request: it takes as many bytes as
    [_avail] allows and returns their number. *)
Lemma rb_write_asy_clamps (s : HeadTail.ringbuffer)
    (po : list Byte.byte) (co : Z) :
  ht_well_formed s -> co = len po ->
  exists s' : HeadTail.ringbuffer,
    HeadTail.rb_write_asy (Some s) po co
    = Ok (Z.min co (HeadTail._avail s), Some s')
    /\ HeadTail.head s'
       = (HeadTail.head s + Z.min co (HeadTail._avail s)) mod HeadTail.size s
    /\ HeadTail.tail s' = HeadTail.tail s
    /\ HeadTail.size s' = HeadTail.size s
    /\ len (HeadTail.data s') = HeadTail.size s.
Proof.
  intros Hwf Hlen. pose proof (ht_avail_range s Hwf) as Ha.
  pose proof Hwf as (Hsz & Hd & Hh & Ht). unfold INT_MAX in Hsz.
  pose proof (len_nonneg po) as Hpo.
  unfold HeadTail.rb_write_asy, HeadTail._rb_write.
  rewrite clamp_min. set (c := Z.min co (HeadTail._avail s)).
  assert (Hc : 0 <= c <= HeadTail.size s) by (subst c; lia).
  rewrite (to_int_small c) by lia.
  destruct (Z.gtb_spec c 0) as [Hpos | Hzero].
  - destruct (ht_put_ok s po 0 c Hwf ltac:(lia) ltac:(lia) ltac:(subst c; lia))
      as (d & E & Hld).
    rewrite E. cbn [bind fst snd]. eexists. split; [reflexivity |].
    cbn. auto.
  - cbn [bind fst snd]. exists s. split; [reflexivity |].
    assert (E0 : c = 0) by lia. rewrite E0, Z.add_0_r.
    rewrite Z.mod_small by lia. auto.
Qed.

(** [rb_read_asy] on a buffer whose bytes lie between [tail] and [head]:
    it never refuses a request either; it delivers what is there, up to
    [co] bytes. *)
Lemma rb_read_asy_clamps (fuel : nat) (s : HeadTail.ringbuffer) (co : Z) :
  ht_well_formed s -> HeadTail.tail s < HeadTail.head s -> 0 < co < 2 ^ 64 ->
  let c := Z.min co (HeadTail.head s - HeadTail.tail s) in
  HeadTail.rb_read_asy (1 + fuel) (Some s) co
  = Returned (HeadTail.head s - HeadTail.tail s,
              slice (HeadTail.data s) (HeadTail.tail s) c,
              Some (HeadTail.set_tail s (HeadTail.tail s + c))).
Proof.
  intros (Hsz & Hlen & Hh & Ht) Hne Hco c. unfold INT_MAX in Hsz.
  unfold HeadTail.rb_read_asy, HeadTail._rb_read, HeadTail._length.
  destruct (Z.leb_spec (HeadTail.tail s) (HeadTail.head s)); [| lia].
  rewrite (size_t_small (HeadTail.head s - HeadTail.tail s)) by lia.
  rewrite clamp_min. fold c.
  assert (Hc : 0 < c <= HeadTail.head s - HeadTail.tail s) by (subst c; lia).
  cbn [Nat.add HeadTail.rb_read_loop].
  destruct (Z.gtb_spec c 0); [| lia].
  unfold HeadTail._get.
  destruct (Z.leb_spec (HeadTail.tail s) (HeadTail.head s)); [| lia].
  rewrite (size_t_small (HeadTail.head s - HeadTail.tail s)) by lia.
  rewrite clamp_min.
  replace (Z.min c (HeadTail.head s - HeadTail.tail s)) with c by lia.
  rewrite load_ok by lia. cbn [bind].
  rewrite (size_t_small (HeadTail.tail s + c)) by lia.
  replace (c - c) with 0 by lia. rewrite (size_t_small 0) by lia.
  rewrite (to_int_small (HeadTail.head s - HeadTail.tail s)) by lia.
  destruct fuel; reflexivity.
Qed.

(** The arena read round from position [h], after [b] was stored at [h]
    without reaching the end: [b], then what was there behind it. *)
Lemma ring_store_flat {A : Type} (d b : list A) (h : nat) :
  (h + length b <= length d)%nat ->
  skipn h (firstn h d ++ b ++ skipn (h + length b) d)
  ++ firstn h (firstn h d ++ b ++ skipn (h + length b) d)
  = b ++ skipn (length b) (skipn h d ++ firstn h d).
Proof.
  intros H.
  assert (Hf : length (firstn h d) = h) by (rewrite length_firstn; lia).
  rewrite skipn_app, Hf, Nat.sub_diag. cbn [skipn].
  rewrite (skipn_all2 (firstn h d)) by lia. cbn [app].
  rewrite firstn_app, Hf, Nat.sub_diag. cbn [firstn].
  rewrite app_nil_r, firstn_firstn, Nat.min_id.
  rewrite (skipn_app (length b)), length_skipn.
  replace (length b - (length d - h))%nat with O by lia. cbn [skipn].
  rewrite skipn_skipn, (Nat.add_comm (length b) h), <- app_assoc.
  reflexivity.
Qed.

(** The same when the store is split at the end of the arena: [b1] fills
    the arena from [h] to its end and [b2] goes to its start. *)
Lemma ring_store_split {A : Type} (d b1 b2 : list A) (h : nat) :
  (h + length b1 = length d)%nat -> (length b2 <= h)%nat ->
  let d1 := firstn h d ++ b1 ++ skipn (h + length b1) d in
  let d2 := firstn 0 d1 ++ b2 ++ skipn (0 + length b2) d1 in
  skipn h d2 ++ firstn h d2
  = (b1 ++ b2) ++ skipn (length b1 + length b2) (skipn h d ++ firstn h d).
Proof.
  intros H1 H2 d1 d2.
  assert (Hf : length (firstn h d) = h) by (rewrite length_firstn; lia).
  assert (E1 : d1 = firstn h d ++ b1).
  { subst d1. rewrite H1, skipn_all, app_nil_r. reflexivity. }
  assert (E2 : d2 = (b2 ++ skipn (length b2) (firstn h d)) ++ b1).
  { subst d2. cbn [firstn app Nat.add]. rewrite E1.
    rewrite skipn_app, Hf.
    replace (length b2 - h)%nat with O by lia. cbn [skipn].
    now rewrite app_assoc. }
  assert (Hl : length (b2 ++ skipn (length b2) (firstn h d)) = h).
  { rewrite length_app, length_skipn, Hf. lia. }
  rewrite E2.
  rewrite skipn_app, Hl, Nat.sub_diag. cbn [skipn].
  rewrite (skipn_all2 (b2 ++ skipn (length b2) (firstn h d))) by lia.
  cbn [app].
  rewrite firstn_app, Hl, Nat.sub_diag. cbn [firstn].
  rewrite app_nil_r, (firstn_all2 (b2 ++ _)) by lia.
  rewrite (skipn_app (length b1 + length b2)), length_skipn.
  rewrite (skipn_all2 (skipn h d)) by (rewrite length_skipn; lia).
  replace (length b1 + length b2 - (length d - h))%nat
    with (length b2) by lia.
  cbn [app]. now rewrite <- !app_assoc.
Qed.

Lemma slice_split (l : list Byte.byte) (off i c : Z) :
  0 <= off -> 0 <= i <= c ->
  slice l off i ++ slice l (off + i) (c - i) = slice l off c.
Proof.
  intros Ho Hi. unfold slice.
  replace (Z.to_nat c) with (Z.to_nat i + Z.to_nat (c - i))%nat by lia.
  rewrite firstn_add, skipn_skipn.
  replace (Z.to_nat i + Z.to_nat off)%nat with (Z.to_nat (off + i)) by lia.
  reflexivity.
Qed.

(** What [_put] of [HeadTail] leaves in the arena: read round from the old
    [head], the [c] bytes of the request, then what was there behind
    them. *)
Lemma ht_put_stores (s : HeadTail.ringbuffer) (src : list Byte.byte)
    (off c : Z) :
  ht_well_formed s -> 0 < c <= HeadTail.size s ->
  0 <= off -> off + c <= len src ->
  exists d : list Byte.byte,
    HeadTail._put s src off c
    = Ok (HeadTail.set_head (HeadTail.set_data s d)
            ((HeadTail.head s + c) mod HeadTail.size s))
    /\ len d = HeadTail.size s
    /\ ring_from d (HeadTail.head s)
       = slice src off c
         ++ skipn (Z.to_nat c) (ring_from (HeadTail.data s) (HeadTail.head s)).
Proof.
  intros (Hsz & Hlen & Hh & Ht) Hc Hoff Hsrc. unfold INT_MAX in Hsz.
  unfold HeadTail._put.
  rewrite (size_t_small (HeadTail.head s + c)) by lia.
  destruct (Z.ltb_spec (HeadTail.head s + c) (HeadTail.size s)) as [L | L].
  - unfold memcpy. rewrite load_ok by lia. cbn [bind].
    pose proof (len_slice src off c Hoff ltac:(lia) Hsrc) as Hl.
    rewrite store_ok by lia. cbn [bind].
    eexists. rewrite Z.mod_small by lia.
    split; [reflexivity |]. split.
    + pose proof (len_store _ _ _ _ (store_ok (HeadTail.data s)
                    (HeadTail.head s) (slice src off c)
                    ltac:(lia) ltac:(lia))) as Hd.
      rewrite Hd. exact Hlen.
    + unfold ring_from.
      replace (Z.to_nat (HeadTail.head s + len (slice src off c)))
        with (Z.to_nat (HeadTail.head s) + length (slice src off c))%nat
        by (unfold len; lia).
      replace (Z.to_nat c) with (length (slice src off c))
        by (unfold len in Hl; lia).
      apply ring_store_flat. unfold len in *. lia.
  - set (i := HeadTail.size s - HeadTail.head s).
    rewrite (size_t_small i) by (subst i; lia).
    rewrite (size_t_small (HeadTail.head s + c - HeadTail.size s)) by lia.
    set (j := HeadTail.head s + c - HeadTail.size s).
    unfold memcpy. rewrite load_ok by (subst i; lia). cbn [bind].
    pose proof (len_slice src off i Hoff ltac:(subst i; lia)
                  ltac:(subst i; lia)) as Hl.
    pose proof (store_ok (HeadTail.data s) (HeadTail.head s)
                  (slice src off i) ltac:(lia) ltac:(subst i; lia)) as E1.
    rewrite E1. cbn [bind]. pose proof (len_store _ _ _ _ E1) as Hl1.
    rewrite load_ok by (subst i j; lia). cbn [bind].
    pose proof (len_slice src (off + i) j
                  ltac:(subst i; lia) ltac:(subst j; lia)
                  ltac:(subst i j; lia)) as Hl2.
    pose proof (store_ok _ 0 (slice src (off + i) j) ltac:(lia)
                  ltac:(rewrite Hl1; subst j; lia)) as E2.
    rewrite E2. cbn [bind]. pose proof (len_store _ _ _ _ E2) as Hl3.
    eexists.
    rewrite <- (Z.mod_unique_pos (HeadTail.head s + c) (HeadTail.size s) 1 j)
      by (subst j; lia).
    split; [reflexivity |]. split; [lia |].
    rewrite <- (slice_split src off i c) by (subst i; lia).
    replace (c - i) with j by (subst i j; lia).
    unfold ring_from.
    change (Z.to_nat 0) with O.
    replace (Z.to_nat (HeadTail.head s + len (slice src off i)))
      with (Z.to_nat (HeadTail.head s) + length (slice src off i))%nat
      by (unfold len; lia).
    replace (Z.to_nat (0 + len (slice src (off + i) j)))
      with (0 + length (slice src (off + i) j))%nat by (unfold len; lia).
    replace (Z.to_nat c)
      with (length (slice src off i) + length (slice src (off + i) j))%nat
      by (unfold len in *; subst i j; lia).
    apply ring_store_split; unfold len in *; subst i j; lia.
Qed.

(** [rb_write_asy] stores the first [min co _avail] bytes of the request
    at [head], going round the end of the arena, and changes nothing
    else. *)
Lemma rb_write_asy_stores (s : HeadTail.ringbuffer)
    (po : list Byte.byte) (co : Z) :
  ht_well_formed s -> co = len po ->
  let c := Z.min co (HeadTail._avail s) in
  exists d : list Byte.byte,
    HeadTail.rb_write_asy (Some s) po co
    = Ok (c, Some (HeadTail.mkRb (HeadTail.size s)
                     ((HeadTail.head s + c) mod HeadTail.size s)
                     (HeadTail.tail s) (HeadTail.lost s) d))
    /\ len d = HeadTail.size s
    /\ ring_from d (HeadTail.head s)
       = firstn (Z.to_nat c) po
         ++ skipn (Z.to_nat c) (ring_from (HeadTail.data s) (HeadTail.head s)).
Proof.
  intros Hwf Hlen c. pose proof (ht_avail_range s Hwf) as Ha.
  pose proof Hwf as (Hsz & Hd & Hh & Ht). unfold INT_MAX in Hsz.
  pose proof (len_nonneg po) as Hpo.
  unfold HeadTail.rb_write_asy, HeadTail._rb_write.
  rewrite clamp_min. fold c.
  assert (Hc : 0 <= c <= HeadTail.size s) by (subst c; lia).
  rewrite (to_int_small c) by lia.
  destruct (Z.gtb_spec c 0) as [Hpos | Hzero].
  - destruct (ht_put_stores s po 0 c Hwf ltac:(lia) ltac:(lia)
                ltac:(subst c; lia)) as (d & E & Hld & Hr).
    rewrite E. cbn [bind fst snd]. exists d.
    split; [reflexivity |]. split; [exact Hld |].
    rewrite Hr. unfold slice. reflexivity.
  - cbn [bind fst snd]. exists (HeadTail.data s).
    assert (E0 : c = 0) by lia. rewrite E0, Z.add_0_r.
    rewrite Z.mod_small by lia.
    split; [destruct s; reflexivity |]. split; [exact Hd |].
    reflexivity.
Qed.

(** ** Short reads *)

Lemma well_formed_s10 : well_formed s10.
Proof.
  unfold well_formed, INT_MAX, s10, after_write, head_of, len; cbn.
  repeat split; lia.
Qed.

Lemma ht_well_formed_ht4 : ht_well_formed ht4.
Proof.
  unfold ht_well_formed, INT_MAX, len; cbn. repeat split; lia.
Qed.

(** C6: on a buffer that holds bytes, [rb_read_block] returns the bytes
    that are there, up to [co] of them, and it never waits, whatever the
    environment would answer; a call that found the buffer [e] empty,
    waited and was woken with the buffer [s] returns in the same way,
    without a second wait.  With capacity 10 and 4 bytes written, a read
    of up to 10 bytes returns those 4 bytes. *)
Theorem C6_read_block_short_read_no_second_wait :
  forall (wake : UsedTail.ringbuffer -> option UsedTail.ringbuffer)
         (fuel : nat) (s e : UsedTail.ringbuffer) (co : Z),
    well_formed s -> 0 < UsedTail.used s -> 0 < co < 2 ^ 64 ->
    UsedTail.used e = 0 -> wake e = Some s ->
    let c := Z.min co (UsedTail.used s) in
    UsedTail.rb_read_block wake (3 + fuel) (Some s) co
    = Returned (c, firstn (Z.to_nat c) (contents s), Some (after_read s c))
    /\ UsedTail.rb_read_block single_threaded (3 + fuel) (Some s) co
       = Returned (c, firstn (Z.to_nat c) (contents s), Some (after_read s c))
    /\ UsedTail.rb_read_block wake (4 + fuel) (Some e) co
       = Returned (c, firstn (Z.to_nat c) (contents s), Some (after_read s c))
    /\ UsedTail.rb_write_block single_threaded 1
         (snd (fst (UsedTail.rb_init env_ok None 10))) bytes1234 4
       = Returned (4, Some s10)
    /\ UsedTail.rb_read_block single_threaded (3 + fuel) (Some s10) 10
       = Returned (4, bytes1234,
                   Some (UsedTail.mkRb 10 0 4 0
                           (bytes1234 ++ repeat Byte.x00 6))).
Proof.
  intros wake fuel s e co Hwf Hu Hco He Hw c.
  split; [| split; [| split; [| split]]].
  - now apply rb_read_block_spec.
  - now apply rb_read_block_spec.
  - change (4 + fuel)%nat with (S (3 + fuel)).
    rewrite (rb_read_block_woken wake _ e s co He ltac:(lia) Hw).
    now apply rb_read_block_spec.
  - reflexivity.
  - rewrite (rb_read_block_spec single_threaded fuel s10 10 well_formed_s10);
      [reflexivity | cbn; lia | lia].
Qed.

(** The theorem of C6 on [s10], for a request of 10 bytes, directly and
    after a wait on the empty buffer [fresh 10]. *)
Lemma C6_read_block_short_read_no_second_wait_witness :
  well_formed s10
  /\ 0 < UsedTail.used s10
  /\ 0 < 10 < 2 ^ 64
  /\ UsedTail.used (fresh 10) = 0
  /\ wake_with s10 (fresh 10) = Some s10
  /\ UsedTail.rb_read_block (wake_with s10) 3 (Some s10) 10
     = Returned (4, bytes1234, Some (after_read s10 4))
  /\ UsedTail.rb_read_block (wake_with s10) 4 (Some (fresh 10)) 10
     = Returned (4, bytes1234, Some (after_read s10 4)).
Proof.
  assert (H1 : well_formed s10) by exact well_formed_s10.
  assert (H2 : 0 < UsedTail.used s10) by (cbn; lia).
  assert (H3 : 0 < 10 < 2 ^ 64) by lia.
  assert (H4 : UsedTail.used (fresh 10) = 0) by reflexivity.
  assert (H5 : wake_with s10 (fresh 10) = Some s10) by reflexivity.
  destruct (C6_read_block_short_read_no_second_wait
              (wake_with s10) 0 s10 (fresh 10) 10 H1 H2 H3 H4 H5)
    as (A & _ & B & _).
  split; [exact H1 |]. split; [exact H2 |]. split; [exact H3 |].
  split; [exact H4 |]. split; [exact H5 |]. split; [exact A | exact B].
Defined.

(** ** Non-blocking reads *)

(** C3 (as stated, it fails): on a buffer of src/ringbuffer.c that holds
    two bytes, [rb_read_asy] of three bytes does not fail: it copies the
    two bytes, returns 2 and moves [tail]. *)
Lemma C3_counterexample_rb_read_asy_partial :
  exists h0 h1 h2 : HeadTail.handle,
    fst (HeadTail.rb_init env_junk4 None 4) = (0, h0)
    /\ HeadTail.rb_write_asy h0 bytes12 2 = Ok (2, h1)
    /\ HeadTail.rb_read_asy 1 h1 3 = Returned (2, bytes12, h2)
    /\ h2 <> h1.
Proof.
  do 3 eexists. split; [reflexivity |]. split; [reflexivity |].
  split; [reflexivity |]. discriminate.
Qed.

(** C3 (amended): [rb_read_nonblock], on a buffer whose capacity fits an
    [int], returns [-E2BIG] and changes nothing when [co] exceeds the
    capacity, returns [-EAGAIN] and changes nothing when [co] exceeds
    [used] but not the capacity, and otherwise copies exactly the [co]
    oldest bytes, decrements [used] by [co], moves [tail] to
    [(tail + co) mod size] and returns [co].  [rb_read_asy] has no such
    errors: on a buffer whose bytes lie between [tail] and [head] it
    delivers the [min co (head - tail)] oldest bytes and advances [tail]
    by as much, also when [co] exceeds what the buffer holds. *)
Theorem C3_read_nonblock_all_or_nothing_read_asy_clamps :
  forall (fuel : nat) (s : UsedTail.ringbuffer) (t : HeadTail.ringbuffer)
         (co : Z),
    well_formed s -> ht_well_formed t ->
    HeadTail.tail t < HeadTail.head t -> 0 <= co < 2 ^ 64 ->
    (UsedTail.size s < co ->
     UsedTail.rb_read_nonblock fuel (Some s) co
     = Returned (- E2BIG, [], Some s))
    /\ (UsedTail.used s < co <= UsedTail.size s ->
        UsedTail.rb_read_nonblock fuel (Some s) co
        = Returned (- EAGAIN, [], Some s))
    /\ (co <= UsedTail.used s ->
        UsedTail.rb_read_nonblock (2 + fuel) (Some s) co
        = Returned (co, firstn (Z.to_nat co) (contents s),
                    Some (after_read s co))
        /\ len (firstn (Z.to_nat co) (contents s)) = co
        /\ UsedTail.used (after_read s co) = UsedTail.used s - co
        /\ UsedTail.tail (after_read s co)
           = (UsedTail.tail s + co) mod UsedTail.size s)
    /\ (0 < co ->
        exists r : Z,
          0 <= r
          /\ HeadTail.rb_read_asy (1 + fuel) (Some t) co
             = Returned
                 (r,
                  slice (HeadTail.data t) (HeadTail.tail t)
                        (Z.min co (HeadTail.head t - HeadTail.tail t)),
                  Some (HeadTail.set_tail t
                          (HeadTail.tail t
                           + Z.min co (HeadTail.head t - HeadTail.tail t))))).
Proof.
  intros fuel s t co Hwf Hht Hne Hco.
  destruct (rb_read_nonblock_spec fuel s co Hwf ltac:(lia)) as (A & B & C).
  split; [exact A |]. split; [exact B |]. split.
  - intros H. split; [exact (C H) |]. split; [| split; reflexivity].
    destruct Hwf as (_ & Hlen & Hu & Ht).
    unfold len, contents, rotated in *.
    rewrite firstn_firstn, length_firstn, length_app, length_skipn,
      length_firstn.
    lia.
  - intros Hpos. exists (HeadTail.head t - HeadTail.tail t). split; [lia |].
    apply rb_read_asy_clamps; assumption || lia.
Qed.

(** The theorem of C3 on [s10] and [ht4], for a request of 3 bytes. *)
Lemma C3_read_nonblock_all_or_nothing_read_asy_clamps_witness :
  well_formed s10
  /\ ht_well_formed ht4
  /\ HeadTail.tail ht4 < HeadTail.head ht4
  /\ 0 <= 3 < 2 ^ 64
  /\ UsedTail.rb_read_nonblock 2 (Some s10) 3
     = Returned (3, [Byte.x01; Byte.x02; Byte.x03], Some (after_read s10 3))
  /\ exists r : Z,
      0 <= r
      /\ HeadTail.rb_read_asy 1 (Some ht4) 3
         = Returned (r, bytes12, Some (HeadTail.set_tail ht4 2)).
Proof.
  assert (H1 : well_formed s10) by exact well_formed_s10.
  assert (H2 : ht_well_formed ht4) by exact ht_well_formed_ht4.
  assert (H3 : HeadTail.tail ht4 < HeadTail.head ht4) by (cbn; lia).
  assert (H4 : 0 <= 3 < 2 ^ 64) by lia.
  destruct (C3_read_nonblock_all_or_nothing_read_asy_clamps
              0 s10 ht4 3 H1 H2 H3 H4) as (_ & _ & C & D).
  split; [exact H1 |]. split; [exact H2 |]. split; [exact H3 |].
  split; [exact H4 |].
  split; [exact (proj1 (C ltac:(cbn; lia))) | exact (D ltac:(lia))].
Defined.

(** ** Non-blocking writes *)

(** C2 (as stated, it fails): on a buffer of src/ringbuffer.c of capacity
    4 that already holds two bytes, [rb_write_asy] of three bytes neither
    fails nor leaves the buffer alone: it stores two of the three bytes,
    returns 2 and moves [head]. *)
Lemma C2_counterexample_rb_write_asy_partial :
  exists h0 h1 h2 : HeadTail.handle,
    fst (HeadTail.rb_init env_junk4 None 4) = (0, h0)
    /\ HeadTail.rb_write_asy h0 bytes12 2 = Ok (2, h1)
    /\ HeadTail.rb_write_asy h1 bytes345 3 = Ok (2, h2)
    /\ h2 <> h1.
Proof.
  do 3 eexists. split; [reflexivity |]. split; [reflexivity |].
  split; [reflexivity |]. discriminate.
Qed.

(** C2 (amended): [rb_write_nonblock] of the [co] bytes of [po], on a
    buffer whose capacity fits an [int], returns [-E2BIG] and changes
    nothing when [co] exceeds the capacity, returns [-ENOMEM] and changes
    nothing when [co] exceeds [size - used] but not the capacity, and,
    when the request fits in the free space and between the write position
    and the end of the arena, appends all of [po] to the contents,
    increments [used] by [co], leaves [tail] alone and returns [co].
    [rb_write_asy], on a buffer whose [size] field is the length of its
    arena and whose cursors are inside it, has no such errors: it returns
    [c = min co _avail], advances [head] by [c] modulo [size], leaves
    [tail], [size] and [lost] alone, and stores the first [c] bytes of
    [po] at the old [head], going round the end of the arena: read round
    from the old [head], the arena holds those [c] bytes and, behind
    them, what it held before. *)
Theorem C2_write_nonblock_all_or_nothing_write_asy_clamps :
  forall (fuel : nat) (s : UsedTail.ringbuffer) (t : HeadTail.ringbuffer)
         (po : list Byte.byte),
    well_formed s -> ht_well_formed t ->
    (UsedTail.size s < len po ->
     UsedTail.rb_write_nonblock fuel (Some s) po (len po)
     = Returned (- E2BIG, Some s))
    /\ (UsedTail.size s - UsedTail.used s < len po <= UsedTail.size s ->
        UsedTail.rb_write_nonblock fuel (Some s) po (len po)
        = Returned (- ENOMEM, Some s))
    /\ (len po = 0 ->
        UsedTail.rb_write_nonblock fuel (Some s) po (len po)
        = Returned (0, Some s))
    /\ (0 < len po <= UsedTail.size s - UsedTail.used s ->
        head_of s + len po <= UsedTail.size s ->
        UsedTail.rb_write_nonblock (1 + fuel) (Some s) po (len po)
        = Returned (len po, Some (after_write s po))
        /\ contents (after_write s po) = contents s ++ po
        /\ UsedTail.used (after_write s po) = UsedTail.used s + len po
        /\ UsedTail.tail (after_write s po) = UsedTail.tail s)
    /\ (exists t' : HeadTail.ringbuffer,
           HeadTail.rb_write_asy (Some t) po (len po)
           = Ok (Z.min (len po) (HeadTail._avail t), Some t')
           /\ HeadTail.head t'
              = (HeadTail.head t + Z.min (len po) (HeadTail._avail t))
                mod HeadTail.size t
           /\ HeadTail.tail t' = HeadTail.tail t
           /\ HeadTail.size t' = HeadTail.size t
           /\ HeadTail.lost t' = HeadTail.lost t
           /\ len (HeadTail.data t') = HeadTail.size t
           /\ ring_from (HeadTail.data t') (HeadTail.head t)
              = firstn (Z.to_nat (Z.min (len po) (HeadTail._avail t))) po
                ++ skipn (Z.to_nat (Z.min (len po) (HeadTail._avail t)))
                     (ring_from (HeadTail.data t) (HeadTail.head t))).
Proof.
  intros fuel s t po Hwf Hht.
  destruct (rb_write_nonblock_spec fuel s po (len po) Hwf eq_refl)
    as (A & B & C & D & _).
  split; [exact A |]. split; [exact B |]. split; [exact C |]. split.
  - intros H Hh. split; [exact (D H Hh) |].
    split; [| split; reflexivity].
    pose proof Hwf as (Hsz & Hlen & Hu & Ht).
    apply contents_after_write; assumption || lia.
  - destruct (rb_write_asy_stores t po (len po) Hht eq_refl)
      as (d & E & Hl & Hr).
    eexists. split; [exact E |]. cbn.
    split; [reflexivity |]. split; [reflexivity |]. split; [reflexivity |].
    split; [reflexivity |]. split; [exact Hl | exact Hr].
Qed.

(** The theorem of C2 on [s10] and [ht4], for requests of 2 and of 3
    bytes: of [bytes345] the buffer [ht4], which holds [Byte.x01] and
    [Byte.x02] and has room for two more bytes, takes [Byte.x03] and
    [Byte.x04]. *)
Lemma C2_write_nonblock_all_or_nothing_write_asy_clamps_witness :
  well_formed s10
  /\ ht_well_formed ht4
  /\ UsedTail.rb_write_nonblock 1 (Some s10) bytes12 2
     = Returned (2, Some (after_write s10 bytes12))
  /\ contents (after_write s10 bytes12) = bytes1234 ++ bytes12
  /\ exists t' : HeadTail.ringbuffer,
      HeadTail.rb_write_asy (Some ht4) bytes345 3 = Ok (2, Some t')
      /\ HeadTail.head t' = 0
      /\ ring_from (HeadTail.data t') 2
         = [Byte.x03; Byte.x04; Byte.x01; Byte.x02].
Proof.
  assert (H1 : well_formed s10) by exact well_formed_s10.
  assert (H2 : ht_well_formed ht4) by exact ht_well_formed_ht4.
  destruct (C2_write_nonblock_all_or_nothing_write_asy_clamps
              0 s10 ht4 bytes12 H1 H2) as (_ & _ & _ & D & _).
  destruct (C2_write_nonblock_all_or_nothing_write_asy_clamps
              0 s10 ht4 bytes345 H1 H2)
    as (_ & _ & _ & _ & t' & E & Hh & _ & _ & _ & _ & Hr).
  destruct (D ltac:(cbn; lia) ltac:(cbn; lia)) as (D1 & D2 & _).
  split; [exact H1 |]. split; [exact H2 |].
  split; [exact D1 |]. split; [exact D2 |].
  exists t'. split; [exact E |]. split; [exact Hh | exact Hr].
Defined.

(** * Further properties of the code *)

(** ** Creation: the unwinding of a failed initialisation *)

Lemma init_prims_spec (e : env) (todo : list prim) :
  forall (done : list prim) (erc : Z) (evs : list event),
    init_prims e todo done = (erc, evs) ->
    (erc = 0 /\ evs = map EvInit todo)
    \/ (erc <> 0
        /\ exists (pre : list prim) (p : prim) (post : list prim),
            todo = pre ++ p :: post
            /\ Forall (fun q => init_erc e q = 0) pre
            /\ init_erc e p = erc
            /\ evs = map EvInit pre ++ map EvDestroy (rev pre ++ done)).
Proof.
  induction todo as [| p todo IH]; intros done erc evs; cbn.
  - intros [= <- <-]. left. split; reflexivity.
  - destruct (Z.eqb_spec (init_erc e p) 0) as [E | E].
    + destruct (init_prims e todo (p :: done)) as [r evs'] eqn:Hrec.
      intros [= <- <-].
      destruct (IH _ _ _ Hrec) as [[-> ->] | (Hr & pre & q & post & -> & Hpre & Hq & ->)].
      * left. split; reflexivity.
      * right. split; [exact Hr |].
        exists (p :: pre), q, post. repeat split.
        -- constructor; assumption.
        -- exact Hq.
        -- cbn. rewrite <- app_assoc. reflexivity.
    + intros [= <- <-]. right. split; [exact E |].
      exists [], p, todo. repeat split. constructor.
Qed.

(** X1: when the initialisation of a primitive fails, [rb_init] of
    [UsedTail] returns the code of that initialisation and destroys the
    primitives initialised before it, latest first; but it never frees the
    block, and the pointer keeps pointing at it, its fields as [malloc]
    left them. *)
Theorem UsedTail_rb_init_failure_leaks_block :
  forall (e : env) (rb0 : UsedTail.handle) (sz : Z),
    malloc_fails e = false ->
    fst (fst (UsedTail.rb_init e rb0 sz)) <> 0 ->
    exists (pre : list prim) (p : prim) (post : list prim),
      init_order = pre ++ p :: post
      /\ Forall (fun q => init_erc e q = 0) pre
      /\ init_erc e p <> 0
      /\ UsedTail.rb_init e rb0 sz
         = (init_erc e p,
            Some (UsedTail.mkRb (junk e) (junk e) (junk e) (junk e)
                    (repeat (junk_byte e) (Z.to_nat sz))),
            EvMalloc sz :: map EvInit pre ++ map EvDestroy (rev pre))
      /\ frees (snd (UsedTail.rb_init e rb0 sz)) = 0%nat.
Proof.
  intros e rb0 sz Hm. unfold UsedTail.rb_init. rewrite Hm.
  destruct (init_prims e init_order []) as [erc evs] eqn:Hp.
  destruct (init_prims_spec _ _ _ _ _ Hp)
    as [[-> ->] | (Hr & pre & p & post & Ho & Hpre & Hq & ->)].
  - cbn. intros H. contradiction.
  - destruct (Z.eqb_spec erc 0) as [E | _]; [contradiction |].
    cbn [fst snd]. intros _. exists pre, p, post.
    rewrite app_nil_r, Hq.
    split; [exact Ho |]. split; [exact Hpre |]. split; [exact Hr |].
    split; [reflexivity |].
    unfold frees. cbn [filter]. rewrite filter_app.
    rewrite length_app.
    assert (Hn : forall (f : prim -> event) (l : list prim),
               (forall q, f q <> EvFree) ->
               filter (fun ev => match ev with EvFree => true | _ => false end)
                      (map f l) = []).
    { intros f l Hf. induction l as [| q l IHl]; cbn; [reflexivity |].
      specialize (Hf q). destruct (f q); try exact IHl. contradiction. }
    rewrite !Hn by (intros q; discriminate). reflexivity.
Qed.

Lemma UsedTail_rb_init_failure_leaks_block_witness :
  malloc_fails env_rd_cond_fails = false
  /\ fst (fst (UsedTail.rb_init env_rd_cond_fails None 4)) <> 0
  /\ exists (pre : list prim) (p : prim) (post : list prim),
      init_order = pre ++ p :: post
      /\ UsedTail.rb_init env_rd_cond_fails None 4
         = (init_erc env_rd_cond_fails p,
            Some (UsedTail.mkRb 7 7 7 7 (repeat Byte.x00 4)),
            EvMalloc 4 :: map EvInit pre ++ map EvDestroy (rev pre)).
Proof.
  assert (H1 : malloc_fails env_rd_cond_fails = false) by reflexivity.
  assert (H2 : fst (fst (UsedTail.rb_init env_rd_cond_fails None 4)) <> 0)
    by (cbn; discriminate).
  destruct (UsedTail_rb_init_failure_leaks_block env_rd_cond_fails None 4 H1 H2)
    as (pre & p & post & Ho & _ & _ & E & _).
  split; [exact H1 |]. split; [exact H2 |].
  exists pre, p, post. split; [exact Ho | exact E].
Defined.

(** X2: [rb_init] of src/ringbuffer.c, on an unset handle: when [malloc]
    fails it returns [ENOMEM] and touches no primitive; when the
    initialisation of a primitive fails it returns that code, destroys the
    primitives initialised before it, latest first, frees the block once
    and leaves the pointer unset. *)
Theorem HeadTail_rb_init_failure_unwinds :
  forall (e : env) (sz : Z),
    fst (fst (HeadTail.rb_init e None sz)) <> 0 ->
    (malloc_fails e = true
     /\ HeadTail.rb_init e None sz = (ENOMEM, None, [EvMalloc sz]))
    \/ (malloc_fails e = false
        /\ exists (pre : list prim) (p : prim) (post : list prim),
            init_order = pre ++ p :: post
            /\ Forall (fun q => init_erc e q = 0) pre
            /\ init_erc e p <> 0
            /\ HeadTail.rb_init e None sz
               = (init_erc e p, None,
                  EvMalloc sz :: map EvInit pre ++ map EvDestroy (rev pre)
                  ++ [EvFree])).
Proof.
  intros e sz. unfold HeadTail.rb_init.
  destruct (malloc_fails e); [intros _; left; split; reflexivity |].
  destruct (init_prims e init_order []) as [erc evs] eqn:Hp.
  destruct (init_prims_spec _ _ _ _ _ Hp)
    as [[-> ->] | (Hr & pre & p & post & Ho & Hpre & Hq & ->)].
  - cbn. intros H. contradiction.
  - destruct (Z.eqb_spec erc 0) as [E | _]; [contradiction |].
    intros _. right. split; [reflexivity |]. exists pre, p, post.
    rewrite app_nil_r, Hq, <- app_assoc.
    split; [exact Ho |]. split; [exact Hpre |]. split; [exact Hr |].
    reflexivity.
Qed.

Lemma HeadTail_rb_init_failure_unwinds_witness :
  fst (fst (HeadTail.rb_init env_rd_cond_fails None 4)) <> 0
  /\ HeadTail.rb_init env_rd_cond_fails None 4
     = (EAGAIN, None,
        [EvMalloc 4; EvInit spinlock; EvInit rd_mutex; EvInit rd_cond_lock;
         EvDestroy rd_cond_lock; EvDestroy rd_mutex; EvDestroy spinlock;
         EvFree]).
Proof.
  assert (H : fst (fst (HeadTail.rb_init env_rd_cond_fails None 4)) <> 0)
    by (cbn; discriminate).
  split; [exact H |].
  destruct (HeadTail_rb_init_failure_unwinds env_rd_cond_fails 4 H)
    as [[Hm _] | _]; [discriminate Hm | reflexivity].
Defined.

(** X3: whatever the environment and the handle it is given, when
    [rb_init] of [UsedTail] returns 0 it has allocated one block and
    initialised the seven primitives; [rb_destroy] then destroys the same
    seven primitives in the reverse order, frees the block once and unsets
    the pointer, after which every transfer function returns [-EFAULT] and
    a second [rb_destroy] returns [EFAULT] and releases nothing. *)
Theorem UsedTail_init_destroy_balanced :
  forall (wake : UsedTail.ringbuffer -> option UsedTail.ringbuffer)
         (fuel : nat) (e : env) (rb0 : UsedTail.handle) (sz co : Z)
         (po : list Byte.byte),
    fst (fst (UsedTail.rb_init e rb0 sz)) = 0 ->
    let h := snd (fst (UsedTail.rb_init e rb0 sz)) in
    let h' := snd (fst (UsedTail.rb_destroy h)) in
    snd (UsedTail.rb_init e rb0 sz) = EvMalloc sz :: map EvInit init_order
    /\ UsedTail.rb_destroy h
       = (0, None, map EvDestroy (rev init_order) ++ [EvFree])
    /\ UsedTail.rb_destroy h' = (EFAULT, None, [])
    /\ UsedTail.rb_write_block wake fuel h' po co = Returned (- EFAULT, None)
    /\ UsedTail.rb_write_nonblock fuel h' po co = Returned (- EFAULT, None)
    /\ UsedTail.rb_read_block wake fuel h' co = Returned (- EFAULT, [], None)
    /\ UsedTail.rb_read_nonblock fuel h' co = Returned (- EFAULT, [], None).
Proof.
  intros wake fuel e rb0 sz co po. unfold UsedTail.rb_init.
  destruct (malloc_fails e); [cbn; discriminate |].
  destruct (init_prims e init_order []) as [erc evs] eqn:Hp.
  destruct (init_prims_spec _ _ _ _ _ Hp)
    as [[-> ->] | (Hr & _)].
  - cbn. intros _. repeat split.
  - destruct (Z.eqb_spec erc 0) as [E | _]; [contradiction |].
    cbn. intros H. contradiction.
Qed.

Lemma UsedTail_init_destroy_balanced_witness :
  fst (fst (UsedTail.rb_init env_ok None 4)) = 0
  /\ UsedTail.rb_destroy (snd (fst (UsedTail.rb_init env_ok None 4)))
     = (0, None, map EvDestroy (rev init_order) ++ [EvFree]).
Proof.
  assert (H : fst (fst (UsedTail.rb_init env_ok None 4)) = 0) by reflexivity.
  split; [exact H |].
  exact (proj1 (proj2 (UsedTail_init_destroy_balanced
                         single_threaded 0 env_ok None 4 0 [] H))).
Defined.

(** X4: the test program never reaches [EXIT_SUCCESS].  Whatever the
    automatic variable [rb] holds at the start and whatever the
    environment, one of its two assertions fails: either [rb_init] does
    not return 0, or it does and [rb_destroy], whose guard is inverted,
    returns [EFAULT] on the handle just created. *)
Theorem test_main_always_aborts :
  forall (e : env) (rb0 : HeadTail.handle),
    Test.main e rb0 = Crash AssertFailed
    /\ (fst (fst (HeadTail.rb_init e rb0 1024)) = 0 ->
        exists s : HeadTail.ringbuffer,
          rb0 = None
          /\ snd (fst (HeadTail.rb_init e rb0 1024)) = Some s
          /\ HeadTail.rb_destroy (Some s) = Ok (EFAULT, Some s, [])).
Proof.
  intros e rb0. unfold Test.main, HeadTail.rb_init.
  destruct rb0 as [s0 |]; [cbn; split; [reflexivity | discriminate] |].
  destruct (malloc_fails e); [cbn; split; [reflexivity | discriminate] |].
  destruct (init_prims e init_order []) as [erc evs].
  destruct (Z.eqb_spec erc 0) as [E | E]; cbn.
  - split; [reflexivity |]. intros _. eexists. repeat split.
  - destruct (Z.eqb_spec erc 0); [contradiction |].
    split; [reflexivity |]. intros H. contradiction.
Qed.

(** ** What the transfers leave alone *)

Lemma put_keeps (s s' : UsedTail.ringbuffer) (src : list Byte.byte)
    (off co n : Z) :
  UsedTail._put s src off co = Ok (n, s') ->
  UsedTail.size s' = UsedTail.size s /\ UsedTail.lost s' = UsedTail.lost s
  /\ UsedTail.tail s' = UsedTail.tail s.
Proof.
  unfold UsedTail._put.
  destruct (_ =? 0); [discriminate |].
  destruct (_ <=? _).
  - destruct (memcpy _ _ _ _ _); cbn; [| discriminate].
    intros [= _ <-]. repeat split.
  - destruct (memcpy _ _ _ _ _); cbn; [| discriminate].
    destruct (memcpy _ _ _ _ _); cbn; [| discriminate].
    intros [= _ <-]. repeat split.
Qed.

Lemma get_keeps (s s' : UsedTail.ringbuffer) (co n : Z) (b : list Byte.byte) :
  UsedTail._get s co = Ok (n, b, s') ->
  UsedTail.size s' = UsedTail.size s /\ UsedTail.lost s' = UsedTail.lost s
  /\ UsedTail.data s' = UsedTail.data s.
Proof.
  unfold UsedTail._get.
  destruct (_ =? 0); [intros [= _ _ <-]; repeat split |].
  destruct (_ =? 0); [discriminate |].
  destruct (_ >? _).
  - destruct (load _ _ _); cbn; [| discriminate].
    intros [= _ _ <-]. repeat split.
  - destruct (load _ _ _); cbn; [| discriminate].
    intros [= _ _ <-]. repeat split.
Qed.

Section Keeps.

Variable wake : UsedTail.ringbuffer -> option UsedTail.ringbuffer.

(** The other threads do not change the capacity, and report no loss. *)
Hypothesis wake_keeps :
  forall a b : UsedTail.ringbuffer,
    wake a = Some b ->
    UsedTail.size b = UsedTail.size a /\ UsedTail.lost b = UsedTail.lost a.

Lemma write_block_loop_keeps (fuel : nat) :
  forall (s : UsedTail.ringbuffer) (src : list Byte.byte) (off co written r : Z)
         (s' : UsedTail.ringbuffer),
    UsedTail.write_block_loop wake fuel s src off co written = Returned (r, s') ->
    UsedTail.size s' = UsedTail.size s /\ UsedTail.lost s' = UsedTail.lost s.
Proof.
  induction fuel as [| fuel IH]; intros s src off co written r s'; cbn.
  - destruct (co >? 0); [discriminate | now intros [= _ <-]].
  - destruct (co >? 0); [| now intros [= _ <-]].
    destruct (UsedTail._put s src off co) as [[n s1] |] eqn:Hput; [| discriminate].
    destruct (put_keeps _ _ _ _ _ _ Hput) as (E1 & E2 & _).
    destruct (_ >? 0).
    + destruct (wake s1) as [s2 |] eqn:Hw; [| discriminate].
      destruct (wake_keeps _ _ Hw) as [E3 E4].
      intros H. destruct (IH _ _ _ _ _ _ _ H). split; congruence.
    + intros H. destruct (IH _ _ _ _ _ _ _ H). split; congruence.
Qed.

Lemma read_block_loop_keeps (fuel : nat) :
  forall (s : UsedTail.ringbuffer) (co got r : Z) (out out' : list Byte.byte)
         (s' : UsedTail.ringbuffer),
    UsedTail.read_block_loop wake fuel s co got out = Returned (r, out', s') ->
    UsedTail.size s' = UsedTail.size s /\ UsedTail.lost s' = UsedTail.lost s.
Proof.
  induction fuel as [| fuel IH]; intros s co got r out out' s'; cbn.
  - destruct (co >? 0); [discriminate | now intros [= _ _ <-]].
  - destruct (co >? 0); [| now intros [= _ _ <-]].
    destruct (UsedTail._get s co) as [[[n b] s1] |] eqn:Hget; [| discriminate].
    destruct (get_keeps _ _ _ _ _ Hget) as (E1 & E2 & _).
    destruct (to_int n =? 0).
    + destruct (got =? 0).
      * destruct (wake s1) as [s2 |] eqn:Hw; [| discriminate].
        destruct (wake_keeps _ _ Hw) as [E3 E4].
        intros H. destruct (IH _ _ _ _ _ _ _ H). split; congruence.
      * intros [= _ _ <-]. split; assumption.
    + intros H. destruct (IH _ _ _ _ _ _ _ H). split; congruence.
Qed.

End Keeps.

Lemma write_nonblock_loop_keeps (fuel : nat) :
  forall (s : UsedTail.ringbuffer) (src : list Byte.byte) (off co written r : Z)
         (s' : UsedTail.ringbuffer),
    UsedTail.write_nonblock_loop fuel s src off co written = Returned (r, s') ->
    UsedTail.size s' = UsedTail.size s /\ UsedTail.lost s' = UsedTail.lost s.
Proof.
  induction fuel as [| fuel IH]; intros s src off co written r s'; cbn.
  - destruct (co >? 0); [discriminate | now intros [= _ <-]].
  - destruct (co >? 0); [| now intros [= _ <-]].
    destruct (UsedTail._put s src off co) as [[n s1] |] eqn:Hput; [| discriminate].
    destruct (put_keeps _ _ _ _ _ _ Hput) as (E1 & E2 & _).
    intros H. destruct (IH _ _ _ _ _ _ _ H). split; congruence.
Qed.

Lemma read_nonblock_loop_keeps (fuel : nat) :
  forall (s : UsedTail.ringbuffer) (co got r : Z) (out out' : list Byte.byte)
         (s' : UsedTail.ringbuffer),
    UsedTail.read_nonblock_loop fuel s co got out = Returned (r, out', s') ->
    UsedTail.size s' = UsedTail.size s /\ UsedTail.lost s' = UsedTail.lost s.
Proof.
  induction fuel as [| fuel IH]; intros s co got r out out' s'; cbn.
  - destruct (co >? 0); [discriminate | now intros [= _ _ <-]].
  - destruct (co >? 0); [| now intros [= _ _ <-]].
    destruct (UsedTail._get s co) as [[[n b] s1] |] eqn:Hget; [| discriminate].
    destruct (get_keeps _ _ _ _ _ Hget) as (E1 & E2 & _).
    intros H. destruct (IH _ _ _ _ _ _ _ H). split; congruence.
Qed.

Lemma exec_keeps (wake : UsedTail.ringbuffer -> option UsedTail.ringbuffer)
    (o : op) (s : UsedTail.ringbuffer) (h' : UsedTail.handle) :
  (forall a b, wake a = Some b ->
               UsedTail.size b = UsedTail.size a
               /\ UsedTail.lost b = UsedTail.lost a) ->
  is_transfer o = true -> exec wake o (Some s) = Some h' ->
  exists s' : UsedTail.ringbuffer,
    h' = Some s' /\ UsedTail.size s' = UsedTail.size s
    /\ UsedTail.lost s' = UsedTail.lost s.
Proof.
  intros Hw.
  destruct o as [fuel po co | fuel po co | fuel co | fuel co | | | | | | | n];
    cbn; try discriminate; intros _;
    try (intros [= <-]; exists s; repeat split).
  - destruct (size_t co =? 0); cbn; [intros [= <-]; exists s; repeat split |].
    destruct (UsedTail.write_block_loop _ _ _ _ _ _ _) as [[r s'] | | |] eqn:E;
      cbn; try discriminate.
    intros [= <-]. exists s'. split; [reflexivity |].
    eapply write_block_loop_keeps; eassumption.
  - destruct (_ >? _); cbn; [intros [= <-]; exists s; repeat split |].
    destruct (_ <=? _); cbn; [| intros [= <-]; exists s; repeat split].
    destruct (UsedTail.write_nonblock_loop _ _ _ _ _ _) as [[r s'] | | |] eqn:E;
      cbn; try discriminate.
    intros [= <-]. exists s'. split; [reflexivity |].
    eapply write_nonblock_loop_keeps; eassumption.
  - destruct (UsedTail.read_block_loop _ _ _ _ _ _) as [[[r out] s'] | | |] eqn:E;
      cbn; try discriminate.
    intros [= <-]. exists s'. split; [reflexivity |].
    eapply read_block_loop_keeps; eassumption.
  - destruct (_ >? _); cbn; [intros [= <-]; exists s; repeat split |].
    destruct (_ <=? _); cbn; [| intros [= <-]; exists s; repeat split].
    destruct (UsedTail.read_nonblock_loop _ _ _ _ _) as [[[r out] s'] | | |] eqn:E;
      cbn; try discriminate.
    intros [= <-]. exists s'. split; [reflexivity |].
    eapply read_nonblock_loop_keeps; eassumption.
Qed.

(** X5: the transfer functions and the getters never change the capacity
    nor the lost counter: after any sequence of such calls that return,
    [size] and [lost] are what they were, as long as the threads that run
    while a caller waits leave them alone too. *)
Theorem transfers_keep_size_and_lost :
  forall (wake : UsedTail.ringbuffer -> option UsedTail.ringbuffer)
         (ops : list op) (s : UsedTail.ringbuffer) (h : UsedTail.handle),
    (forall a b, wake a = Some b ->
                 UsedTail.size b = UsedTail.size a
                 /\ UsedTail.lost b = UsedTail.lost a) ->
    forallb is_transfer ops = true ->
    run wake ops (Some s) = Some h ->
    exists s' : UsedTail.ringbuffer,
      h = Some s'
      /\ UsedTail.rb_get_size h = Ok (UsedTail.size s)
      /\ UsedTail.rb_get_lost h = UsedTail.lost s.
Proof.
  intros wake ops. induction ops as [| o ops IH]; intros s h Hw Hall; cbn.
  - intros [= <-]. exists s. repeat split.
  - cbn in Hall. apply andb_prop in Hall. destruct Hall as [Ho Hops].
    destruct (exec wake o (Some s)) as [h1 |] eqn:E; [| discriminate].
    destruct (exec_keeps wake o s h1 Hw Ho E) as (s1 & -> & E1 & E2).
    intros Hrun. destruct (IH s1 h Hw Hops Hrun) as (s' & -> & H1 & H2).
    exists s'. cbn in *. split; [reflexivity |]. split; congruence.
Qed.

Lemma transfers_keep_size_and_lost_witness :
  forallb is_transfer
    [WriteBlock 1 bytes12 2; ReadBlock 1 2; WriteNonblock 1 bytes12 2;
     GetUsed; ReadNonblock 2 2] = true
  /\ exists s' : UsedTail.ringbuffer,
      run single_threaded
        [WriteBlock 1 bytes12 2; ReadBlock 1 2; WriteNonblock 1 bytes12 2;
         GetUsed; ReadNonblock 2 2]
        (Some (UsedTail.set_lost (fresh 4) 9)) = Some (Some s')
      /\ UsedTail.rb_get_size (Some s') = Ok 4
      /\ UsedTail.rb_get_lost (Some s') = 9.
Proof.
  split; [reflexivity |].
  destruct (transfers_keep_size_and_lost single_threaded
              [WriteBlock 1 bytes12 2; ReadBlock 1 2; WriteNonblock 1 bytes12 2;
               GetUsed; ReadNonblock 2 2]
              (UsedTail.set_lost (fresh 4) 9)
              (Some (UsedTail.mkRb 4 0 0 9 (bytes12 ++ bytes12))))
    as (s' & E & H1 & H2).
  - intros a b H. discriminate H.
  - reflexivity.
  - reflexivity.
  - exists s'. rewrite <- E. split; [reflexivity |]. split; assumption.
Defined.

(** X6: after a successful [rb_init] and any sequence of calls that
    return, [rb_get_used] and [rb_get_free] add up to [rb_get_size]: the
    subtraction in [_free] never wraps. *)
Theorem used_plus_free_is_size :
  forall (wake : UsedTail.ringbuffer -> option UsedTail.ringbuffer)
         (ops : list op) (s : UsedTail.ringbuffer) (h : UsedTail.handle),
    (forall a b, rb_inv a -> wake a = Some b -> rb_inv b) ->
    rb_inv s ->
    run wake ops (Some s) = Some h ->
    exists u f z : Z,
      UsedTail.rb_get_used h = Ok u
      /\ UsedTail.rb_get_free h = Ok f
      /\ UsedTail.rb_get_size h = Ok z
      /\ 0 <= u /\ 0 <= f /\ u + f = z.
Proof.
  intros wake ops s h Hw Hs Hrun.
  assert (H0 : live_inv (Some s)) by (exists s; split; [reflexivity | exact Hs]).
  destruct (run_inv wake ops Hw _ _ H0 Hrun) as (s' & -> & Hsz & Hu & _).
  exists (UsedTail.used s'), (UsedTail.size s' - UsedTail.used s'),
         (UsedTail.size s').
  cbn. unfold UsedTail._free, UsedTail._used.
  rewrite size_t_small by lia. repeat split; lia.
Qed.

Lemma used_plus_free_is_size_witness :
  rb_inv (fresh 4)
  /\ exists u f z : Z,
      UsedTail.rb_get_used (Some (UsedTail.mkRb 4 4 0 0 bytes1234)) = Ok u
      /\ UsedTail.rb_get_free (Some (UsedTail.mkRb 4 4 0 0 bytes1234)) = Ok f
      /\ UsedTail.rb_get_size (Some (UsedTail.mkRb 4 4 0 0 bytes1234)) = Ok z
      /\ 0 <= u /\ 0 <= f /\ u + f = z.
Proof.
  assert (H : rb_inv (fresh 4)) by (apply rb_inv_fresh; lia).
  split; [exact H |].
  apply (used_plus_free_is_size single_threaded sample_ops (fresh 4)).
  - intros a b _ Hab. discriminate Hab.
  - exact H.
  - reflexivity.
Defined.

(** X7: a request of 0 bytes never touches the buffer, never waits and
    never fails, whatever the buffer holds, also when it is full, also
    when its capacity is 0, and with no fuel at all: the four transfer
    functions return 0. *)
Theorem zero_length_requests_return_zero :
  forall (wake : UsedTail.ringbuffer -> option UsedTail.ringbuffer)
         (fuel : nat) (s : UsedTail.ringbuffer) (po : list Byte.byte),
    0 <= UsedTail.size s -> 0 <= UsedTail.used s ->
    UsedTail.rb_write_block wake fuel (Some s) po 0 = Returned (0, Some s)
    /\ UsedTail.rb_write_nonblock fuel (Some s) po 0 = Returned (0, Some s)
    /\ UsedTail.rb_read_block wake fuel (Some s) 0 = Returned (0, [], Some s)
    /\ UsedTail.rb_read_nonblock fuel (Some s) 0 = Returned (0, [], Some s).
Proof.
  intros wake fuel s po Hsz Hu.
  split; [reflexivity |]. split; [| split].
  - unfold UsedTail.rb_write_nonblock, UsedTail._free.
    destruct (Z.gtb_spec 0 (UsedTail.size s)); [lia |].
    pose proof (size_t_range (UsedTail.size s - UsedTail.used s)).
    destruct (Z.leb_spec 0 (size_t (UsedTail.size s - UsedTail.used s)));
      [| lia].
    rewrite write_nonblock_done. reflexivity.
  - unfold UsedTail.rb_read_block. destruct fuel; reflexivity.
  - unfold UsedTail.rb_read_nonblock, UsedTail._used.
    destruct (Z.gtb_spec 0 (UsedTail.size s)); [lia |].
    destruct (Z.leb_spec 0 (UsedTail.used s)); [| lia].
    rewrite read_nonblock_done. reflexivity.
Qed.

Lemma zero_length_requests_return_zero_witness :
  0 <= UsedTail.size (fresh 0)
  /\ 0 <= UsedTail.used (fresh 0)
  /\ UsedTail.rb_write_block single_threaded 0 (Some (fresh 0)) [] 0
     = Returned (0, Some (fresh 0))
  /\ UsedTail.rb_read_block single_threaded 0 (Some (fresh 0)) 0
     = Returned (0, [], Some (fresh 0)).
Proof.
  assert (H1 : 0 <= UsedTail.size (fresh 0)) by (cbn; lia).
  assert (H2 : 0 <= UsedTail.used (fresh 0)) by (cbn; lia).
  destruct (zero_length_requests_return_zero single_threaded 0 (fresh 0) []
              H1 H2) as (A & _ & C & _).
  split; [exact H1 |]. split; [exact H2 |]. split; [exact A | exact C].
Defined.

(** ** How reads and writes compose *)

Lemma head_of_after_write (s : UsedTail.ringbuffer) (b : list Byte.byte) :
  well_formed s -> 0 < UsedTail.size s ->
  head_of s + len b < UsedTail.size s ->
  head_of (after_write s b) = head_of s + len b.
Proof.
  intros Hwf Hpos Hh. pose proof (len_nonneg b) as Hb.
  destruct (head_of_cases s Hwf Hpos) as [Hr Hc].
  unfold head_of at 1. cbn.
  destruct Hc as [Hc | Hc].
  - replace (UsedTail.tail s + (UsedTail.used s + len b))
      with (head_of s + len b) by lia.
    apply Z.mod_small. lia.
  - symmetry. apply (Z.mod_unique_pos _ _ 1); lia.
Qed.

(** Reading [k] cells of a ring from [t] leaves the cells that follow. *)
Lemma ring_drop (d : list Byte.byte) (t t' u k : nat) :
  (t < length d)%nat -> (k <= u)%nat -> (u <= length d)%nat ->
  (t' = t + k /\ t + k < length d)%nat \/ (t' + length d = t + k)%nat ->
  firstn (u - k) (skipn t' d ++ firstn t' d)
  = skipn k (firstn u (skipn t d ++ firstn t d)).
Proof.
  intros Ht Hk Hu Hc. rewrite skipn_firstn_comm.
  rewrite (skipn_app k), length_skipn.
  destruct Hc as [[-> Hlt] | Hw].
  - replace (k - (length d - t))%nat with O by lia.
    cbn [skipn]. rewrite skipn_skipn.
    replace (k + t)%nat with (t + k)%nat by lia.
    rewrite !(firstn_app (u - k)), length_skipn.
    f_equal. rewrite !firstn_firstn. f_equal. lia.
  - rewrite (skipn_all2 (n := k)) by (rewrite length_skipn; lia).
    cbn [app].
    replace (k - (length d - t))%nat with t' by lia.
    rewrite firstn_prefix by (rewrite length_skipn; lia).
    rewrite (skipn_firstn_comm t' t), firstn_firstn.
    f_equal. lia.
Qed.

Lemma contents_after_read (s : UsedTail.ringbuffer) (k : Z) :
  well_formed s -> 0 <= k <= UsedTail.used s ->
  contents (after_read s k) = skipn (Z.to_nat k) (contents s).
Proof.
  intros Hwf Hk. pose proof Hwf as (Hsz & Hlen & Hu & Ht).
  destruct (Z.eq_dec k 0) as [-> | N0].
  { now rewrite after_read_zero. }
  destruct Ht as [Ht | Ht]; [| lia].
  unfold contents, rotated, after_read, len in *.
  cbn [UsedTail.used UsedTail.tail UsedTail.data UsedTail.set_used
       UsedTail.set_tail].
  replace (Z.to_nat (UsedTail.used s - k))
    with (Z.to_nat (UsedTail.used s) - Z.to_nat k)%nat by lia.
  apply ring_drop; try lia.
  destruct (Z_lt_le_dec (UsedTail.tail s + k) (UsedTail.size s)).
  - left. rewrite Z.mod_small by lia. lia.
  - right.
    rewrite <- (Z.mod_unique_pos (UsedTail.tail s + k) (UsedTail.size s) 1
                  (UsedTail.tail s + k - UsedTail.size s)) by lia.
    lia.
Qed.

(** X8: [rb_clear] forgets the unread bytes and resets the lost counter,
    and makes the whole capacity usable again in one piece: any request of
    at most [size] bytes is then taken whole by [rb_write_nonblock] and
    read back unchanged by [rb_read_nonblock]. *)
Theorem clear_then_write_read_round_trip :
  forall (fuel : nat) (s : UsedTail.ringbuffer) (po : list Byte.byte),
    well_formed s -> 0 < len po <= UsedTail.size s ->
    exists s0 s1 s2 : UsedTail.ringbuffer,
      UsedTail.rb_clear (Some s) = Ok (Some s0)
      /\ UsedTail.rb_get_used (Some s0) = Ok 0
      /\ UsedTail.rb_get_free (Some s0) = Ok (UsedTail.size s)
      /\ UsedTail.rb_get_lost (Some s0) = 0
      /\ UsedTail.data s0 = UsedTail.data s
      /\ UsedTail.rb_write_nonblock (1 + fuel) (Some s0) po (len po)
         = Returned (len po, Some s1)
      /\ UsedTail.rb_read_nonblock (2 + fuel) (Some s1) (len po)
         = Returned (len po, po, Some s2)
      /\ UsedTail.used s2 = 0.
Proof.
  intros fuel s po Hwf Hpo. pose proof Hwf as (Hsz & Hlen & Hu & Ht).
  unfold INT_MAX in Hsz.
  set (s0 := UsedTail.set_lost (UsedTail.set_tail (UsedTail.set_used s 0) 0) 0).
  assert (Hwf0 : well_formed s0).
  { unfold well_formed, s0; cbn. unfold INT_MAX. repeat split; try lia. }
  assert (Hh0 : head_of s0 = 0).
  { unfold head_of, s0; cbn. first [reflexivity | apply Z.mod_0_l; lia]. }
  assert (Hc0 : contents s0 = []) by reflexivity.
  destruct (rb_write_nonblock_spec fuel s0 po (len po) Hwf0 eq_refl)
    as (_ & _ & _ & W & _).
  assert (Hwf1 : well_formed (after_write s0 po)).
  { apply after_write_well_formed; try assumption; cbn; lia. }
  destruct (rb_read_nonblock_spec fuel (after_write s0 po) (len po) Hwf1
              ltac:(lia)) as (_ & _ & R).
  exists s0, (after_write s0 po), (after_read (after_write s0 po) (len po)).
  split; [reflexivity |]. split; [reflexivity |]. split.
  { cbn. unfold UsedTail._free; cbn. rewrite Z.sub_0_r, size_t_small by lia.
    reflexivity. }
  split; [reflexivity |]. split; [reflexivity |]. split.
  { apply W; cbn; lia. }
  split; [| cbn; lia].
  rewrite R by (cbn; lia).
  rewrite contents_after_write by (assumption || (cbn; lia)).
  rewrite Hc0. cbn [app]. unfold len. rewrite Nat2Z.id, firstn_all.
  reflexivity.
Qed.

Lemma clear_then_write_read_round_trip_witness :
  well_formed s10
  /\ 0 < len bytes1234 <= UsedTail.size s10
  /\ exists s0 s1 s2 : UsedTail.ringbuffer,
      UsedTail.rb_clear (Some s10) = Ok (Some s0)
      /\ UsedTail.rb_write_nonblock 1 (Some s0) bytes1234 (len bytes1234)
         = Returned (len bytes1234, Some s1)
      /\ UsedTail.rb_read_nonblock 2 (Some s1) (len bytes1234)
         = Returned (len bytes1234, bytes1234, Some s2).
Proof.
  assert (H1 : well_formed s10) by exact well_formed_s10.
  assert (H2 : 0 < len bytes1234 <= UsedTail.size s10) by (cbn; lia).
  destruct (clear_then_write_read_round_trip 0 s10 bytes1234 H1 H2)
    as (s0 & s1 & s2 & A & _ & _ & _ & _ & B & C & _).
  split; [exact H1 |]. split; [exact H2 |].
  exists s0, s1, s2. split; [exact A |]. split; [exact B | exact C].
Defined.

(** X9: first in, first out across calls: two requests written one after
    the other, both fitting in the free space and before the end of the
    arena, are appended to the contents in that order, and a read of
    everything returns the old contents, then the first request, then the
    second, and empties the buffer. *)
Theorem fifo_across_two_writes :
  forall (fuel : nat) (s : UsedTail.ringbuffer) (a b : list Byte.byte),
    well_formed s -> 0 < len a -> 0 < len b ->
    len a + len b <= UsedTail.size s - UsedTail.used s ->
    head_of s + len a + len b <= UsedTail.size s ->
    exists s1 s2 s3 : UsedTail.ringbuffer,
      UsedTail.rb_write_nonblock (1 + fuel) (Some s) a (len a)
      = Returned (len a, Some s1)
      /\ UsedTail.rb_write_nonblock (1 + fuel) (Some s1) b (len b)
         = Returned (len b, Some s2)
      /\ contents s2 = contents s ++ a ++ b
      /\ UsedTail.rb_read_nonblock (2 + fuel) (Some s2)
           (UsedTail.used s + len a + len b)
         = Returned (UsedTail.used s + len a + len b,
                     contents s ++ a ++ b, Some s3)
      /\ UsedTail.used s3 = 0.
Proof.
  intros fuel s a b Hwf Ha Hb Hfree Hh.
  pose proof Hwf as (Hsz & Hlen & Hu & Ht). unfold INT_MAX in Hsz.
  assert (Hpos : 0 < UsedTail.size s) by lia.
  destruct (head_of_cases s Hwf Hpos) as [Hr _].
  assert (Hwf1 : well_formed (after_write s a))
    by (apply after_write_well_formed; assumption || lia).
  assert (Hh1 : head_of (after_write s a) = head_of s + len a)
    by (apply head_of_after_write; assumption || lia).
  assert (Hwf2 : well_formed (after_write (after_write s a) b)).
  { apply after_write_well_formed; try assumption; cbn; lia. }
  assert (Hc2 : contents (after_write (after_write s a) b)
                = contents s ++ a ++ b).
  { rewrite contents_after_write; try assumption; cbn; try lia.
    change (UsedTail.set_used _ _) with (after_write s a).
    rewrite contents_after_write by (assumption || lia).
    now rewrite <- app_assoc. }
  destruct (rb_write_nonblock_spec fuel s a (len a) Hwf eq_refl)
    as (_ & _ & _ & W1 & _).
  destruct (rb_write_nonblock_spec fuel (after_write s a) b (len b) Hwf1 eq_refl)
    as (_ & _ & _ & W2 & _).
  destruct (rb_read_nonblock_spec fuel (after_write (after_write s a) b)
              (UsedTail.used s + len a + len b) Hwf2 ltac:(lia))
    as (_ & _ & R).
  exists (after_write s a), (after_write (after_write s a) b),
         (after_read (after_write (after_write s a) b)
                     (UsedTail.used s + len a + len b)).
  split; [apply W1; lia |].
  split; [apply W2; cbn; lia |].
  split; [exact Hc2 |]. split; [| cbn; lia].
  rewrite R by (cbn; lia). rewrite Hc2.
  rewrite firstn_all2; [reflexivity |].
  assert (Hcs : (length (contents s) <= Z.to_nat (UsedTail.used s))%nat)
    by (unfold contents; apply firstn_le_length).
  unfold len in *. rewrite !length_app. lia.
Qed.

Lemma fifo_across_two_writes_witness :
  well_formed s10
  /\ exists s1 s2 s3 : UsedTail.ringbuffer,
      UsedTail.rb_write_nonblock 1 (Some s10) bytes12 (len bytes12)
      = Returned (len bytes12, Some s1)
      /\ UsedTail.rb_write_nonblock 1 (Some s1) bytes345 (len bytes345)
         = Returned (len bytes345, Some s2)
      /\ UsedTail.rb_read_nonblock 2 (Some s2)
           (UsedTail.used s10 + len bytes12 + len bytes345)
         = Returned (UsedTail.used s10 + len bytes12 + len bytes345,
                     contents s10 ++ bytes12 ++ bytes345, Some s3).
Proof.
  assert (H1 : well_formed s10) by exact well_formed_s10.
  destruct (fifo_across_two_writes 0 s10 bytes12 bytes345 H1
              ltac:(cbn; lia) ltac:(cbn; lia) ltac:(cbn; lia) ltac:(cbn; lia))
    as (s1 & s2 & s3 & A & B & _ & C & _).
  split; [exact H1 |]. exists s1, s2, s3.
  split; [exact A |]. split; [exact B | exact C].
Defined.

(** X10: two successive non-blocking reads of [n] and [m] bytes deliver
    together exactly what one read of [n + m] bytes delivers, and leave
    the buffer in the same state. *)
Theorem read_nonblock_splits :
  forall (fuel : nat) (s : UsedTail.ringbuffer) (n m : Z),
    well_formed s -> 0 <= n -> 0 <= m -> n + m <= UsedTail.used s ->
    exists (b1 b2 : list Byte.byte) (s1 s2 : UsedTail.ringbuffer),
      UsedTail.rb_read_nonblock (2 + fuel) (Some s) n
      = Returned (n, b1, Some s1)
      /\ UsedTail.rb_read_nonblock (2 + fuel) (Some s1) m
         = Returned (m, b2, Some s2)
      /\ UsedTail.rb_read_nonblock (2 + fuel) (Some s) (n + m)
         = Returned (n + m, b1 ++ b2, Some s2).
Proof.
  intros fuel s n m Hwf Hn Hm Hnm.
  pose proof Hwf as (Hsz & Hlen & Hu & Ht).
  assert (Hwf1 : well_formed (after_read s n))
    by (apply after_read_well_formed; assumption || lia).
  destruct (rb_read_nonblock_spec fuel s n Hwf Hn) as (_ & _ & R1).
  destruct (rb_read_nonblock_spec fuel (after_read s n) m Hwf1 Hm)
    as (_ & _ & R2).
  destruct (rb_read_nonblock_spec fuel s (n + m) Hwf ltac:(lia))
    as (_ & _ & R3).
  exists (firstn (Z.to_nat n) (contents s)),
         (firstn (Z.to_nat m) (contents (after_read s n))),
         (after_read s n), (after_read (after_read s n) m).
  split; [apply R1; lia |]. split; [apply R2; cbn; lia |].
  rewrite R3 by lia.
  rewrite contents_after_read by (assumption || lia).
  rewrite Z2Nat.inj_add, firstn_add by lia.
  destruct (Z.eq_dec (UsedTail.size s) 0) as [E0 | N0].
  - assert (n = 0) by lia. assert (m = 0) by lia. subst n m.
    cbn [Z.add]. now rewrite !after_read_zero.
  - now rewrite after_read_after_read.
Qed.

Lemma read_nonblock_splits_witness :
  well_formed s10
  /\ exists (b1 b2 : list Byte.byte) (s1 s2 : UsedTail.ringbuffer),
      UsedTail.rb_read_nonblock 2 (Some s10) 1 = Returned (1, b1, Some s1)
      /\ UsedTail.rb_read_nonblock 2 (Some s1) 3 = Returned (3, b2, Some s2)
      /\ UsedTail.rb_read_nonblock 2 (Some s10) (1 + 3)
         = Returned (1 + 3, b1 ++ b2, Some s2).
Proof.
  assert (H1 : well_formed s10) by exact well_formed_s10.
  split; [exact H1 |].
  apply (read_nonblock_splits 0 s10 1 3 H1); cbn; lia.
Defined.

(** ** Blocking writes under back-pressure *)

(** X11: a blocking write of more bytes than are free stores the bytes
    that fit, which fills the buffer, and then waits; in a single-threaded
    run nobody drains the buffer and the call never returns. *)
Theorem write_block_beyond_free_space_waits :
  forall (fuel : nat) (s : UsedTail.ringbuffer) (po : list Byte.byte),
    well_formed s -> 0 < UsedTail.size s ->
    UsedTail.size s - UsedTail.used s < len po < 2 ^ 64 ->
    head_of s + (UsedTail.size s - UsedTail.used s) <= UsedTail.size s ->
    let taken := slice po 0 (UsedTail.size s - UsedTail.used s) in
    UsedTail.rb_write_block single_threaded (1 + fuel) (Some s) po (len po)
    = Blocked (after_write s taken)
    /\ UsedTail.used (after_write s taken) = UsedTail.size s
    /\ contents (after_write s taken) = contents s ++ taken.
Proof.
  intros fuel s po Hwf Hpos Hco Hh taken.
  pose proof Hwf as (Hsz & Hlen & Hu & Ht). unfold INT_MAX in Hsz.
  set (fr := UsedTail.size s - UsedTail.used s) in *.
  assert (Hl : len taken = fr) by (apply len_slice; lia).
  split; [| split].
  - unfold UsedTail.rb_write_block.
    destruct (Z.eqb_spec (len po) 0); [lia |].
    cbn [Nat.add UsedTail.write_block_loop].
    destruct (Z.gtb_spec (len po) 0); [| lia].
    rewrite put_fits by (assumption || lia).
    replace (Z.min (len po) (UsedTail.size s - UsedTail.used s)) with fr by lia.
    rewrite (to_int_small fr) by lia.
    rewrite (size_t_small (len po - fr)) by lia.
    destruct (Z.gtb_spec (len po - fr) 0); [reflexivity | lia].
  - cbn. lia.
  - apply contents_after_write; assumption || lia.
Qed.

Lemma write_block_beyond_free_space_waits_witness :
  well_formed s10
  /\ UsedTail.rb_write_block single_threaded 1 (Some s10)
       (bytes1234 ++ bytes1234) (len (bytes1234 ++ bytes1234))
     = Blocked (after_write s10 (slice (bytes1234 ++ bytes1234) 0 6)).
Proof.
  assert (H1 : well_formed s10) by exact well_formed_s10.
  split; [exact H1 |].
  exact (proj1 (write_block_beyond_free_space_waits 0 s10
                  (bytes1234 ++ bytes1234) H1
                  ltac:(cbn; lia) ltac:(cbn; lia) ltac:(cbn; lia))).
Defined.

Lemma write_block_loop_drained (po : list Byte.byte) (fuel : nat) :
  forall (s : UsedTail.ringbuffer) (off co written : Z),
    well_formed s -> 0 < UsedTail.size s ->
    UsedTail.tail s = 0 -> UsedTail.used s = 0 ->
    0 <= off -> 0 < co -> off + co = len po ->
    0 <= written -> written + co <= INT_MAX ->
    co <= Z.of_nat fuel ->
    exists s' : UsedTail.ringbuffer,
      UsedTail.write_block_loop wake_drain fuel s po off co written
      = Returned (written + co, s')
      /\ UsedTail.size s' = UsedTail.size s
      /\ UsedTail.tail s' = 0
      /\ 0 < UsedTail.used s' <= UsedTail.size s
      /\ contents s' = slice po (len po - UsedTail.used s') (UsedTail.used s').
Proof.
  induction fuel as [| fuel IH];
    intros s off co written Hwf Hpos Ht Hu Hoff Hco Hlen Hw Hmax Hfuel;
    [lia |].
  pose proof Hwf as (Hsz & Hd & _ & _). unfold INT_MAX in *.
  assert (Hh : head_of s = 0).
  { unfold head_of. rewrite Ht, Hu. apply Z.mod_0_l. lia. }
  assert (Hc0 : contents s = []).
  { unfold contents. rewrite Hu. reflexivity. }
  cbn [UsedTail.write_block_loop].
  destruct (Z.gtb_spec co 0); [| lia].
  rewrite put_fits by (assumption || lia).
  rewrite Hu, Z.sub_0_r.
  set (c := Z.min co (UsedTail.size s)).
  assert (Hc : 0 < c <= UsedTail.size s /\ c <= co) by (subst c; lia).
  pose proof (len_slice po off c Hoff ltac:(lia) ltac:(lia)) as Hl.
  assert (Hwf1 : well_formed (after_write s (slice po off c)))
    by (apply after_write_well_formed; assumption || lia).
  assert (Hc1 : contents (after_write s (slice po off c)) = slice po off c).
  { rewrite contents_after_write by (assumption || lia).
    rewrite Hc0. reflexivity. }
  rewrite (to_int_small c) by lia.
  rewrite (size_t_small (co - c)) by lia.
  rewrite (to_int_small (written + c)) by lia.
  destruct (Z.gtb_spec (co - c) 0) as [Hmore | Hdone].
  - assert (Ec : c = UsedTail.size s) by lia.
    set (s1 := after_write s (slice po off c)) in *.
    assert (Hu1 : UsedTail.used s1 = UsedTail.size s) by (subst s1; cbn; lia).
    change (wake_drain s1) with (Some (after_read s1 (UsedTail.used s1))).
    cbv iota beta. rewrite Hu1.
    assert (Hwf2 : well_formed (after_read s1 (UsedTail.size s)))
      by (apply after_read_well_formed; [assumption | lia]).
    assert (Ht2 : UsedTail.tail (after_read s1 (UsedTail.size s)) = 0).
    { subst s1. cbn. rewrite Ht, Z.add_0_l. apply Z_mod_same_full. }
    assert (Hu2 : UsedTail.used (after_read s1 (UsedTail.size s)) = 0)
      by (cbn; lia).
    destruct (IH (after_read s1 (UsedTail.size s)) (off + c) (co - c)
                 (written + c) Hwf2 Hpos Ht2 Hu2
                 ltac:(lia) ltac:(lia) ltac:(lia) ltac:(lia) ltac:(lia)
                 ltac:(lia))
      as (s' & E & Es & Et & Eu & Ec').
    exists s'. rewrite E. split; [f_equal; f_equal; lia |].
    change (UsedTail.size (after_read s1 (UsedTail.size s)))
      with (UsedTail.size s) in *.
    repeat split; assumption || lia.
  - assert (Ec : c = co) by lia.
    replace (co - c) with 0 by lia. rewrite write_block_done.
    exists (after_write s (slice po off c)).
    split; [f_equal; f_equal; lia |].
    split; [reflexivity |]. split; [exact Ht |].
    split; [cbn; lia |].
    rewrite Hc1. cbn [after_write UsedTail.used UsedTail.set_used].
    rewrite Hu, Hl. f_equal; lia.
Qed.

(** X12: with a consumer that drains the whole buffer each time the
    writer waits, a blocking write on an empty buffer whose [tail] is 0
    completes for a request of any length (that fits an [int]): it returns
    the length of the request, and the buffer is left holding the last
    bytes of the request. *)
Theorem write_block_completes_when_drained :
  forall (fuel : nat) (s : UsedTail.ringbuffer) (po : list Byte.byte),
    well_formed s -> 0 < UsedTail.size s ->
    UsedTail.tail s = 0 -> UsedTail.used s = 0 ->
    0 < len po <= INT_MAX -> len po <= Z.of_nat fuel ->
    exists s' : UsedTail.ringbuffer,
      UsedTail.rb_write_block wake_drain fuel (Some s) po (len po)
      = Returned (len po, Some s')
      /\ UsedTail.size s' = UsedTail.size s
      /\ 0 < UsedTail.used s' <= UsedTail.size s
      /\ contents s' = slice po (len po - UsedTail.used s') (UsedTail.used s').
Proof.
  intros fuel s po Hwf Hpos Ht Hu Hco Hfuel.
  unfold UsedTail.rb_write_block.
  destruct (Z.eqb_spec (len po) 0); [lia |].
  destruct (write_block_loop_drained po fuel s 0 (len po) 0 Hwf Hpos Ht Hu
              ltac:(lia) ltac:(lia) ltac:(lia) ltac:(lia) ltac:(lia) Hfuel)
    as (s' & E & Es & _ & Eu & Ec).
  exists s'. rewrite E. repeat split; assumption || lia.
Qed.

Lemma write_block_completes_when_drained_witness :
  well_formed (fresh 4)
  /\ exists s' : UsedTail.ringbuffer,
      UsedTail.rb_write_block wake_drain 10 (Some (fresh 4))
        (bytes1234 ++ bytes1234 ++ bytes12)
        (len (bytes1234 ++ bytes1234 ++ bytes12))
      = Returned (len (bytes1234 ++ bytes1234 ++ bytes12), Some s')
      /\ contents s'
         = slice (bytes1234 ++ bytes1234 ++ bytes12)
                 (len (bytes1234 ++ bytes1234 ++ bytes12) - UsedTail.used s')
                 (UsedTail.used s').
Proof.
  assert (H1 : well_formed (fresh 4)).
  { unfold well_formed, INT_MAX, len; cbn. repeat split; lia. }
  split; [exact H1 |].
  destruct (write_block_completes_when_drained 10 (fresh 4)
              (bytes1234 ++ bytes1234 ++ bytes12) H1
              ltac:(cbn; lia) eq_refl eq_refl
              ltac:(unfold INT_MAX; cbn; lia) ltac:(cbn; lia))
    as (s' & E & _ & _ & Ec).
  exists s'. split; [exact E | exact Ec].
Defined.

(** X13: every write that would have to wrap overruns the arena: when the
    request fits in the free space but not between the write position and
    the end of the arena, [rb_write_block] and [rb_write_nonblock] both
    end in the single [memcpy] of [_put] running past the arena. *)
Theorem wrapping_write_overruns :
  forall (wake : UsedTail.ringbuffer -> option UsedTail.ringbuffer)
         (fuel : nat) (s : UsedTail.ringbuffer) (po : list Byte.byte),
    well_formed s ->
    0 < len po <= UsedTail.size s - UsedTail.used s ->
    UsedTail.size s < head_of s + len po ->
    UsedTail.rb_write_block wake (1 + fuel) (Some s) po (len po)
    = Crashed OutOfBounds
    /\ UsedTail.rb_write_nonblock (1 + fuel) (Some s) po (len po)
       = Crashed OutOfBounds.
Proof.
  intros wake fuel s po Hwf Hco Hh.
  pose proof Hwf as (Hsz & Hlen & Hu & Ht). unfold INT_MAX in Hsz.
  assert (Hput : UsedTail._put s po 0 (len po) = Crash OutOfBounds)
    by (apply put_overrun; assumption || lia).
  split.
  - unfold UsedTail.rb_write_block.
    destruct (Z.eqb_spec (len po) 0); [lia |].
    cbn [Nat.add UsedTail.write_block_loop].
    destruct (Z.gtb_spec (len po) 0); [| lia].
    now rewrite Hput.
  - unfold UsedTail.rb_write_nonblock, UsedTail._free.
    rewrite (size_t_small (UsedTail.size s - UsedTail.used s)) by lia.
    destruct (Z.gtb_spec (len po) (UsedTail.size s)); [lia |].
    destruct (Z.leb_spec (len po) (UsedTail.size s - UsedTail.used s)); [| lia].
    cbn [Nat.add UsedTail.write_nonblock_loop].
    destruct (Z.gtb_spec (len po) 0); [| lia].
    now rewrite Hput.
Qed.

Lemma wrapping_write_overruns_witness :
  well_formed (after_read s10 4)
  /\ UsedTail.rb_write_nonblock 1 (Some (after_read s10 4))
       (bytes1234 ++ bytes1234) (len (bytes1234 ++ bytes1234))
     = Crashed OutOfBounds.
Proof.
  assert (H1 : well_formed (after_read s10 4)).
  { apply after_read_well_formed; [exact well_formed_s10 | cbn; lia]. }
  split; [exact H1 |].
  exact (proj2 (wrapping_write_overruns single_threaded 0 (after_read s10 4)
                  (bytes1234 ++ bytes1234) H1
                  ltac:(cbn; lia) ltac:(cbn; lia))).
Defined.

(** The theorem [round_trip_without_wrap] on [fresh 4] and [bytes1234]. *)
Lemma round_trip_without_wrap_witness :
  well_formed (fresh 4)
  /\ UsedTail.rb_write_block single_threaded 1 (Some (fresh 4)) bytes1234
       (len bytes1234)
     = Returned (len bytes1234, Some (after_write (fresh 4) bytes1234))
  /\ UsedTail.rb_read_block single_threaded 3
       (Some (after_write (fresh 4) bytes1234)) (len bytes1234)
     = Returned (len bytes1234, bytes1234,
                 Some (after_read (after_write (fresh 4) bytes1234)
                                  (len bytes1234))).
Proof.
  assert (H1 : well_formed (fresh 4)).
  { unfold well_formed, INT_MAX, len; cbn. repeat split; lia. }
  split; [exact H1 |].
  exact (round_trip_without_wrap single_threaded 0 0 (fresh 4) bytes1234 H1
           eq_refl ltac:(cbn; lia) ltac:(cbn; lia)).
Defined.

(** ** src/ringbuffer.c: what its cursors can and cannot express *)

(** X14: on a buffer whose [size] field is the length of its arena and
    whose cursors are inside it, [_avail] is at least 1, so
    [rb_write_asy] never finds such a buffer full.  A request of at least
    [_avail] bytes is cut to [_avail] bytes, and storing them moves [head]
    onto [tail]: the buffer then reads as empty, [rb_read_asy] delivers
    nothing, and the bytes just written and those that were unread are
    out of reach. *)
Theorem ht_write_of_avail_bytes_empties_buffer :
  forall (fuel : nat) (s : HeadTail.ringbuffer) (po : list Byte.byte) (co : Z),
    ht_well_formed s -> HeadTail._avail s <= len po -> 0 <= co ->
    exists s' : HeadTail.ringbuffer,
      HeadTail.rb_write_asy (Some s) po (len po)
      = Ok (HeadTail._avail s, Some s')
      /\ 0 < HeadTail._avail s
      /\ HeadTail.head s' = HeadTail.tail s'
      /\ HeadTail._length s' = 0
      /\ HeadTail.rb_read_asy fuel (Some s') co = Returned (0, [], Some s').
Proof.
  intros fuel s po co Hwf Hpo Hco.
  pose proof (ht_avail_range s Hwf) as Ha.
  destruct (rb_write_asy_clamps s po (len po) Hwf eq_refl)
    as (s' & E & Hh & Ht & Hs & _).
  pose proof Hwf as (Hsz & Hd & Hhd & Htl). unfold INT_MAX in Hsz.
  replace (Z.min (len po) (HeadTail._avail s)) with (HeadTail._avail s)
    in * by lia.
  assert (Hht : HeadTail.head s' = HeadTail.tail s').
  { rewrite Hh, Ht. unfold HeadTail._avail.
    destruct (Z.leb_spec (HeadTail.tail s) (HeadTail.head s)).
    - rewrite (size_t_small (HeadTail.head s - HeadTail.tail s)) by lia.
      rewrite size_t_small by lia.
      symmetry. apply (Z.mod_unique_pos _ _ 1); lia.
    - rewrite size_t_small by lia.
      replace (HeadTail.head s + (HeadTail.tail s - HeadTail.head s))
        with (HeadTail.tail s) by lia.
      apply Z.mod_small. lia. }
  assert (Hl : HeadTail._length s' = 0).
  { unfold HeadTail._length. rewrite Hht.
    destruct (Z.leb_spec (HeadTail.tail s') (HeadTail.tail s')); [| lia].
    now rewrite Z.sub_diag. }
  exists s'. split; [exact E |]. split; [lia |]. split; [exact Hht |].
  split; [exact Hl |].
  unfold HeadTail.rb_read_asy, HeadTail._rb_read. rewrite Hl, clamp_min.
  replace (Z.min co 0) with 0 by lia.
  destruct fuel; reflexivity.
Qed.

Lemma ht_write_of_avail_bytes_empties_buffer_witness :
  ht_well_formed ht4
  /\ exists s' : HeadTail.ringbuffer,
      HeadTail.rb_write_asy (Some ht4) bytes345 (len bytes345)
      = Ok (HeadTail._avail ht4, Some s')
      /\ HeadTail.rb_read_asy 1 (Some s') 4 = Returned (0, [], Some s').
Proof.
  assert (H1 : ht_well_formed ht4) by exact ht_well_formed_ht4.
  destruct (ht_write_of_avail_bytes_empties_buffer 1 ht4 bytes345 4 H1
              ltac:(cbn; lia) ltac:(lia))
    as (s' & A & _ & _ & _ & B).
  split; [exact H1 |]. exists s'. split; [exact A | exact B].
Defined.

(** X15: when the unread bytes wrap ([head < tail]), [_get] copies from
    the start of the arena instead of from [tail]: a read of at most
    [head] bytes delivers [data[0 .. co)] and sets [tail] to [co], so the
    oldest bytes, those from [tail] to the end of the arena, are skipped
    and never delivered. *)
Theorem ht_wrapped_read_starts_at_arena_start :
  forall (fuel : nat) (s : HeadTail.ringbuffer) (co : Z),
    ht_well_formed s -> HeadTail.head s < HeadTail.tail s ->
    0 < co <= HeadTail.head s ->
    HeadTail.rb_read_asy (1 + fuel) (Some s) co
    = Returned (HeadTail.size s - (HeadTail.tail s - HeadTail.head s),
                slice (HeadTail.data s) 0 co,
                Some (HeadTail.set_tail s co)).
Proof.
  intros fuel s co (Hsz & Hlen & Hh & Ht) Hw Hco. unfold INT_MAX in Hsz.
  unfold HeadTail.rb_read_asy, HeadTail._rb_read, HeadTail._length.
  destruct (Z.leb_spec (HeadTail.tail s) (HeadTail.head s)); [lia |].
  rewrite (size_t_small (HeadTail.tail s - HeadTail.head s)) by lia.
  rewrite (size_t_small (HeadTail.size s - _)) by lia.
  rewrite clamp_min.
  replace (Z.min co (HeadTail.size s - (HeadTail.tail s - HeadTail.head s)))
    with co by lia.
  cbn [Nat.add HeadTail.rb_read_loop].
  destruct (Z.gtb_spec co 0); [| lia].
  unfold HeadTail._get.
  destruct (Z.leb_spec (HeadTail.tail s) (HeadTail.head s)); [lia |].
  rewrite clamp_min. replace (Z.min co (HeadTail.head s)) with co by lia.
  rewrite load_ok by lia. cbn [bind].
  replace (co - co) with 0 by lia. rewrite (size_t_small 0) by lia.
  rewrite to_int_small by lia.
  destruct fuel; reflexivity.
Qed.

Lemma ht_wrapped_read_starts_at_arena_start_witness :
  ht_well_formed ht4_wrapped
  /\ HeadTail.rb_read_asy 1 (Some ht4_wrapped) 1
     = Returned (2, [Byte.x05], Some (HeadTail.set_tail ht4_wrapped 1)).
Proof.
  assert (H1 : ht_well_formed ht4_wrapped).
  { unfold ht_well_formed, INT_MAX, len; cbn. repeat split; lia. }
  split; [exact H1 |].
  exact (ht_wrapped_read_starts_at_arena_start 0 ht4_wrapped 1 H1
           ltac:(cbn; lia) ltac:(cbn; lia)).
Defined.

Lemma ht_read_loop_spins (fuel : nat) :
  forall (s : HeadTail.ringbuffer) (c : Z) (out : list Byte.byte),
    HeadTail.head s = 0 -> 0 <= HeadTail.tail s -> 0 < c < 2 ^ 64 ->
    HeadTail.rb_read_loop fuel s c out = OutOfFuel.
Proof.
  induction fuel as [| fuel IH]; intros s c out Hh Ht Hc;
    cbn [HeadTail.rb_read_loop];
    (destruct (Z.gtb_spec c 0); [| lia]); [reflexivity |].
  pose proof (len_nonneg (HeadTail.data s)) as Hl.
  unfold HeadTail._get. rewrite Hh, !clamp_min.
  destruct (Z.leb_spec (HeadTail.tail s) 0).
  - assert (E : HeadTail.tail s = 0) by lia. rewrite E.
    change (size_t (0 - 0)) with 0.
    replace (Z.min c 0) with 0 by lia.
    rewrite load_ok by lia. cbn [bind].
    rewrite (size_t_small (c - 0)) by lia.
    apply IH; cbn; lia || assumption.
  - replace (Z.min c 0) with 0 by lia.
    rewrite load_ok by lia. cbn [bind].
    rewrite (size_t_small (c - 0)) by lia.
    apply IH; cbn; lia || assumption.
Qed.

(** X16: when the unread bytes end exactly at the end of the arena
    ([head = 0 < tail]), a read of at least one byte never returns:
    [_get] copies 0 bytes each time and the loop of [_rb_read], which runs
    with the spinlock held, goes on for ever. *)
Theorem ht_read_never_returns_when_head_is_zero :
  forall (fuel : nat) (s : HeadTail.ringbuffer) (co : Z),
    ht_well_formed s -> HeadTail.head s = 0 -> 0 < HeadTail.tail s ->
    0 < co < 2 ^ 64 ->
    HeadTail.rb_read_asy fuel (Some s) co = OutOfFuel.
Proof.
  intros fuel s co (Hsz & Hlen & Hh & Ht) Hh0 Hw Hco. unfold INT_MAX in Hsz.
  unfold HeadTail.rb_read_asy, HeadTail._rb_read, HeadTail._length.
  destruct (Z.leb_spec (HeadTail.tail s) (HeadTail.head s)); [lia |].
  rewrite (size_t_small (HeadTail.tail s - HeadTail.head s)) by lia.
  rewrite (size_t_small (HeadTail.size s - _)) by lia.
  rewrite clamp_min.
  rewrite ht_read_loop_spins; [reflexivity | exact Hh0 | lia | lia].
Qed.

Lemma ht_read_never_returns_when_head_is_zero_witness :
  ht_well_formed ht4_head0
  /\ HeadTail.rb_read_asy 1000 (Some ht4_head0) 1 = OutOfFuel
  /\ exists h1 h2 : HeadTail.handle,
      HeadTail.rb_write_asy (snd (fst (HeadTail.rb_init env_junk4 None 4)))
        [Byte.x01; Byte.x02; Byte.x03] 3 = Ok (3, h1)
      /\ HeadTail.rb_read_asy 1 h1 3
         = Returned (3, [Byte.x01; Byte.x02; Byte.x03], h2)
      /\ HeadTail.rb_write_asy h2 [Byte.x04] 1 = Ok (1, Some ht4_head0).
Proof.
  assert (H1 : ht_well_formed ht4_head0).
  { unfold ht_well_formed, INT_MAX, len; cbn. repeat split; lia. }
  split; [exact H1 |]. split.
  - exact (ht_read_never_returns_when_head_is_zero 1000 ht4_head0 1 H1
             eq_refl ltac:(cbn; lia) ltac:(lia)).
  - do 2 eexists. split; [reflexivity |]. split; reflexivity.
Defined.

(** ** src/ringbuffer.c: transfers while the bytes do not wrap *)

Lemma ht_put_fits (s : HeadTail.ringbuffer) (src : list Byte.byte) (off c : Z) :
  ht_well_formed s -> 0 < c -> HeadTail.head s + c < HeadTail.size s ->
  0 <= off -> off + c <= len src ->
  HeadTail._put s src off c = Ok (ht_after_write s (slice src off c)).
Proof.
  intros (Hsz & Hlen & Hh & Ht) Hc Hfit Hoff Hsrc. unfold INT_MAX in Hsz.
  unfold HeadTail._put.
  rewrite (size_t_small (HeadTail.head s + c)) by lia.
  destruct (Z.ltb_spec (HeadTail.head s + c) (HeadTail.size s)); [| lia].
  pose proof (len_slice src off c Hoff ltac:(lia) Hsrc) as Hl.
  unfold memcpy. rewrite load_ok by lia. cbn [bind].
  rewrite store_ok by lia. cbn [bind].
  unfold ht_after_write. rewrite Hl. reflexivity.
Qed.

Lemma ht_rb_write_fits (s : HeadTail.ringbuffer) (po : list Byte.byte) :
  ht_well_formed s -> HeadTail.tail s <= HeadTail.head s ->
  0 < len po -> HeadTail.head s + len po < HeadTail.size s ->
  HeadTail._rb_write s po 0 (len po) = Ok (len po, ht_after_write s po).
Proof.
  intros Hwf Hth Hpo Hfit.
  pose proof Hwf as (Hsz & Hlen & Hh & Ht). unfold INT_MAX in Hsz.
  unfold HeadTail._rb_write, HeadTail._avail.
  destruct (Z.leb_spec (HeadTail.tail s) (HeadTail.head s)); [| lia].
  rewrite (size_t_small (HeadTail.head s - HeadTail.tail s)) by lia.
  rewrite (size_t_small (HeadTail.size s - _)) by lia.
  rewrite clamp_min.
  replace (Z.min (len po) (HeadTail.size s - (HeadTail.head s - HeadTail.tail s)))
    with (len po) by lia.
  destruct (Z.gtb_spec (len po) 0); [| lia].
  rewrite ht_put_fits by (assumption || lia). cbn [bind].
  rewrite to_int_small by lia. now rewrite slice_all.
Qed.

Lemma ht_after_write_well_formed (s : HeadTail.ringbuffer) (b : list Byte.byte) :
  ht_well_formed s -> HeadTail.head s + len b < HeadTail.size s ->
  ht_well_formed (ht_after_write s b).
Proof.
  intros (Hsz & Hlen & Hh & Ht) Hfit. pose proof (len_nonneg b) as Hb.
  unfold ht_well_formed, ht_after_write, len in *. cbn.
  split; [exact Hsz |]. split; [| split; lia].
  rewrite !length_app, length_firstn, length_skipn. lia.
Qed.

Lemma ht_contents_after_write (s : HeadTail.ringbuffer) (b : list Byte.byte) :
  ht_well_formed s -> HeadTail.tail s <= HeadTail.head s ->
  HeadTail.head s + len b < HeadTail.size s ->
  ht_contents (ht_after_write s b) = ht_contents s ++ b.
Proof.
  intros (Hsz & Hlen & Hh & Ht) Hth Hfit. pose proof (len_nonneg b) as Hb.
  unfold ht_contents, ht_after_write, slice, len in *. cbn.
  set (d := HeadTail.data s) in *.
  set (h := Z.to_nat (HeadTail.head s)).
  set (t := Z.to_nat (HeadTail.tail s)).
  replace (Z.to_nat (HeadTail.head s + Z.of_nat (length b) - HeadTail.tail s))
    with ((h - t) + length b)%nat by lia.
  replace (Z.to_nat (HeadTail.head s - HeadTail.tail s)) with (h - t)%nat by lia.
  rewrite skipn_app, length_firstn.
  replace (t - Nat.min h (length d))%nat with O by lia.
  cbn [skipn]. rewrite skipn_firstn_comm.
  rewrite app_assoc. apply firstn_exact.
  rewrite length_app, length_firstn, length_skipn. lia.
Qed.

Lemma ht_rb_read_clamps (fuel : nat) (s : HeadTail.ringbuffer) (co : Z) :
  ht_well_formed s -> HeadTail.tail s < HeadTail.head s -> 0 < co < 2 ^ 64 ->
  HeadTail._rb_read (1 + fuel) s co
  = Returned (HeadTail.head s - HeadTail.tail s,
              slice (HeadTail.data s) (HeadTail.tail s)
                    (Z.min co (HeadTail.head s - HeadTail.tail s)),
              HeadTail.set_tail s
                (HeadTail.tail s
                 + Z.min co (HeadTail.head s - HeadTail.tail s))).
Proof.
  intros Hwf Hne Hco.
  pose proof (rb_read_asy_clamps fuel s co Hwf Hne Hco) as H.
  unfold HeadTail.rb_read_asy in H. cbv zeta in H.
  destruct (HeadTail._rb_read (1 + fuel) s co) as [[[r b] s1] | | |];
    try discriminate H.
  injection H as -> -> ->. reflexivity.
Qed.

(** X17: first in, first out in src/ringbuffer.c while nothing wraps:
    [rb_write_asy] of a request that fits before the end of the arena takes
    it whole and appends it to the unread bytes, and [rb_read_asy] of
    everything returns the old bytes followed by the request and leaves
    the buffer empty. *)
Theorem ht_asy_round_trip_without_wrap :
  forall (fuel : nat) (s : HeadTail.ringbuffer) (po : list Byte.byte),
    ht_well_formed s -> HeadTail.tail s <= HeadTail.head s ->
    0 < len po -> HeadTail.head s + len po < HeadTail.size s ->
    let n := HeadTail.head s - HeadTail.tail s + len po in
    exists s2 : HeadTail.ringbuffer,
      HeadTail.rb_write_asy (Some s) po (len po)
      = Ok (len po, Some (ht_after_write s po))
      /\ ht_contents (ht_after_write s po) = ht_contents s ++ po
      /\ HeadTail.rb_read_asy (1 + fuel) (Some (ht_after_write s po)) n
         = Returned (n, ht_contents s ++ po, Some s2)
      /\ HeadTail.tail s2 = HeadTail.head s2.
Proof.
  intros fuel s po Hwf Hth Hpo Hfit n.
  pose proof Hwf as (Hsz & Hlen & Hh & Ht). unfold INT_MAX in Hsz.
  pose proof (ht_after_write_well_formed s po Hwf Hfit) as Hwf1.
  pose proof (ht_contents_after_write s po Hwf Hth Hfit) as Hc.
  eexists. split; [| split; [exact Hc | split]].
  - unfold HeadTail.rb_write_asy.
    rewrite ht_rb_write_fits by assumption. reflexivity.
  - rewrite rb_read_asy_clamps; try assumption; cbn; try lia.
    replace (Z.min n (HeadTail.head s + len po - HeadTail.tail s))
      with n by (subst n; lia).
    rewrite <- Hc. unfold ht_contents. cbn.
    replace (HeadTail.head s + len po - HeadTail.tail s) with n
      by (subst n; lia).
    reflexivity.
  - cbn. subst n. lia.
Qed.

Lemma ht_asy_round_trip_without_wrap_witness :
  ht_well_formed ht8
  /\ exists s2 : HeadTail.ringbuffer,
      HeadTail.rb_write_asy (Some ht8) bytes345 (len bytes345)
      = Ok (len bytes345, Some (ht_after_write ht8 bytes345))
      /\ HeadTail.rb_read_asy 1 (Some (ht_after_write ht8 bytes345))
           (HeadTail.head ht8 - HeadTail.tail ht8 + len bytes345)
         = Returned (HeadTail.head ht8 - HeadTail.tail ht8 + len bytes345,
                     ht_contents ht8 ++ bytes345, Some s2).
Proof.
  assert (H1 : ht_well_formed ht8).
  { unfold ht_well_formed, INT_MAX, len; cbn. repeat split; lia. }
  destruct (ht_asy_round_trip_without_wrap 0 ht8 bytes345 H1
              ltac:(cbn; lia) ltac:(cbn; lia) ltac:(cbn; lia))
    as (s2 & A & _ & B & _).
  split; [exact H1 |]. exists s2. split; [exact A | exact B].
Defined.

Section Syn.

Variable wake : HeadTail.ringbuffer -> option HeadTail.ringbuffer.

Variable yield : HeadTail.ringbuffer -> HeadTail.ringbuffer.

(** X18: the synchronous pair while nothing wraps: [rb_write_syn] of a
    request that fits before the end of the arena stores it whole and
    returns its length without waiting, and [rb_read_syn] of at most
    the number of unread bytes delivers the oldest bytes and returns
    without waiting, whatever the other threads would do. *)
Theorem ht_syn_round_trip_without_wrap :
  forall (fuel : nat) (s : HeadTail.ringbuffer) (po : list Byte.byte) (k : Z),
    ht_well_formed s -> HeadTail.tail s <= HeadTail.head s ->
    0 < len po -> HeadTail.head s + len po < HeadTail.size s ->
    0 < k <= HeadTail.head s - HeadTail.tail s + len po ->
    HeadTail.rb_write_syn wake yield (1 + fuel) (Some s) po (len po)
    = Returned (len po, Some (ht_after_write s po))
    /\ HeadTail.rb_read_syn wake yield (1 + fuel)
         (Some (ht_after_write s po)) k
       = Returned (k, firstn (Z.to_nat k) (ht_contents s ++ po),
                   Some (HeadTail.set_tail (ht_after_write s po)
                           (HeadTail.tail s + k))).
Proof.
  intros fuel s po k Hwf Hth Hpo Hfit Hk.
  pose proof Hwf as (Hsz & Hlen & Hh & Ht). unfold INT_MAX in Hsz.
  pose proof (ht_after_write_well_formed s po Hwf Hfit) as Hwf1.
  pose proof (ht_contents_after_write s po Hwf Hth Hfit) as Hc.
  split.
  - unfold HeadTail.rb_write_syn.
    rewrite (to_int_small (len po)) by lia.
    cbn [Nat.add HeadTail.write_syn_loop].
    destruct (Z.gtb_spec (len po) 0); [| lia]. cbn [Z.geb Z.compare andb].
    rewrite (size_t_small (len po)) by lia.
    rewrite ht_rb_write_fits by assumption.
    destruct (Z.gtb_spec (len po) 0); [| lia].
    replace (len po - len po) with 0 by lia.
    change (to_int 0) with 0. cbn [Z.gtb Z.compare].
    assert (Hdone : forall f,
               HeadTail.write_syn_loop wake yield f (ht_after_write s po) po
                 (0 + len po) (len po) 0
               = Returned (len po, ht_after_write s po)).
    { intros f. destruct f; cbn [HeadTail.write_syn_loop];
        rewrite andb_false_r; reflexivity. }
    rewrite Hdone.
    destruct (Z.geb_spec (len po) 0); [reflexivity | lia].
  - unfold HeadTail.rb_read_syn.
    rewrite (to_int_small k) by lia.
    cbn [Nat.add HeadTail.read_syn_loop].
    destruct (Z.gtb_spec k 0); [| lia]. cbn [Z.geb Z.compare andb].
    rewrite (size_t_small k) by lia.
    change (S fuel) with (1 + fuel)%nat.
    rewrite ht_rb_read_clamps by (assumption || (cbn; lia)).
    cbn [ht_after_write HeadTail.head HeadTail.tail HeadTail.set_head
         HeadTail.set_data HeadTail.data].
    set (held := HeadTail.head s + len po - HeadTail.tail s).
    replace (Z.min k held) with k by (subst held; lia).
    destruct (Z.gtb_spec held 0); [| subst held; lia].
    rewrite (to_int_small (k - held)) by (subst held; lia).
    destruct (Z.gtb_spec (k - held) 0); [subst held; lia |].
    assert (Hdone : forall f rb out,
               HeadTail.read_syn_loop wake yield f rb held (k - held) out
               = Returned (held, out, rb)).
    { intros f rb out. destruct f; cbn [HeadTail.read_syn_loop];
        (destruct (Z.gtb_spec (k - held) 0); [lia |]);
        rewrite andb_false_r; reflexivity. }
    rewrite Hdone.
    destruct (Z.geb_spec held 0); [| lia].
    cbn [app]. rewrite <- Hc. unfold ht_contents, slice. cbn.
    rewrite firstn_firstn.
    replace (Nat.min (Z.to_nat k)
               (Z.to_nat (HeadTail.head s + len po - HeadTail.tail s)))
      with (Z.to_nat k) by (subst held; lia).
    reflexivity.
Qed.

(** A pass of [rb_read_syn] on an empty buffer reads nothing and does not
    wait; the buffer the next pass finds is the one the other threads
    left after the spinlock was released. *)
Lemma ht_read_syn_empty_pass (fuel : nat) (s : HeadTail.ringbuffer)
    (co : Z) (out : list Byte.byte) :
  HeadTail.head s = HeadTail.tail s -> 0 < co ->
  HeadTail.read_syn_loop wake yield (S fuel) s 0 co out
  = HeadTail.read_syn_loop wake yield fuel (yield s) 0 co out.
Proof.
  intros Hempty Hco. cbn [HeadTail.read_syn_loop].
  destruct (Z.gtb_spec co 0); [| lia]. cbn [Z.geb Z.compare andb].
  unfold HeadTail._rb_read, HeadTail._length. rewrite Hempty.
  destruct (Z.leb_spec (HeadTail.tail s) (HeadTail.tail s)); [| lia].
  rewrite Z.sub_diag. change (size_t 0) with 0.
  rewrite clamp_min.
  pose proof (size_t_range co).
  replace (Z.min (size_t co) 0) with 0 by lia.
  destruct fuel; reflexivity.
Qed.

Lemma ht_read_syn_loop_spins (fuel : nat) :
  (forall a : HeadTail.ringbuffer,
      HeadTail.head a = HeadTail.tail a ->
      HeadTail.head (yield a) = HeadTail.tail (yield a)) ->
  forall (s : HeadTail.ringbuffer) (co : Z) (out : list Byte.byte),
    HeadTail.head s = HeadTail.tail s -> 0 < co ->
    HeadTail.read_syn_loop wake yield fuel s 0 co out = OutOfFuel.
Proof.
  intros Hy. induction fuel as [| f IH]; intros s co out Hempty Hco.
  - cbn [HeadTail.read_syn_loop].
    destruct (Z.gtb_spec co 0); [reflexivity | lia].
  - rewrite ht_read_syn_empty_pass by assumption.
    apply IH; [apply Hy; exact Hempty | exact Hco].
Qed.

(** X19: [rb_read_syn] busy-waits on an empty buffer.  A pass that finds
    nothing skips the [_cond_wait], which is only reached after a pass
    that read something, and the loop starts again with the buffer the
    other threads left when the spinlock was released.  As long as they
    leave the buffer empty the call goes round without ever waiting or
    returning; once another thread has stored at least [co] bytes without
    wrapping, the next pass delivers the [co] oldest of them and the call
    returns [co]. *)
Theorem ht_read_syn_spins_on_empty_buffer :
  forall (fuel : nat) (s : HeadTail.ringbuffer) (co : Z),
    HeadTail.head s = HeadTail.tail s -> 0 < co <= INT_MAX ->
    ((forall a : HeadTail.ringbuffer,
         HeadTail.head a = HeadTail.tail a ->
         HeadTail.head (yield a) = HeadTail.tail (yield a)) ->
     HeadTail.rb_read_syn wake yield fuel (Some s) co = OutOfFuel)
    /\ (ht_well_formed (yield s) ->
        co <= HeadTail.head (yield s) - HeadTail.tail (yield s) ->
        HeadTail.rb_read_syn wake yield (2 + fuel) (Some s) co
        = Returned (co,
                    slice (HeadTail.data (yield s)) (HeadTail.tail (yield s))
                      co,
                    Some (HeadTail.set_tail (yield s)
                            (HeadTail.tail (yield s) + co)))).
Proof.
  intros fuel s co Hempty Hco. unfold INT_MAX in Hco.
  unfold HeadTail.rb_read_syn. rewrite (to_int_small co) by lia.
  split.
  - intros Hy.
    now rewrite ht_read_syn_loop_spins by (assumption || lia).
  - intros Hwf1 Hheld.
    pose proof Hwf1 as (Hsz & Hlen & Hh & Ht). unfold INT_MAX in Hsz.
    change (2 + fuel)%nat with (S (S fuel)).
    rewrite ht_read_syn_empty_pass by (assumption || lia).
    set (s1 := yield s) in *.
    cbn [HeadTail.read_syn_loop].
    destruct (Z.gtb_spec co 0); [| lia]. cbn [Z.geb Z.compare andb].
    rewrite (size_t_small co) by lia.
    change (S fuel) with (1 + fuel)%nat.
    rewrite ht_rb_read_clamps by (assumption || lia).
    set (held := HeadTail.head s1 - HeadTail.tail s1) in *.
    replace (Z.min co held) with co by lia.
    destruct (Z.gtb_spec held 0); [| lia].
    rewrite (to_int_small (co - held)) by lia.
    destruct (Z.gtb_spec (co - held) 0); [lia |].
    assert (Hdone : forall f rb out,
               HeadTail.read_syn_loop wake yield f rb held (co - held) out
               = Returned (held, out, rb)).
    { intros f rb out. destruct f; cbn [HeadTail.read_syn_loop];
        (destruct (Z.gtb_spec (co - held) 0); [lia |]);
        rewrite andb_false_r; reflexivity. }
    rewrite Hdone.
    destruct (Z.geb_spec held 0); [reflexivity | lia].
Qed.

End Syn.

(** X20: a synchronous write of more than [_avail] bytes cannot complete.
    Its first pass stores [_avail] bytes, which moves [head] onto [tail],
    and the writer waits for a reader; but the buffer now reads as empty,
    so a reader calling [rb_read_syn] spins without ever reading or
    signalling for as long as no other thread stores data, and run alone
    the writer stays blocked. *)
Theorem ht_write_syn_beyond_avail_cannot_complete :
  forall (wake : HeadTail.ringbuffer -> option HeadTail.ringbuffer)
         (yield_w yield_r : HeadTail.ringbuffer -> HeadTail.ringbuffer)
         (fuel fuel' : nat) (s : HeadTail.ringbuffer) (po : list Byte.byte)
         (k : Z),
    ht_well_formed s -> HeadTail._avail s < len po <= INT_MAX ->
    0 < k <= INT_MAX ->
    (forall a : HeadTail.ringbuffer,
        HeadTail.head a = HeadTail.tail a ->
        HeadTail.head (yield_r a) = HeadTail.tail (yield_r a)) ->
    exists s' : HeadTail.ringbuffer,
      HeadTail.rb_write_syn single_threaded yield_w (1 + fuel) (Some s) po
        (len po)
      = Blocked s'
      /\ HeadTail.head s' = HeadTail.tail s'
      /\ HeadTail.rb_read_syn wake yield_r fuel' (Some s') k = OutOfFuel.
Proof.
  intros wake yield_w yield_r fuel fuel' s po k Hwf Hpo Hk Hy.
  unfold INT_MAX in *.
  pose proof (ht_avail_range s Hwf) as Ha.
  pose proof Hwf as (Hsz & Hd & Hhd & Htl). unfold INT_MAX in Hsz.
  destruct (rb_write_asy_clamps s po (len po) Hwf eq_refl)
    as (s' & E & Hh & Ht & _).
  replace (Z.min (len po) (HeadTail._avail s)) with (HeadTail._avail s)
    in * by lia.
  unfold HeadTail.rb_write_asy in E.
  destruct (HeadTail._rb_write s po 0 (len po)) as [[r rb1] |] eqn:Ew;
    cbn in E; [| discriminate E].
  injection E as -> ->.
  assert (Hht : HeadTail.head s' = HeadTail.tail s').
  { rewrite Hh, Ht. unfold HeadTail._avail.
    destruct (Z.leb_spec (HeadTail.tail s) (HeadTail.head s)).
    - rewrite (size_t_small (HeadTail.head s - HeadTail.tail s)) by lia.
      rewrite size_t_small by lia.
      symmetry. apply (Z.mod_unique_pos _ _ 1); lia.
    - rewrite size_t_small by lia.
      replace (HeadTail.head s + (HeadTail.tail s - HeadTail.head s))
        with (HeadTail.tail s) by lia.
      apply Z.mod_small. lia. }
  exists s'. split; [| split; [exact Hht |]].
  - unfold HeadTail.rb_write_syn.
    rewrite (to_int_small (len po)) by lia.
    cbn [Nat.add HeadTail.write_syn_loop].
    destruct (Z.gtb_spec (len po) 0); [| lia]. cbn [Z.geb Z.compare andb].
    rewrite (size_t_small (len po)) by lia. rewrite Ew.
    destruct (Z.gtb_spec (HeadTail._avail s) 0); [| lia].
    rewrite (to_int_small (len po - HeadTail._avail s)) by lia.
    destruct (Z.gtb_spec (len po - HeadTail._avail s) 0); [reflexivity | lia].
  - unfold HeadTail.rb_read_syn. rewrite (to_int_small k) by lia.
    now rewrite ht_read_syn_loop_spins by (assumption || lia).
Qed.

Lemma ht_syn_round_trip_without_wrap_witness :
  ht_well_formed ht8
  /\ HeadTail.rb_write_syn single_threaded alone 1 (Some ht8) bytes345
       (len bytes345)
     = Returned (len bytes345, Some (ht_after_write ht8 bytes345))
  /\ HeadTail.rb_read_syn single_threaded alone 1
       (Some (ht_after_write ht8 bytes345)) 2
     = Returned (2, firstn (Z.to_nat 2) (ht_contents ht8 ++ bytes345),
                 Some (HeadTail.set_tail (ht_after_write ht8 bytes345)
                         (HeadTail.tail ht8 + 2))).
Proof.
  assert (H1 : ht_well_formed ht8).
  { unfold ht_well_formed, INT_MAX, len; cbn. repeat split; lia. }
  split; [exact H1 |].
  exact (ht_syn_round_trip_without_wrap single_threaded alone 0 ht8 bytes345 2
           H1 ltac:(cbn; lia) ltac:(cbn; lia) ltac:(cbn; lia)
           ltac:(cbn; lia)).
Defined.

(** The theorem of X19 on [ht8]: left alone the reader spins; with a
    writer that stores [bytes345] after the reader's first pass, the
    reader returns them. *)
Lemma ht_read_syn_spins_on_empty_buffer_witness :
  HeadTail.head ht8 = HeadTail.tail ht8
  /\ 0 < 3 <= INT_MAX
  /\ HeadTail.rb_read_syn (fun s => Some s) alone 500 (Some ht8) 3 = OutOfFuel
  /\ ht_well_formed (yield_writer ht8)
  /\ HeadTail.rb_read_syn single_threaded yield_writer 2 (Some ht8) 3
     = Returned (3, bytes345,
                 Some (HeadTail.set_tail (ht_after_write ht8 bytes345) 5)).
Proof.
  assert (H1 : HeadTail.head ht8 = HeadTail.tail ht8) by reflexivity.
  assert (H2 : 0 < 3 <= INT_MAX) by (unfold INT_MAX; lia).
  assert (H3 : ht_well_formed (yield_writer ht8)).
  { unfold ht_well_formed, INT_MAX, len; cbn. repeat split; lia. }
  split; [exact H1 |]. split; [exact H2 |]. split.
  - exact (proj1 (ht_read_syn_spins_on_empty_buffer (fun s => Some s) alone
                    500 ht8 3 H1 H2) (fun a H => H)).
  - split; [exact H3 |].
    exact (proj2 (ht_read_syn_spins_on_empty_buffer single_threaded
                    yield_writer 0 ht8 3 H1 H2) H3 ltac:(cbn; lia)).
Defined.

Lemma ht_write_syn_beyond_avail_cannot_complete_witness :
  ht_well_formed ht4
  /\ HeadTail._avail ht4 < len bytes345 <= INT_MAX
  /\ exists s' : HeadTail.ringbuffer,
      HeadTail.rb_write_syn single_threaded alone 1 (Some ht4) bytes345
        (len bytes345)
      = Blocked s'
      /\ HeadTail.rb_read_syn single_threaded alone 100 (Some s') 1
         = OutOfFuel.
Proof.
  assert (H1 : ht_well_formed ht4) by exact ht_well_formed_ht4.
  assert (H2 : HeadTail._avail ht4 < len bytes345 <= INT_MAX)
    by (unfold INT_MAX; cbn; lia).
  destruct (ht_write_syn_beyond_avail_cannot_complete single_threaded
              alone alone 0 100 ht4 bytes345 1 H1 H2
              ltac:(unfold INT_MAX; lia) (fun a H => H))
    as (s' & A & _ & B).
  split; [exact H1 |]. split; [exact H2 |].
  exists s'. split; [exact A | exact B].
Defined.

(** X21: [rb_init] of src/ringbuffer.c never assigns the [size] field.
    After a successful call [rb_get_size] returns what [malloc] left in
    the block, whatever capacity was asked for; when that is 0, every
    [rb_write_asy] stores nothing and returns 0. *)
Theorem ht_rb_init_leaves_size_unset :
  forall (e : env) (sz co : Z) (po : list Byte.byte),
    fst (fst (HeadTail.rb_init e None sz)) = 0 -> 0 <= co ->
    let h := snd (fst (HeadTail.rb_init e None sz)) in
    HeadTail.rb_get_size h = Ok (junk e)
    /\ (junk e = 0 -> HeadTail.rb_write_asy h po co = Ok (0, h)).
Proof.
  intros e sz co po. unfold HeadTail.rb_init.
  destruct (malloc_fails e); [cbn; discriminate |].
  destruct (init_prims e init_order []) as [erc evs].
  destruct (Z.eqb_spec erc 0) as [E | E]; cbn [fst snd];
    [| intros H; contradiction].
  intros _ Hco. split; [reflexivity |]. intros Hj. rewrite Hj.
  unfold HeadTail.rb_write_asy, HeadTail._rb_write, HeadTail._avail. cbn.
  change (size_t 0) with 0. rewrite clamp_min.
  replace (Z.min co 0) with 0 by lia. reflexivity.
Qed.

Lemma ht_rb_init_leaves_size_unset_witness :
  fst (fst (HeadTail.rb_init env_ok None 1024)) = 0
  /\ HeadTail.rb_get_size (snd (fst (HeadTail.rb_init env_ok None 1024))) = Ok 0
  /\ HeadTail.rb_write_asy (snd (fst (HeadTail.rb_init env_ok None 1024)))
       bytes345 3
     = Ok (0, snd (fst (HeadTail.rb_init env_ok None 1024))).
Proof.
  assert (H1 : fst (fst (HeadTail.rb_init env_ok None 1024)) = 0)
    by reflexivity.
  destruct (ht_rb_init_leaves_size_unset env_ok 1024 3 bytes345 H1 ltac:(lia))
    as [A B].
  split; [exact H1 |]. split; [exact A | exact (B eq_refl)].
Defined.
